(** * Aggregation core of llm-deliberate (backend/aggregation.py)

    A shallow embedding of the voting and agreement functions of
    [backend/aggregation.py], and the properties the specification states
    about them; then the functions around them: the look-ups of
    [backend/models.py], the merge functions and the compute, compare and
    agreement endpoints of [backend/main.py], [check_convergence] of
    [backend/deliberation.py], [ranking_letters_to_response_ids] of
    [backend/automation.py] and [_build_rank_cells] of
    [backend/export_utils.py].

    Modelling conventions.
    - Python [float] and [int] scores are exact rationals [Q]; equality of
      scores is [Qeq] ([==]).  Counts and positions that the code keeps as
      [int] are [Z] or [nat].
    - A Python [dict] is an insertion-ordered association list with unique
      keys: [d[k] = v] overwrites in place or appends, iteration follows the
      list.
    - A Python [set] of tuples is a duplicate-free list in insertion order.
      Python does not fix the iteration order of a set; the answer of
      [_creates_cycle] does not depend on it ([creates_cycle_reaches]), and
      the scores of [ranked_pairs] are sums over the set.
    - Operations that can raise in Python ([d[k]], [l[i]], [l.index(x)],
      [a / b], [max] of an empty sequence) return in the error monad
      [result]; a function "does not raise" when it returns [Ok _].
    - An object that a function mutates in place (the question found by
      [get_question_by_id]) is written back at its position in the
      experiment.
    - An endpoint starts where [load_experiment] has returned; its outcome
      is a [reply]: a body, an [HTTPException], or an escaped exception. *)

From Stdlib Require Import List String ZArith QArith Lia Lqa Bool Arith.
From Stdlib Require Import Permutation Sorted Morphisms Setoid Qabs.
From Equations Require Import Equations.
Import ListNotations.
Local Open Scope string_scope.
Local Open Scope Z_scope.
Local Open Scope list_scope.

Set Implicit Arguments.

(** ** Exceptions and the error monad *)

Inductive exn : Type :=
| KeyError
| IndexError
| ValueError
| ZeroDivisionError.

Inductive result (A : Type) : Type :=
| Ok (a : A)
| Raise (e : exn).

Arguments Ok {A} a.
Arguments Raise {A} e.

Definition bind {A B : Type} (m : result A) (k : A -> result B) : result B :=
  match m with
  | Ok a => k a
  | Raise e => Raise e
  end.

Notation "x <- m ;; k" := (bind m (fun x => k))
  (at level 61, m at next level, right associativity).

(** [for x in l: s = body(s, x)] with a body that may raise. *)
Fixpoint foldM {St A : Type} (body : St -> A -> result St) (l : list A) (s : St)
  : result St :=
  match l with
  | [] => Ok s
  | x :: l' => s' <- body s x ;; foldM body l' s'
  end.

(** ** Python lists *)

(** [x in l] *)
Definition contains (l : list string) (x : string) : bool :=
  existsb (String.eqb x) l.

(** [l.index(x)]: position of the first occurrence, [ValueError] if absent. *)
Fixpoint index (l : list string) (x : string) : result nat :=
  match l with
  | [] => Raise ValueError
  | y :: l' => if String.eqb y x then Ok O
               else i <- index l' x ;; Ok (S i)
  end.

(** [l[i]] for a non-negative [i]. *)
Definition list_getitem {A : Type} (l : list A) (i : nat) : result A :=
  match nth_error l i with
  | Some a => Ok a
  | None => Raise IndexError
  end.

(** [enumerate(l)] *)
Definition enumerate {A : Type} (l : list A) : list (nat * A) :=
  combine (seq 0 (List.length l)) l.

(** [l[i+1:]] *)
Definition slice_from {A : Type} (i : nat) (l : list A) : list A := skipn i l.

(** ** Python dicts *)

Definition dict (V : Type) : Type := list (string * V).

(** [d.get(k)] as an option. *)
Fixpoint dict_get {V : Type} (d : dict V) (k : string) : option V :=
  match d with
  | [] => None
  | (k', v) :: d' => if String.eqb k' k then Some v else dict_get d' k
  end.

(** [k in d] *)
Definition dict_contains {V : Type} (d : dict V) (k : string) : bool :=
  match dict_get d k with Some _ => true | None => false end.

(** [d.get(k, default)] *)
Definition dict_get_default {V : Type} (d : dict V) (k : string) (default : V) : V :=
  match dict_get d k with Some v => v | None => default end.

(** [d[k]] *)
Definition dict_getitem {V : Type} (d : dict V) (k : string) : result V :=
  match dict_get d k with Some v => Ok v | None => Raise KeyError end.

(** [d[k] = v] *)
Fixpoint dict_setitem {V : Type} (d : dict V) (k : string) (v : V) : dict V :=
  match d with
  | [] => [(k, v)]
  | (k', v') :: d' =>
      if String.eqb k' k then (k', v) :: d'
      else (k', v') :: dict_setitem d' k v
  end.

(** [{k: f(k) for k in l}], filled into [d0]. *)
Definition build {V : Type} (f : string -> V) (l : list string) (d0 : dict V)
  : dict V :=
  fold_left (fun d c => dict_setitem d c (f c)) l d0.

(** [dict.fromkeys(keys, v)] *)
Definition fromkeys {V : Type} (keys : list string) (v : V) : dict V :=
  build (fun _ => v) keys [].

(** [d.keys()] and [d.values()] *)
Definition keys {V : Type} (d : dict V) : list string := map fst d.
Definition values {V : Type} (d : dict V) : list V := map snd d.

(** [d[k] += x] on a dict of floats. *)
Definition dict_iadd (d : dict Q) (k : string) (x : Q) : result (dict Q) :=
  v <- dict_getitem d k ;; Ok (dict_setitem d k (v + x)%Q).

(** [sum(l)] on floats. *)
Definition sum (l : list Q) : Q := fold_left Qplus l 0%Q.

(** ** models.py: [Ranking]

    The fields [reasoning], [created_at] and [source] are never read by the
    aggregation module and are left out. *)

Record Ranking : Type := mkRanking {
  id : string;
  judge : string;
  rankings : list string;
  confidence : Q
}.

(** ** Scoring methods *)

(** [[r.rankings[0] for r in rankings if r.rankings]] *)
Fixpoint first_places (rs : list Ranking) : result (list string) :=
  match rs with
  | [] => Ok []
  | r :: rs' =>
      match rankings r with
      | [] => first_places rs'
      | _ :: _ =>
          c <- list_getitem (rankings r) 0 ;;
          rest <- first_places rs' ;;
          Ok (c :: rest)
      end
  end.

(** [Counter(l)] *)
Definition Counter (l : list string) : dict Z :=
  fold_left (fun d x => dict_setitem d x (dict_get_default d x 0 + 1)) l [].

Definition plurality (rs : list Ranking) (candidates : list string)
  : result (dict Q) :=
  fp <- first_places rs ;;
  let counts := Counter fp in
  Ok (build (fun c => inject_Z (dict_get_default counts c 0)) candidates []).

(** The body of the inner loop of [borda_count]:
    [if candidate_id in scores: scores[candidate_id] += (n - 1 - position)]. *)
Definition borda_step (n : Z) (scores : dict Q) (pc : nat * string)
  : result (dict Q) :=
  let '(position, candidate_id) := pc in
  if dict_contains scores candidate_id
  then dict_iadd scores candidate_id (inject_Z (n - 1 - Z.of_nat position))
  else Ok scores.

Definition borda_count (rs : list Ranking) (candidates : list string)
  : result (dict Q) :=
  let n := Z.of_nat (List.length candidates) in
  let scores := fromkeys candidates 0%Q in
  foldM (fun scores ranking =>
           foldM (borda_step n) (enumerate (rankings ranking)) scores)
        rs scores.

(** The body of the inner loop of [weighted_borda]. *)
Definition weighted_borda_step (n : Z) (weight : Q) (scores : dict Q)
  (pc : nat * string) : result (dict Q) :=
  let '(position, candidate_id) := pc in
  if dict_contains scores candidate_id
  then dict_iadd scores candidate_id
         (inject_Z (n - 1 - Z.of_nat position) * weight)%Q
  else Ok scores.

Definition weighted_borda (rs : list Ranking) (candidates : list string)
  : result (dict Q) :=
  let n := Z.of_nat (List.length candidates) in
  let scores := fromkeys candidates 0%Q in
  foldM (fun scores ranking =>
           let weight := confidence ranking in
           foldM (weighted_borda_step n weight)
                 (enumerate (rankings ranking)) scores)
        rs scores.

(** *** Pairwise comparison and Copeland *)

(** One iteration of the loop of [_count_pairwise_preferences]. *)
Definition count_step (c1 c2 : string) (acc : Z * Z) (ranking : Ranking)
  : result (Z * Z) :=
  let '(c1_preferred, c2_preferred) := acc in
  if contains (rankings ranking) c1 && contains (rankings ranking) c2 then
    pos1 <- index (rankings ranking) c1 ;;
    pos2 <- index (rankings ranking) c2 ;;
    if (pos1 <? pos2)%nat then Ok (c1_preferred + 1, c2_preferred)
    else if (pos2 <? pos1)%nat then Ok (c1_preferred, c2_preferred + 1)
    else Ok (c1_preferred, c2_preferred)
  else Ok (c1_preferred, c2_preferred).

Definition _count_pairwise_preferences (rs : list Ranking) (c1 c2 : string)
  : result (Z * Z) :=
  foldM (count_step c1 c2) rs (0, 0).

Definition _award_pairwise_points (wins : dict Q) (c1 c2 : string)
  (c1_preferred c2_preferred : Z) : result (dict Q) :=
  if c1_preferred >? c2_preferred then dict_iadd wins c1 1%Q
  else if c2_preferred >? c1_preferred then dict_iadd wins c2 1%Q
  else
    wins' <- dict_iadd wins c1 (1 # 2)%Q ;;
    dict_iadd wins' c2 (1 # 2)%Q.

Definition copeland_score (rs : list Ranking) (candidates : list string)
  : result (dict Q) :=
  let wins := fromkeys candidates 0%Q in
  foldM (fun wins ic1 =>
           let '(i, c1) := ic1 in
           foldM (fun wins c2 =>
                    p <- _count_pairwise_preferences rs c1 c2 ;;
                    let '(c1_preferred, c2_preferred) := p in
                    _award_pairwise_points wins c1 c2 c1_preferred c2_preferred)
                 (slice_from (i + 1) candidates) wins)
        (enumerate candidates) wins.

(** *** Ranked pairs *)

(** [if c1 in pref and c2 in pref[c1]: pref[c1][c2] += 1] *)
Definition pref_step (c1 : string) (pref : dict (dict Z)) (c2 : string)
  : result (dict (dict Z)) :=
  if dict_contains pref c1 then
    row <- dict_getitem pref c1 ;;
    if dict_contains row c2 then
      v <- dict_getitem row c2 ;;
      Ok (dict_setitem pref c1 (dict_setitem row c2 (v + 1)))
    else Ok pref
  else Ok pref.

Definition _build_preference_matrix (rs : list Ranking) (candidates : list string)
  : result (dict (dict Z)) :=
  let pref := build (fun c1 => fromkeys candidates 0) candidates [] in
  foldM (fun pref ranking =>
           foldM (fun pref ic1 =>
                    let '(i, c1) := ic1 in
                    foldM (pref_step c1) (slice_from (i + 1) (rankings ranking)) pref)
                 (enumerate (rankings ranking)) pref)
        rs pref.

(** One iteration of the inner loop of [_calculate_margin_pairs]. *)
Definition margin_step (pref : dict (dict Z)) (c1 : string)
  (pairs : list (string * string * Z)) (c2 : string)
  : result (list (string * string * Z)) :=
  row1 <- dict_getitem pref c1 ;;
  a <- dict_getitem row1 c2 ;;
  row2 <- dict_getitem pref c2 ;;
  b <- dict_getitem row2 c1 ;;
  let margin := a - b in
  if margin >? 0 then Ok (pairs ++ [(c1, c2, margin)])
  else if margin <? 0 then Ok (pairs ++ [(c2, c1, - margin)])
  else Ok pairs.

Definition _calculate_margin_pairs (candidates : list string)
  (pref : dict (dict Z)) : result (list (string * string * Z)) :=
  foldM (fun pairs ic1 =>
           let '(i, c1) := ic1 in
           foldM (margin_step pref c1) (slice_from (i + 1) candidates) pairs)
        (enumerate candidates) [].

(** [pairs.sort(key=..., reverse=True)]: Python's sort is stable, also with
    [reverse=True]: elements with equal keys keep their relative order.
    [gtb a b] tells that [a]'s key is strictly greater than [b]'s. *)
Section StableSort.
Variable A : Type.
Variable gtb : A -> A -> bool.

Fixpoint insert_desc (x : A) (l : list A) : list A :=
  match l with
  | [] => [x]
  | y :: l' => if gtb y x then y :: insert_desc x l' else x :: y :: l'
  end.

Fixpoint sort_desc (l : list A) : list A :=
  match l with
  | [] => []
  | x :: l' => insert_desc x (sort_desc l')
  end.
End StableSort.

Definition edge : Type := (string * string)%type.

Definition edge_eqb (e1 e2 : edge) : bool :=
  String.eqb (fst e1) (fst e2) && String.eqb (snd e1) (snd e2).

(** [s.add(x)] on a set kept as a duplicate-free list. *)
Definition set_add (s : list edge) (x : edge) : list edge :=
  if existsb (edge_eqb x) s then s else s ++ [x].

(** [for w, l in locked: if w == current: queue.append(l)] *)
Definition successors (locked : list edge) (current : string) : list string :=
  map snd (filter (fun e => String.eqb (fst e) current) locked).

(** Edges whose source has not been visited yet: each of them is appended
    to the queue at most once, which bounds the loop of [_creates_cycle]. *)
Definition pending (locked : list edge) (visited : list string) : nat :=
  List.length (filter (fun e => negb (contains visited (fst e))) locked).

(** A value together with the equation that it is the value of [a]: keeps
    the outcome of the test [current in visited] in the termination proof. *)
Definition inspect {A : Type} (a : A) : {b : A | a = b} := exist _ a eq_refl.

(** The [while queue:] loop of [_creates_cycle], on the state
    [(visited, queue)]. *)
Equations? bfs (locked : list edge) (winner : string)
  (visited queue : list string) : bool
  by wf (pending locked visited + List.length queue)%nat lt :=
  bfs locked winner visited [] := false;
  bfs locked winner visited (current :: queue) with String.eqb current winner => {
    | true := true;
    | false with inspect (contains visited current) => {
        | exist _ true _ := bfs locked winner visited queue;
        | exist _ false Hnew :=
            bfs locked winner (current :: visited)
                (queue ++ successors locked current) } }.
Proof.
  - cbn [List.length]. lia.
  - rewrite length_app. cbn [List.length].
    enough (pending locked (current :: visited)
            + List.length (successors locked current)
            = pending locked visited)%nat by lia.
    clear bfs. unfold pending, successors. rewrite length_map.
    pose (p1 := fun e : edge => negb (contains (current :: visited) (fst e))).
    pose (p2 := fun e : edge => String.eqb (fst e) current).
    pose (p3 := fun e : edge => negb (contains visited (fst e))).
    change (List.length (filter p1 locked) + List.length (filter p2 locked)
            = List.length (filter p3 locked))%nat.
    assert (Hrel : forall e, (p1 e = false /\ p2 e = true /\ p3 e = true)
                             \/ (p2 e = false /\ p1 e = p3 e)).
    { intros [w l]. unfold p1, p2, p3, contains. cbn [fst existsb].
      destruct (String.eqb_spec w current) as [->|Hne].
      - left. unfold contains in Hnew. rewrite Hnew. auto.
      - right. auto. }
    clearbody p1 p2 p3.
    induction locked as [|e locked IH]; [reflexivity|].
    cbn [filter].
    destruct (Hrel e) as [(H1 & H2 & H3)|(H2 & H1)].
    + rewrite H1, H2, H3. cbn [List.length]. lia.
    + rewrite H1, H2. destruct (p3 e); cbn [List.length]; lia.
Qed.

Definition _creates_cycle (locked : list edge) (winner loser : string) : bool :=
  bfs locked winner [] [loser].

Definition _lock_pairs_without_cycles (pairs : list (string * string * Z))
  : list edge :=
  fold_left (fun locked p =>
               let '(winner, loser, margin) := p in
               if negb (_creates_cycle locked winner loser)
               then set_add locked (winner, loser)
               else locked)
            pairs [].

(** The locked edges computed inside [ranked_pairs]. *)
Definition ranked_pairs_locked (rs : list Ranking) (candidates : list string)
  : result (list edge) :=
  pref <- _build_preference_matrix rs candidates ;;
  pairs <- _calculate_margin_pairs candidates pref ;;
  let pairs := sort_desc (fun x y => snd x >? snd y) pairs in
  Ok (_lock_pairs_without_cycles pairs).

Definition ranked_pairs (rs : list Ranking) (candidates : list string)
  : result (dict Q) :=
  locked <- ranked_pairs_locked rs candidates ;;
  let scores := fromkeys candidates 0%Q in
  foldM (fun scores e => dict_iadd scores (fst e) 1%Q) locked scores.

(** ** Result selection *)

(** [a > b] on floats. *)
Definition Qgt_bool (a b : Q) : bool := negb (Qle_bool a b).

(** The loop of Python's [max(iterable, key=...)]: the running maximum is
    replaced only by a strictly greater key, so the first maximum wins. *)
Fixpoint max_loop (key : string -> result Q) (best : string) (best_key : Q)
  (l : list string) : result string :=
  match l with
  | [] => Ok best
  | x :: l' =>
      kx <- key x ;;
      if Qgt_bool kx best_key then max_loop key x kx l'
      else max_loop key best best_key l'
  end.

(** [max(l, key=key)]; [ValueError] on an empty sequence. *)
Definition py_max (key : string -> result Q) (l : list string) : result string :=
  match l with
  | [] => Raise ValueError
  | x :: l' => kx <- key x ;; max_loop key x kx l'
  end.

Definition get_winner (scores : dict Q) : result string :=
  match scores with
  | [] => Ok ""%string
  | _ :: _ => py_max (fun k => dict_getitem scores k) (keys scores)
  end.

(** [[(k, key(k)) for k in l]]: [sorted] computes every key once, up front. *)
Fixpoint decorate (key : string -> result Q) (l : list string)
  : result (list (string * Q)) :=
  match l with
  | [] => Ok []
  | x :: l' => kx <- key x ;; rest <- decorate key l' ;; Ok ((x, kx) :: rest)
  end.

Definition get_ranking (scores : dict Q) : result (list string) :=
  keyed <- decorate (fun k => dict_getitem scores k) (keys scores) ;;
  Ok (map fst (sort_desc (fun x y => Qgt_bool (snd x) (snd y)) keyed)).

(** ** Analysis utilities *)

(** [a / b] on numbers. *)
Definition truediv (a b : Q) : result Q :=
  if Qeq_bool b 0 then Raise ZeroDivisionError else Ok (a / b)%Q.

(** One iteration of the inner loop of [_calculate_pairwise_agreement]. *)
Definition agreement_step (r1 r2 : Ranking) (c1 : string) (acc : Z * Z)
  (c2 : string) : result (Z * Z) :=
  let '(agreements, comparisons) := acc in
  if contains (rankings r1) c1 && contains (rankings r1) c2
     && contains (rankings r2) c1 && contains (rankings r2) c2 then
    pos1_r1 <- index (rankings r1) c1 ;;
    pos2_r1 <- index (rankings r1) c2 ;;
    pos1_r2 <- index (rankings r2) c1 ;;
    pos2_r2 <- index (rankings r2) c2 ;;
    let r1_prefers_c1 := (pos1_r1 <? pos2_r1)%nat in
    let r2_prefers_c1 := (pos1_r2 <? pos2_r2)%nat in
    let agreements :=
      if Bool.eqb r1_prefers_c1 r2_prefers_c1 then agreements + 1
      else agreements in
    Ok (agreements, comparisons + 1)
  else Ok (agreements, comparisons).

Definition _calculate_pairwise_agreement (r1 r2 : Ranking)
  (candidates : list string) : result Q :=
  acc <- foldM (fun acc ic1 =>
                  let '(i, c1) := ic1 in
                  foldM (agreement_step r1 r2 c1)
                        (slice_from (i + 1) candidates) acc)
               (enumerate candidates) (0, 0) ;;
  let '(agreements, comparisons) := acc in
  if comparisons >? 0
  then truediv (inject_Z agreements) (inject_Z comparisons)
  else Ok 0%Q.

(** [matrix[j1][j2] = v] *)
Definition matrix_set (matrix : dict (dict Q)) (j1 j2 : string) (v : Q)
  : result (dict (dict Q)) :=
  row <- dict_getitem matrix j1 ;;
  Ok (dict_setitem matrix j1 (dict_setitem row j2 v)).

Definition agreement_matrix (rs : list Ranking) (candidates : list string)
  : result (dict (dict Q)) :=
  let judges := map judge rs in
  let matrix := build (fun j1 => fromkeys judges 0%Q) judges [] in
  foldM (fun matrix r1 =>
           foldM (fun matrix r2 =>
                    if String.eqb (id r1) (id r2)
                    then matrix_set matrix (judge r1) (judge r2) 1%Q
                    else
                      v <- _calculate_pairwise_agreement r1 r2 candidates ;;
                      matrix_set matrix (judge r1) (judge r2) v)
                 rs matrix)
        rs matrix.

Definition methods
  : list (string * (list Ranking -> list string -> result (dict Q))) :=
  [ ("plurality"%string, plurality);
    ("borda"%string, borda_count);
    ("weighted_borda"%string, weighted_borda);
    ("copeland"%string, copeland_score);
    ("ranked_pairs"%string, ranked_pairs) ].

Definition method_agreement (rs : list Ranking) (candidates : list string)
  : result (dict string) :=
  foldM (fun d nm =>
           let '(name, method) := nm in
           scores <- method rs candidates ;;
           w <- get_winner scores ;;
           Ok (dict_setitem d name w))
        methods [].

Definition diversity_score (rs : list Ranking) (candidates : list string)
  : result Q :=
  if (List.length rs <? 2)%nat then Ok 0%Q
  else
    matrix <- agreement_matrix rs candidates ;;
    let judges := keys matrix in
    acc <- foldM (fun acc ij1 =>
                    let '(i, j1) := ij1 in
                    foldM (fun acc j2 =>
                             let '(total_agreement, count) := acc in
                             row <- dict_getitem matrix j1 ;;
                             v <- dict_getitem row j2 ;;
                             Ok ((total_agreement + v)%Q, count + 1))
                          (slice_from (i + 1) judges) acc)
                 (enumerate judges) (0%Q, 0) ;;
    let '(total_agreement, count) := acc in
    if count =? 0 then Ok 0%Q
    else
      avg_agreement <- truediv total_agreement (inject_Z count) ;;
      Ok (1 - avg_agreement)%Q.

(** ** Vocabulary of the statements *)

(** A candidate that no ranking mentions. *)
Definition unmentioned (rs : list Ranking) (c : string) : Prop :=
  forall r, In r rs -> ~ In c (rankings r).

(** The shape every method returns: one entry per supplied candidate. *)
Definition complete (candidates : list string) (scores : dict Q) : Prop :=
  NoDup (keys scores) /\ forall c, In c (keys scores) <-> In c candidates.

(** The pairs visited by
    [for i, c1 in enumerate(l): for c2 in l[i+1:]], in order. *)
Fixpoint all_pairs (l : list string) : list (string * string) :=
  match l with
  | [] => []
  | x :: l' => map (pair x) l' ++ all_pairs l'
  end.

(** Position of the first occurrence, or the length when absent. *)
Fixpoint pos (l : list string) (x : string) : nat :=
  match l with
  | [] => O
  | y :: l' => if String.eqb y x then O else S (pos l' x)
  end.

(** [r] ranks [c1] strictly before [c2] (both present). *)
Definition prefers (c1 c2 : string) (r : Ranking) : bool :=
  contains (rankings r) c1 && contains (rankings r) c2
  && (pos (rankings r) c1 <? pos (rankings r) c2)%nat.

Definition tally (rs : list Ranking) (c1 c2 : string) : Z :=
  Z.of_nat (List.length (filter (prefers c1 c2) rs)).

(** [d.get(c, 0.0)], the score of [c] read as a total function. *)
Definition score (d : dict Q) (c : string) : Q := dict_get_default d c 0%Q.

(** [sum(f(x) for x in l)] *)
Definition total {A : Type} (f : A -> Q) (l : list A) : Q := sum (map f l).

(** 1 when the test holds, else 0. *)
Definition ind (b : bool) : Q := if b then 1%Q else 0%Q.

(** What the pair [p] contributes to candidate [c] in [copeland_score]. *)
Definition gain (rs : list Ranking) (p : string * string) (c : string) : Q :=
  let a := tally rs (fst p) (snd p) in
  let b := tally rs (snd p) (fst p) in
  if a >? b then ind (String.eqb c (fst p))
  else if b >? a then ind (String.eqb c (snd p))
  else ((1 # 2) * ind (String.eqb c (fst p))
        + (1 # 2) * ind (String.eqb c (snd p)))%Q.

(** 1 when the pair [p] has [c] on one of its sides. *)
Definition involved (c : string) (p : string * string) : Q :=
  ind (String.eqb c (fst p) || String.eqb c (snd p)).

(** A strict majority of the rankings puts [c] strictly before [d]. *)
Definition majority (rs : list Ranking) (c d : string) : Prop :=
  (List.length rs < 2 * List.length (filter (prefers c d) rs))%nat.


(** The Borda points of one ranking in closed form: [n - 1 - p] for each
    position [p] of [c] in the order, when [c] is a candidate. *)
Definition borda_points (candidates : list string) (r : Ranking) (c : string) : Q :=
  let n := Z.of_nat (List.length candidates) in
  total (fun pc => (inject_Z (n - 1 - Z.of_nat (fst pc))
                    * ind (String.eqb c (snd pc)) * ind (contains candidates c))%Q)
        (enumerate (rankings r)).

(** The directed graph of the locked edges. *)
Inductive reaches (E : list edge) : string -> string -> Prop :=
| reaches_refl x : reaches E x x
| reaches_step x y z : In (x, y) E -> reaches E y z -> reaches E x z.

(** A path with at least one edge. *)
Definition path (E : list edge) (x y : string) : Prop :=
  exists z, In (x, z) E /\ reaches E z y.

(** No directed cycle. *)
Definition acyclic (E : list edge) : Prop := forall x, ~ path E x x.

Definition closed_under (E : list edge) (V : list string) : Prop :=
  forall u v, In u V -> In (u, v) E -> In v V.

(** [m.get(a, {}).get(b)] on a dict of dicts. *)
Definition matrix_get {V : Type} (m : dict (dict V)) (a b : string) : option V :=
  match dict_get m a with
  | Some row => dict_get row b
  | None => None
  end.

(** Some ranking mentions [c]. *)
Definition mentioned (rs : list Ranking) (c : string) : Prop :=
  exists r, In r rs /\ In c (rankings r).

(** The shape of the preference matrix of [ranked_pairs]: a count for every
    pair of candidates, and a non-zero count only between mentioned ones. *)
Definition pref_ok (rs : list Ranking) (candidates : list string)
  (pref : dict (dict Z)) : Prop :=
  (forall a b, In a candidates -> In b candidates -> matrix_get pref a b <> None)
  /\ (forall a b v, matrix_get pref a b = Some v -> v <> 0 ->
        mentioned rs a /\ mentioned rs b).

(** Every margin pair joins two mentioned candidates. *)
Definition pairs_ok (rs : list Ranking) (candidates : list string)
  (pairs : list (string * string * Z)) : Prop :=
  forall w l m, In (w, l, m) pairs ->
    In w candidates /\ In l candidates /\ mentioned rs w /\ mentioned rs l.

(** Both rankings mention both candidates of the pair [p]. *)
Definition comparable (r1 r2 : Ranking) (p : string * string) : bool :=
  contains (rankings r1) (fst p) && contains (rankings r1) (snd p)
  && contains (rankings r2) (fst p) && contains (rankings r2) (snd p).

(** The two rankings order the pair [p] the same way. *)
Definition agree (r1 r2 : Ranking) (p : string * string) : bool :=
  Bool.eqb (pos (rankings r1) (fst p) <? pos (rankings r1) (snd p))%nat
           (pos (rankings r2) (fst p) <? pos (rankings r2) (snd p))%nat.

(** Number of comparable pairs, and of those on which the rankings agree. *)
Definition comparisons (r1 r2 : Ranking) (candidates : list string) : Z :=
  Z.of_nat (List.length (filter (comparable r1 r2) (all_pairs candidates))).

Definition agreements (r1 r2 : Ranking) (candidates : list string) : Z :=
  Z.of_nat (List.length
    (filter (fun p => comparable r1 r2 p && agree r1 r2 p) (all_pairs candidates))).

(** The value of [_calculate_pairwise_agreement] in closed form. *)
Definition agreement (r1 r2 : Ranking) (candidates : list string) : Q :=
  if comparisons r1 r2 candidates >? 0
  then (inject_Z (agreements r1 r2 candidates)
        / inject_Z (comparisons r1 r2 candidates))%Q
  else 0%Q.

(** The value [agreement_matrix] writes for the rankings [r1] and [r2]. *)
Definition entry (candidates : list string) (r1 r2 : Ranking) : Q :=
  if String.eqb (id r1) (id r2) then 1%Q else agreement r1 r2 candidates.

(** The last ranking of the judge [j]: its writes are the ones that stay. *)
Fixpoint last_by (j : string) (rs : list Ranking) : option Ranking :=
  match rs with
  | [] => None
  | r :: rs' =>
      match last_by j rs' with
      | Some r' => Some r'
      | None => if String.eqb (judge r) j then Some r else None
      end
  end.

(** The entries of the matrix [agreement_matrix] returns. *)
Definition matrix_entry (rs : list Ranking) (candidates : list string)
  (j1 j2 : string) : option Q :=
  match last_by j1 rs, last_by j2 rs with
  | Some r1, Some r2 => Some (entry candidates r1 r2)
  | _, _ => None
  end.

(** A pair of candidates that both appear in [order]. *)
Definition comparable_pair (order candidates : list string) : Prop :=
  exists c1 c2, In (c1, c2) (all_pairs candidates) /\ In c1 order /\ In c2 order.

(** ** Example data

    The rankings of the examples of the specification, and a few more. *)

(** A ranking with the default confidence; the judge name serves as id. *)
Definition mk (j : string) (order : list string) : Ranking :=
  mkRanking j j order 1%Q.

Definition candidates3 : list string := ["r1"; "r2"; "r3"]%string.

(** The same with a fourth candidate that no ranking mentions. *)
Definition candidates4 : list string := ["r1"; "r2"; "r3"; "r4"]%string.

Definition rs_example : list Ranking :=
  [ mk "j1" ["r1"; "r2"; "r3"]%string;
    mk "j2" ["r2"; "r1"; "r3"]%string;
    mk "j3" ["r1"; "r3"; "r2"]%string ].

Definition rs_cycle : list Ranking :=
  [ mk "j1" ["A"; "B"; "C"]%string;
    mk "j2" ["B"; "C"; "A"]%string;
    mk "j3" ["C"; "A"; "B"]%string ].


(** Two rankings with the same partial order and no comparable pair. *)
Definition rs_partial : list Ranking :=
  [ mkRanking "id1" "j1" ["a"]%string 1%Q;
    mkRanking "id2" "j2" ["a"]%string 1%Q ].

(** The same judge name on two rankings that disagree. *)
Definition rs_same_judge : list Ranking :=
  [ mkRanking "id1" "j" ["a"; "b"]%string 1%Q;
    mkRanking "id2" "j" ["b"; "a"]%string 1%Q ].

(** Two judges with the same full order. *)
Definition rs_unanimous : list Ranking :=
  [ mkRanking "id1" "j1" ["A"; "B"; "C"]%string 1%Q;
    mkRanking "id2" "j2" ["A"; "B"; "C"]%string 1%Q ].



(** The ranking [r] puts [c] first. *)
Definition first_choice_is (c : string) (r : Ranking) : bool :=
  match rankings r with
  | [] => false
  | x :: _ => String.eqb x c
  end.

(** The first choice of [r] is one of the candidates. *)
Definition first_choice_in (candidates : list string) (r : Ranking) : bool :=
  match rankings r with
  | [] => false
  | x :: _ => contains candidates x
  end.

(** [len([x for x in l if p(x)])] as a score. *)
Definition count {A : Type} (p : A -> bool) (l : list A) : Q :=
  inject_Z (Z.of_nat (List.length (filter p l))).

(** Number of times the loops of [_build_preference_matrix] visit the
    ordered pair [(a, b)] in one order. *)
Definition visits (a b : string) (order : list string) : Z :=
  Z.of_nat (List.length (filter (edge_eqb (a, b)) (all_pairs order))).

(** The edge [_calculate_margin_pairs] emits for the pair [p], from the
    pairwise tallies. *)
Definition margin_edge (rs : list Ranking) (p : string * string)
  : list (string * string * Z) :=
  let margin := tally rs (fst p) (snd p) - tally rs (snd p) (fst p) in
  if margin >? 0 then [(fst p, snd p, margin)]
  else if margin <? 0 then [(snd p, fst p, - margin)]
  else [].

(** The edge [e] leaves [c]. *)
Definition leaves (c : string) (e : edge) : bool := String.eqb (fst e) c.

(** [c] beats every other candidate by a strict majority of the rankings. *)
Definition condorcet_winner (rs : list Ranking) (candidates : list string)
  (c : string) : Prop :=
  In c candidates
  /\ forall d, In d candidates -> d <> c -> majority rs c d.

(** Every ranking gives the order [order], with a positive confidence. *)
Definition unanimous (rs : list Ranking) (order : list string) : Prop :=
  forall r, In r rs -> rankings r = order /\ (0 < confidence r)%Q.

(** ** models.py: [Response], [Question], [Experiment]

    The fields that the modelled functions read.  [Response.id] is
    [response_id], [Question.id] is [question_id] and [Question.rankings] is
    [question_rankings]: a Rocq record field name is global. *)

Record Response : Type := mkResponse {
  response_id : string;
  model : string;
  content : string
}.

Record Question : Type := mkQuestion {
  question_id : string;
  text : string;
  ground_truth : option string;
  responses : list Response;
  question_rankings : list Ranking
}.

Record Experiment : Type := mkExperiment {
  questions : list Question
}.


(** [Experiment.get_question_by_id] *)
Fixpoint get_question_by_id (qs : list Question) (qid : string) : option Question :=
  match qs with
  | [] => None
  | q :: qs' => if String.eqb (question_id q) qid then Some q
                else get_question_by_id qs' qid
  end.


(** ** main.py: merging collected responses and rankings *)

(** The loop shared by the two merge functions:
    [for x in new: if key(x) not in existing: items.append(x); existing.add(key(x))].
    The set [existing] is a list used for membership only. *)
Section Merge.
Variable A : Type.
Variable key : A -> string.


End Merge.





(** ** main.py: the endpoints that call the aggregation module

    An endpoint is modelled from the point where [load_experiment] has
    returned the experiment.  It returns a body, raises an [HTTPException]
    with a status code and a detail, or lets another exception escape. *)

Inductive reply (A : Type) : Type :=
| Returned (body : A)
| HTTPException (status_code : Z) (detail : string)
| Uncaught (e : exn).

Arguments Returned {A} body.
Arguments HTTPException {A} status_code detail.
Arguments Uncaught {A} e.

Definition run {A : Type} (m : result A) : reply A :=
  match m with
  | Ok a => Returned a
  | Raise e => Uncaught e
  end.

Definition ERR_QUESTION_NOT_FOUND : string := "Question not found".

(** [{key(x): val(x) for x in l}] *)
Definition dict_of {A V : Type} (key : A -> string) (val : A -> V) (l : list A)
  : dict V :=
  fold_left (fun d x => dict_setitem d (key x) (val x)) l [].

(** [{id_to_model.get(k, k): v for k, v in scores.items()}] *)
Definition relabel (id_to_model : dict string) (scores : dict Q) : dict Q :=
  dict_of (fun kv : string * Q => dict_get_default id_to_model (fst kv) (fst kv))
          snd scores.

(** [[f(x) for x in l]] with an [f] that may raise. *)
Fixpoint mapM {A B : Type} (f : A -> result B) (l : list A) : result (list B) :=
  match l with
  | [] => Ok []
  | x :: l' => y <- f x ;; ys <- mapM f l' ;; Ok (y :: ys)
  end.

(** The table [methods] of [compute_results] and [compare_all_methods]. *)
Definition endpoint_methods
  : dict (list Ranking -> list string -> result (dict Q)) :=
  [ ("borda"%string, borda_count);
    ("weighted_borda"%string, weighted_borda);
    ("copeland"%string, copeland_score);
    ("plurality"%string, plurality);
    ("ranked_pairs"%string, ranked_pairs) ].




(** One entry of ["methods"] in the body of [compare_all_methods]. *)
Record MethodResult : Type := mkMethodResult {
  method_scores : dict Q;
  method_winner : string
}.

Record Comparison : Type := mkComparison {
  comparison_question_id : string;
  question_text : string;
  comparison_methods : dict MethodResult;
  comparison_unanimous : bool;
  comparison_ground_truth : option string
}.

Definition compare_all_methods (experiment : Experiment) (qid : string)
  : reply Comparison :=
  match get_question_by_id (questions experiment) qid with
  | None => HTTPException 404 ERR_QUESTION_NOT_FOUND
  | Some question =>
      if (List.length (question_rankings question) =? 0)%nat
      then HTTPException 400 "No rankings available"
      else
        let candidates := map response_id (responses question) in
        let id_to_model := dict_of response_id model (responses question) in
        run (results <-
               foldM (fun results nm =>
                        let '(method_name, method_fn) := nm in
                        scores <- method_fn (question_rankings question) candidates ;;
                        w <- get_winner scores ;;
                        Ok (dict_setitem results method_name
                              (mkMethodResult (relabel id_to_model scores)
                                 (dict_get_default id_to_model w w))))
                     endpoint_methods [] ;;
             let winners := map method_winner (values results) in
             let unanimous :=
               (List.length (nodup string_dec winners) =? 1)%nat in
             Ok (mkComparison qid (text question) results unanimous
                              (ground_truth question)))
  end.

(** The body of [get_agreement_matrix]. *)
Record Agreement : Type := mkAgreement {
  agreement_judges : list string;
  agreement_array : list (list Q);
  agreement_diversity : Q
}.

Definition get_agreement_matrix (experiment : Experiment) (qid : string)
  : reply Agreement :=
  match get_question_by_id (questions experiment) qid with
  | None => HTTPException 404 ERR_QUESTION_NOT_FOUND
  | Some question =>
      if (List.length (question_rankings question) <? 2)%nat
      then HTTPException 400 "Need at least 2 rankings for agreement analysis"
      else
        let candidates := map response_id (responses question) in
        run (matrix_data <- agreement_matrix (question_rankings question) candidates ;;
             diversity <- diversity_score (question_rankings question) candidates ;;
             let judges := keys matrix_data in
             matrix_array <-
               mapM (fun j1 =>
                       mapM (fun j2 =>
                               row <- dict_getitem matrix_data j1 ;;
                               dict_getitem row j2)
                            judges)
                    judges ;;
             Ok (mkAgreement judges matrix_array diversity))
  end.


(** The keys of [endpoint_methods]. *)
Definition endpoint_method_names : list string :=
  ["borda"; "weighted_borda"; "copeland"; "plurality"; "ranked_pairs"]%string.

(** The cell [m[i][j]] of a list of rows. *)
Definition cell (m : list (list Q)) (i j : nat) : option Q :=
  match nth_error m i with
  | Some row => nth_error row j
  | None => None
  end.





(** ** deliberation.py: [check_convergence] *)

(** [math.isclose(a, b, rel_tol=rel_tol, abs_tol=abs_tol)] on finite numbers *)
Definition isclose (a b rel_tol abs_tol : Q) : bool :=
  let diff := Qabs (b - a) in
  Qeq_bool a b
  || (Qle_bool diff (Qabs (rel_tol * b))
      || Qle_bool diff (Qabs (rel_tol * a))
      || Qle_bool diff abs_tol).

(** The truth value of a list: [if l] *)
Definition truthy {A : Type} (l : list A) : bool :=
  match l with
  | [] => false
  | _ :: _ => true
  end.

(** The body of the loop over [curr_by_model.items()]. *)
Definition similarity_step (prev_by_model : dict Response) (similarities : list Q)
  (item : string * Response) : list Q :=
  let '(model_name, curr_resp) := item in
  match dict_get prev_by_model model_name with
  | None => similarities
  | Some prev_resp =>
      let similarity :=
        if String.eqb (content curr_resp) (content prev_resp)
        then 1%Q else 0%Q in
      similarities ++ [similarity]
  end.

(** A [Response] object is always true, so [if not prev_resp] only tests
    for [None].  The function never reads [threshold]. *)
Definition check_convergence (current_responses previous_responses : list Response)
  (threshold : Q) : bool :=
  if negb (truthy previous_responses) || negb (truthy current_responses)
  then false
  else
    let prev_by_model := dict_of model (fun r => r) previous_responses in
    let curr_by_model := dict_of model (fun r => r) current_responses in
    let similarities :=
      fold_left (similarity_step prev_by_model) curr_by_model [] in
    if truthy similarities
       && forallb (fun s => isclose s 1 0 (1 # 1000000000)) similarities
    then true
    else false.

(** The last response of the model [m]: the one a dict keyed by model keeps. *)
Fixpoint last_of (m : string) (rs : list Response) : option Response :=
  match rs with
  | [] => None
  | r :: rs' =>
      match last_of m rs' with
      | Some r' => Some r'
      | None => if String.eqb (model r) m then Some r else None
      end
  end.


(** ** automation.py: [ranking_letters_to_response_ids]

    [rank_letter_to_index] strips, upper-cases and measures a Unicode
    string; it is kept abstract here, so that what is proved holds for
    whatever index it assigns to a token. *)

Section RankingLetters.
Variable rank_letter_to_index : string -> option Z.

Definition letter_step (responses : list Response) (response_ids : list string)
  (rank_letter : string) : result (list string) :=
  match rank_letter_to_index rank_letter with
  | None => Ok response_ids
  | Some idx =>
      if (0 <=? idx) && (idx <? Z.of_nat (List.length responses))
      then
        r <- list_getitem responses (Z.to_nat idx) ;;
        Ok (response_ids ++ [response_id r])
      else Ok response_ids
  end.

Definition ranking_letters_to_response_ids (ranking_list : list string)
  (responses : list Response) : result (list string) :=
  foldM (letter_step responses) ranking_list [].

(** The index of a token that selects a response. *)
Definition selects (responses : list Response) (rank_letter : string)
  : option Response :=
  match rank_letter_to_index rank_letter with
  | None => None
  | Some idx => if idx <? 0 then None else nth_error responses (Z.to_nat idx)
  end.
End RankingLetters.

(** The responses that the tokens select, in the order of the tokens. *)
Fixpoint selected {A B : Type} (f : A -> option B) (l : list A) : list B :=
  match l with
  | [] => []
  | x :: l' =>
      match f x with
      | Some y => y :: selected f l'
      | None => selected f l'
      end
  end.

(** ** export_utils.py: [_build_rank_cells] *)




(** Two judges with opposite orders. *)
Definition rs_opposite : list Ranking :=
  [ mk "j1" ["A"; "B"; "C"]%string;
    mk "j2" ["C"; "B"; "A"]%string ].

(** * Properties *)

Unset Implicit Arguments.

(** ** The error monad and loops *)

(** Loop invariant indexed by the processed prefix of the list. *)
Lemma foldM_prefix {St A : Type} (P : list A -> St -> Prop)
  (body : St -> A -> result St) (l : list A) (s : St) :
  P [] s ->
  (forall pre x post s0, l = pre ++ x :: post -> P pre s0 ->
     exists s1, body s0 x = Ok s1 /\ P (pre ++ [x]) s1) ->
  exists s', foldM body l s = Ok s' /\ P l s'.
Proof.
  intros H0 Hstep.
  assert (G : forall post pre s0, l = pre ++ post -> P pre s0 ->
                exists s', foldM body post s0 = Ok s' /\ P l s').
  { induction post as [|x post IH]; intros pre s0 Hl Hp.
    - rewrite app_nil_r in Hl. subst pre. exists s0. split; [reflexivity|assumption].
    - destruct (Hstep pre x post s0 Hl Hp) as (s1 & Hb & Hp1).
      simpl. rewrite Hb. simpl. apply (IH (pre ++ [x])); [|assumption].
      rewrite <- app_assoc. exact Hl. }
  apply (G l [] s); [reflexivity|assumption].
Qed.

(** Plain loop invariant. *)
Lemma foldM_inv {St A : Type} (P : St -> Prop)
  (body : St -> A -> result St) (l : list A) (s : St) :
  P s ->
  (forall x s0, In x l -> P s0 -> exists s1, body s0 x = Ok s1 /\ P s1) ->
  exists s', foldM body l s = Ok s' /\ P s'.
Proof.
  intros H0 Hstep.
  apply (foldM_prefix (fun _ => P)); [assumption|].
  intros pre x post s0 Hl Hp. apply Hstep; [|assumption].
  subst l. apply in_or_app. right. left. reflexivity.
Qed.

Lemma foldM_app {St A : Type} (body : St -> A -> result St) (l1 l2 : list A) (s : St) :
  foldM body (l1 ++ l2) s = (s' <- foldM body l1 s ;; foldM body l2 s').
Proof.
  revert s. induction l1 as [|x l1 IH]; intros s; simpl; [reflexivity|].
  destruct (body s x); simpl; [apply IH|reflexivity].
Qed.

(** ** Lists *)

Lemma contains_In (l : list string) (x : string) :
  contains l x = true <-> In x l.
Proof.
  unfold contains. rewrite existsb_exists. split.
  - intros (y & Hy & He). apply String.eqb_eq in He. subst. assumption.
  - intros H. exists x. split; [assumption|apply String.eqb_refl].
Qed.

Lemma contains_not_In (l : list string) (x : string) :
  contains l x = false <-> ~ In x l.
Proof.
  rewrite <- contains_In. destruct (contains l x); split; congruence.
Qed.

(** ** Dicts *)

Section DictFacts.
Variable V : Type.
Implicit Types (d : dict V) (k : string) (v : V).

Lemma dict_get_setitem_eq d k v : dict_get (dict_setitem d k v) k = Some v.
Proof.
  induction d as [|[k' v'] d IH]; simpl.
  - rewrite String.eqb_refl. reflexivity.
  - destruct (String.eqb_spec k' k) as [->|Hne]; simpl.
    + rewrite String.eqb_refl. reflexivity.
    + destruct (String.eqb_spec k' k); [congruence|assumption].
Qed.

Lemma dict_get_setitem_neq d k k' v :
  k <> k' -> dict_get (dict_setitem d k v) k' = dict_get d k'.
Proof.
  intros Hne. induction d as [|[k0 v0] d IH]; simpl.
  - destruct (String.eqb_spec k k'); [congruence|reflexivity].
  - destruct (String.eqb_spec k0 k) as [->|Hk]; simpl.
    + destruct (String.eqb_spec k k'); [congruence|reflexivity].
    + rewrite IH. reflexivity.
Qed.

Lemma dict_get_In d k : In k (keys d) <-> dict_get d k <> None.
Proof.
  induction d as [|[k0 v0] d IH]; simpl.
  - split; [tauto|congruence].
  - destruct (String.eqb_spec k0 k) as [->|Hk].
    + split; [congruence|auto].
    + rewrite <- IH. split; [intros [H|H]; [congruence|assumption]|auto].
Qed.

Lemma dict_contains_In d k : dict_contains d k = true <-> In k (keys d).
Proof.
  rewrite dict_get_In. unfold dict_contains.
  destruct (dict_get d k); split; congruence.
Qed.

Lemma keys_setitem_present d k v :
  In k (keys d) -> keys (dict_setitem d k v) = keys d.
Proof.
  induction d as [|[k0 v0] d IH]; simpl; [tauto|]. intros H.
  destruct (String.eqb_spec k0 k) as [->|Hk]; simpl; [reflexivity|].
  f_equal. apply IH. destruct H; [congruence|assumption].
Qed.

Lemma keys_setitem_absent d k v :
  ~ In k (keys d) -> keys (dict_setitem d k v) = keys d ++ [k].
Proof.
  induction d as [|[k0 v0] d IH]; simpl; [reflexivity|]. intros H.
  destruct (String.eqb_spec k0 k) as [->|Hk]; simpl; [tauto|].
  f_equal. apply IH. tauto.
Qed.

Lemma keys_setitem_In d k v k' :
  In k' (keys (dict_setitem d k v)) <-> k' = k \/ In k' (keys d).
Proof.
  destruct (in_dec string_dec k (keys d)) as [Hin|Hout].
  - rewrite keys_setitem_present by assumption.
    split; [auto|intros [->|H]; assumption].
  - rewrite keys_setitem_absent by assumption.
    rewrite in_app_iff. simpl. intuition congruence.
Qed.

Lemma keys_setitem_NoDup d k v :
  NoDup (keys d) -> NoDup (keys (dict_setitem d k v)).
Proof.
  intros Hnd. destruct (in_dec string_dec k (keys d)) as [Hin|Hout].
  - rewrite keys_setitem_present by assumption. assumption.
  - rewrite keys_setitem_absent by assumption.
    apply NoDup_app; [assumption|repeat constructor; simpl; tauto|].
    intros x Hx [<-|[]]. contradiction.
Qed.

Lemma build_keys_In f l d0 k :
  In k (keys (build f l d0)) <-> In k l \/ In k (keys d0).
Proof.
  unfold build. revert d0. induction l as [|x l IH]; intros d0; simpl.
  - tauto.
  - rewrite IH, keys_setitem_In. intuition congruence.
Qed.

Lemma build_keys_NoDup f l d0 :
  NoDup (keys d0) -> NoDup (keys (build f l d0)).
Proof.
  unfold build. revert d0. induction l as [|x l IH]; intros d0 H; simpl.
  - assumption.
  - apply IH, keys_setitem_NoDup, H.
Qed.

Lemma build_get f l d0 k :
  dict_get (build f l d0) k
  = if contains l k then Some (f k) else dict_get d0 k.
Proof.
  unfold build. revert d0. induction l as [|x l IH]; intros d0.
  - reflexivity.
  - cbn [fold_left]. rewrite IH. unfold contains. cbn [existsb].
    destruct (existsb (String.eqb k) l) eqn:E.
    + rewrite orb_true_r. reflexivity.
    + rewrite orb_false_r. destruct (String.eqb_spec k x) as [->|Hne].
      * apply dict_get_setitem_eq.
      * apply dict_get_setitem_neq. congruence.
Qed.

Lemma fromkeys_build l v : fromkeys l v = build (fun _ => v) l [].
Proof. reflexivity. Qed.

Lemma fromkeys_keys_In l v k : In k (keys (fromkeys l v)) <-> In k l.
Proof. rewrite fromkeys_build, build_keys_In. simpl. tauto. Qed.

Lemma fromkeys_keys_NoDup l v : NoDup (keys (fromkeys l v)).
Proof. rewrite fromkeys_build. apply build_keys_NoDup. constructor. Qed.

Lemma fromkeys_get l v k :
  dict_get (fromkeys l v) k = if contains l k then Some v else None.
Proof. rewrite fromkeys_build. apply build_get. Qed.
End DictFacts.

(** ** Sums and in-place additions *)

Lemma fold_left_Qplus (l : list Q) (a : Q) :
  (fold_left Qplus l a == a + sum l)%Q.
Proof.
  unfold sum. revert a. induction l as [|x l IH]; intros a; simpl.
  - ring.
  - rewrite (IH (a + x)%Q), (IH (0 + x)%Q). ring.
Qed.

Lemma sum_cons (x : Q) (l : list Q) : (sum (x :: l) == x + sum l)%Q.
Proof. unfold sum at 1. simpl. rewrite fold_left_Qplus. ring. Qed.

Lemma sum_setitem (d : dict Q) (k : string) (v v' : Q) :
  dict_get d k = Some v ->
  (sum (values (dict_setitem d k v')) == sum (values d) - v + v')%Q.
Proof.
  induction d as [|[k0 v0] d IH]; simpl; [discriminate|].
  destruct (String.eqb_spec k0 k) as [->|Hne]; intros H.
  - injection H as ->. simpl. rewrite !sum_cons. ring.
  - simpl. rewrite !sum_cons, (IH H). ring.
Qed.

(** What [d[k] += x] does when the key is there. *)
Lemma dict_iadd_spec (d : dict Q) (k : string) (x v : Q) :
  dict_get d k = Some v ->
  exists d', dict_iadd d k x = Ok d'
    /\ keys d' = keys d
    /\ dict_get d' k = Some (v + x)%Q
    /\ (forall k', k <> k' -> dict_get d' k' = dict_get d k')
    /\ (sum (values d') == sum (values d) + x)%Q.
Proof.
  intros Hg. exists (dict_setitem d k (v + x)%Q).
  unfold dict_iadd, dict_getitem. rewrite Hg. simpl.
  split; [reflexivity|]. split.
  { apply keys_setitem_present, dict_get_In. congruence. }
  split; [apply dict_get_setitem_eq|]. split.
  { intros k' Hne. apply dict_get_setitem_neq, Hne. }
  rewrite (@sum_setitem d k v (v + x)%Q Hg). ring.
Qed.

Lemma sum_app (l1 l2 : list Q) : (sum (l1 ++ l2) == sum l1 + sum l2)%Q.
Proof.
  induction l1 as [|x l1 IH]; simpl.
  - unfold sum at 2. simpl. ring.
  - rewrite !sum_cons, IH. ring.
Qed.

Lemma total_nil {A : Type} (f : A -> Q) : (total f [] == 0)%Q.
Proof. reflexivity. Qed.

Lemma total_cons {A : Type} (f : A -> Q) (x : A) (l : list A) :
  (total f (x :: l) == f x + total f l)%Q.
Proof. unfold total. simpl. apply sum_cons. Qed.

Lemma total_app {A : Type} (f : A -> Q) (l1 l2 : list A) :
  (total f (l1 ++ l2) == total f l1 + total f l2)%Q.
Proof. unfold total. rewrite map_app. apply sum_app. Qed.

Lemma total_snoc {A : Type} (f : A -> Q) (l : list A) (x : A) :
  (total f (l ++ [x]) == total f l + f x)%Q.
Proof. rewrite total_app, total_cons, total_nil. ring. Qed.

Lemma total_ext {A : Type} (f g : A -> Q) (l : list A) :
  (forall x, In x l -> (f x == g x)%Q) -> (total f l == total g l)%Q.
Proof.
  induction l as [|x l IH]; intros H; [reflexivity|].
  rewrite !total_cons, (H x (or_introl eq_refl)), IH; [reflexivity|].
  intros y Hy. apply H. right. assumption.
Qed.

Lemma total_le {A : Type} (f g : A -> Q) (l : list A) :
  (forall x, In x l -> (f x <= g x)%Q) -> (total f l <= total g l)%Q.
Proof.
  induction l as [|x l IH]; intros H; [apply Qle_refl|].
  rewrite !total_cons. apply Qplus_le_compat.
  - apply H. left. reflexivity.
  - apply IH. intros y Hy. apply H. right. assumption.
Qed.

Lemma total_map {A B : Type} (g : A -> B) (f : B -> Q) (l : list A) :
  total f (map g l) = total (fun x => f (g x)) l.
Proof. unfold total. rewrite map_map. reflexivity. Qed.

Lemma total_zero {A : Type} (f : A -> Q) (l : list A) :
  (forall x, In x l -> (f x == 0)%Q) -> (total f l == 0)%Q.
Proof.
  intros H. induction l as [|x l IH]; [reflexivity|].
  rewrite total_cons, (H x (or_introl eq_refl)), IH; [ring|].
  intros y Hy. apply H. right. assumption.
Qed.

Lemma total_one {A : Type} (f : A -> Q) (l : list A) :
  (forall x, In x l -> (f x == 1)%Q) ->
  (total f l == inject_Z (Z.of_nat (List.length l)))%Q.
Proof.
  intros H. induction l as [|x l IH]; [reflexivity|].
  rewrite total_cons, (H x (or_introl eq_refl)), IH.
  - cbn [List.length]. rewrite Nat2Z.inj_succ, <- Z.add_1_l, inject_Z_plus.
    reflexivity.
  - intros y Hy. apply H. right. assumption.
Qed.

Lemma build_In {V : Type} (f : string -> V) (l : list string) (d0 : dict V)
  (k : string) (v : V) :
  In (k, v) (build f l d0) -> v = f k \/ In (k, v) d0.
Proof.
  unfold build. revert d0. induction l as [|x l IH]; intros d0; simpl; [auto|].
  intros H. destruct (IH _ H) as [H1|H1]; [auto|].
  clear -H1. induction d0 as [|[k0 v0] d0 IH0]; simpl in H1.
  - destruct H1 as [H1|[]]. injection H1 as <- <-. auto.
  - destruct (String.eqb_spec k0 x) as [->|Hne]; simpl in H1.
    + destruct H1 as [H1|H1]; [injection H1 as <- <-; auto|right; right; assumption].
    + destruct H1 as [H1|H1]; [right; left; assumption|].
      destruct (IH0 H1); [auto|right; right; assumption].
Qed.

Lemma sum_fromkeys_zero (l : list string) : (sum (values (fromkeys l 0%Q)) == 0)%Q.
Proof.
  assert (G : forall d : dict Q, (forall k v, In (k, v) d -> v = 0%Q) ->
                (sum (values d) == 0)%Q).
  { induction d as [|[k v] d IH]; intros H; [reflexivity|].
    simpl. rewrite sum_cons, IH.
    - rewrite (H k v (or_introl eq_refl)). ring.
    - intros k' v' H'. eapply H. right. eassumption. }
  apply G. intros k v H. apply build_In in H. destruct H as [H|[]]. exact H.
Qed.

Lemma score_fromkeys_zero (l : list string) (c : string) :
  score (fromkeys l 0%Q) c = 0%Q.
Proof.
  unfold score, dict_get_default. rewrite fromkeys_get.
  destruct (contains l c); reflexivity.
Qed.

(** [d[k] += x], read through [score]. *)
Lemma dict_iadd_score (d : dict Q) (k : string) (x : Q) :
  In k (keys d) ->
  exists d', dict_iadd d k x = Ok d'
    /\ keys d' = keys d
    /\ (sum (values d') == sum (values d) + x)%Q
    /\ forall c, (score d' c == score d c + x * ind (String.eqb c k))%Q.
Proof.
  intros Hin. apply dict_get_In in Hin.
  destruct (dict_get d k) as [v|] eqn:Hg; [|congruence].
  destruct (@dict_iadd_spec d k x v Hg) as (d' & H1 & H2 & H3 & H4 & H5).
  exists d'. repeat split; try assumption.
  intros c. unfold score, dict_get_default.
  destruct (String.eqb_spec c k) as [->|Hne]; unfold ind.
  - rewrite H3, Hg. ring.
  - rewrite H4 by congruence. ring.
Qed.

(** ** Result selection: [get_winner] *)


Lemma Qgt_bool_true (a b : Q) : Qgt_bool a b = true <-> (b < a)%Q.
Proof.
  unfold Qgt_bool. rewrite negb_true_iff. split.
  - intros H. apply Qnot_le_lt. intros Hle. apply Qle_bool_iff in Hle. congruence.
  - intros H. destruct (Qle_bool a b) eqn:E; [|reflexivity].
    apply Qle_bool_iff in E. exfalso. apply (Qlt_not_le _ _ H E).
Qed.

Lemma Qgt_bool_false (a b : Q) : Qgt_bool a b = false <-> (a <= b)%Q.
Proof.
  unfold Qgt_bool. rewrite negb_false_iff. apply Qle_bool_iff.
Qed.

(** The loop of [max] over decorated keys: either the initial maximum
    survives, or the result is the first entry that beats everything before
    it and is not beaten afterwards. *)
Lemma max_loop_first (key : string -> result Q) (l : list (string * Q)) :
  (forall k v, In (k, v) l -> key k = Ok v) ->
  forall best bk,
  exists w, max_loop key best bk (map fst l) = Ok w /\
    ((w = best /\ forall k v, In (k, v) l -> (v <= bk)%Q)
     \/ exists sw pre post, l = pre ++ (w, sw) :: post
          /\ (bk < sw)%Q
          /\ (forall k v, In (k, v) pre -> (v < sw)%Q)
          /\ (forall k v, In (k, v) post -> (v <= sw)%Q)).
Proof.
  induction l as [|[x vx] l IH]; intros Hkey best bk.
  - exists best. split; [reflexivity|]. left. split; [reflexivity|]. intros k v [].
  - cbn [map fst max_loop].
    rewrite (Hkey x vx (or_introl eq_refl)). cbn [bind].
    assert (Hkey' : forall k v, In (k, v) l -> key k = Ok v)
      by (intros k v H; apply Hkey; right; assumption).
    destruct (Qgt_bool vx bk) eqn:Hcmp.
    + apply Qgt_bool_true in Hcmp.
      destruct (IH Hkey' x vx) as (w & Hw & [(-> & Hall)|(sw & pre & post & -> & Hlt & Hpre & Hpost)]).
      * exists x. split; [assumption|]. right.
        exists vx, [], l. repeat split; try assumption. intros k v [].
      * exists w. split; [assumption|]. right.
        exists sw, ((x, vx) :: pre), post. repeat split; try assumption.
        -- eapply Qlt_trans; eassumption.
        -- intros k v [H|H]; [injection H as <- <-; assumption|eapply Hpre, H].
    + apply Qgt_bool_false in Hcmp.
      destruct (IH Hkey' best bk) as (w & Hw & [(-> & Hall)|(sw & pre & post & -> & Hlt & Hpre & Hpost)]).
      * exists best. split; [assumption|]. left. split; [reflexivity|].
        intros k v [H|H]; [injection H as <- <-; assumption|eapply Hall, H].
      * exists w. split; [assumption|]. right.
        exists sw, ((x, vx) :: pre), post. repeat split; try assumption.
        intros k v [H|H]; [|eapply Hpre, H].
        injection H as <- <-. eapply Qle_lt_trans; eassumption.
Qed.



(** ** Score maps: keys and totality of the positional methods *)

Lemma complete_fromkeys (candidates : list string) (v : Q) :
  complete candidates (fromkeys candidates v).
Proof.
  split; [apply fromkeys_keys_NoDup|]. intros c. apply fromkeys_keys_In.
Qed.

Lemma complete_keys (candidates : list string) (d d' : dict Q) :
  keys d' = keys d -> complete candidates d -> complete candidates d'.
Proof. unfold complete. intros ->. tauto. Qed.

Lemma first_places_Ok (rs : list Ranking) :
  exists fp, first_places rs = Ok fp
    /\ forall c, In c fp -> exists r, In r rs /\ In c (rankings r).
Proof.
  induction rs as [|r rs (fp & Hfp & Hin)]; simpl.
  - exists []. split; [reflexivity|]. intros c [].
  - destruct (rankings r) as [|c0 order] eqn:Hr.
    + exists fp. split; [assumption|]. intros c Hc.
      destruct (Hin c Hc) as (r' & H1 & H2). exists r'. auto.
    + rewrite Hfp. simpl. exists (c0 :: fp). split; [reflexivity|].
      intros c [<-|Hc].
      * exists r. split; [auto|]. rewrite Hr. left. reflexivity.
      * destruct (Hin c Hc) as (r' & H1 & H2). exists r'. auto.
Qed.

Lemma Counter_absent (l : list string) (c : string) :
  ~ In c l -> dict_get (Counter l) c = None.
Proof.
  unfold Counter.
  assert (G : forall d, dict_get d c = None -> ~ In c l ->
    dict_get (fold_left
      (fun d x => dict_setitem d x (dict_get_default d x 0 + 1)) l d) c = None).
  { induction l as [|x l IH]; intros d Hd Hc; simpl; [assumption|].
    apply IH; [|simpl in Hc; tauto].
    rewrite dict_get_setitem_neq; [assumption|]. simpl in Hc. intros ->. tauto. }
  apply G. reflexivity.
Qed.

Lemma plurality_complete (rs : list Ranking) (candidates : list string) :
  exists scores, plurality rs candidates = Ok scores
    /\ complete candidates scores
    /\ forall c, In c candidates -> unmentioned rs c ->
         dict_get scores c = Some 0%Q.
Proof.
  unfold plurality. destruct (first_places_Ok rs) as (fp & -> & Hfp). simpl.
  eexists. split; [reflexivity|]. split.
  - split; [apply build_keys_NoDup; constructor|].
    intros c. rewrite build_keys_In. simpl. tauto.
  - intros c Hc Hun. rewrite build_get.
    apply contains_In in Hc. rewrite Hc.
    unfold dict_get_default. rewrite Counter_absent; [reflexivity|].
    intros Hin. destruct (Hfp c Hin) as (r & Hr & Hcr). exact (Hun r Hr Hcr).
Qed.

Lemma complete_contains (candidates : list string) (scores : dict Q) (c : string) :
  complete candidates scores -> dict_contains scores c = contains candidates c.
Proof.
  intros [_ Hk]. apply eq_true_iff_eq.
  rewrite dict_contains_In, contains_In. apply Hk.
Qed.

(** A loop over [enumerate(order)] whose body only touches the entries of
    members of [order] by [+=], as in both Borda variants: [f p] is added to
    the entry of the candidate at position [p] when it is a candidate. *)
Lemma positional_loop (f : nat -> Q) (step : dict Q -> nat * string -> result (dict Q))
  (candidates : list string) :
  (forall scores p c, step scores (p, c) =
     if dict_contains scores c then dict_iadd scores c (f p) else Ok scores) ->
  forall (order : list (nat * string)) (scores : dict Q),
    complete candidates scores ->
    exists scores', foldM step order scores = Ok scores'
      /\ keys scores' = keys scores
      /\ (forall c, ~ In c (map snd order) -> dict_get scores' c = dict_get scores c)
      /\ (sum (values scores') == sum (values scores)
            + total (fun pc => f (fst pc) * ind (contains candidates (snd pc))) order)%Q
      /\ (forall c, (score scores' c == score scores c
            + total (fun pc => f (fst pc) * ind (String.eqb c (snd pc))
                               * ind (contains candidates c)) order)%Q).
Proof.
  intros Hstep. induction order as [|[p c] order IH]; intros scores Hc.
  - exists scores. repeat split; try reflexivity.
    + rewrite total_nil. ring.
    + intros c. rewrite total_nil. ring.
  - cbn [foldM]. rewrite Hstep.
    rewrite (complete_contains candidates scores c Hc).
    destruct (contains candidates c) eqn:Hin.
    + assert (Hk1 : In c (keys scores)).
      { apply (proj2 Hc), contains_In, Hin. }
      pose proof Hk1 as Hk0. apply dict_get_In in Hk0.
      destruct (dict_get scores c) as [v|] eqn:Hg; [|congruence].
      destruct (@dict_iadd_spec scores c (f p) v Hg) as (s1 & Hs1 & Hk & _ & Hother & Hsum).
      destruct (dict_iadd_score scores c (f p) Hk1) as (s1' & Hs1' & _ & _ & Hsc).
      assert (s1' = s1) by congruence. subst s1'.
      rewrite Hs1. cbn [bind].
      destruct (IH s1 (complete_keys candidates _ _ Hk Hc)) as (s2 & Hs2 & Hk2 & Hun & Hsum2 & Hsc2).
      exists s2. split; [assumption|]. split; [congruence|]. split; [|split].
      * intros c' Hc'. simpl in Hc'. rewrite Hun by tauto.
        apply Hother. intros ->. tauto.
      * rewrite Hsum2, Hsum, total_cons. cbn [fst snd]. rewrite Hin.
        unfold ind. ring.
      * intros c'. rewrite Hsc2, Hsc, total_cons. cbn [fst snd]. unfold ind.
        destruct (String.eqb_spec c' c) as [->|Hne].
        -- rewrite Hin. ring.
        -- ring.
    + cbn [bind]. destruct (IH scores Hc) as (s2 & Hs2 & Hk2 & Hun & Hsum2 & Hsc2).
      exists s2. split; [assumption|]. split; [assumption|]. split; [|split].
      * intros c' Hc'. apply Hun. simpl in Hc'. tauto.
      * rewrite Hsum2, total_cons. cbn [fst snd]. rewrite Hin. unfold ind. ring.
      * intros c'. rewrite Hsc2, total_cons. cbn [fst snd]. unfold ind.
        destruct (String.eqb_spec c' c) as [->|Hne].
        -- rewrite Hin. ring.
        -- ring.
Qed.

Lemma enumerate_snd {A : Type} (l : list A) : map snd (enumerate l) = l.
Proof.
  unfold enumerate. generalize 0%nat. induction l as [|x l IH]; intros n; simpl.
  - reflexivity.
  - f_equal. apply IH.
Qed.

(** The outer loop over the rankings, for both Borda variants. *)
Lemma positional_rankings
  (inner : Ranking -> dict Q -> nat * string -> result (dict Q))
  (f : Ranking -> nat -> Q) (candidates : list string) :
  (forall r scores p c, inner r scores (p, c) =
     if dict_contains scores c then dict_iadd scores c (f r p) else Ok scores) ->
  forall (rs : list Ranking) (scores : dict Q),
    complete candidates scores ->
    exists scores',
      foldM (fun scores r => foldM (inner r) (enumerate (rankings r)) scores)
            rs scores = Ok scores'
      /\ keys scores' = keys scores
      /\ (forall c, unmentioned rs c -> dict_get scores' c = dict_get scores c)
      /\ (sum (values scores') == sum (values scores)
            + total (fun r =>
                       total (fun pc => f r (fst pc) * ind (contains candidates (snd pc)))
                             (enumerate (rankings r))) rs)%Q
      /\ (forall c, (score scores' c == score scores c
            + total (fun r =>
                       total (fun pc => f r (fst pc) * ind (String.eqb c (snd pc))
                                          * ind (contains candidates c))
                             (enumerate (rankings r))) rs)%Q).
Proof.
  intros Hinner. induction rs as [|r rs IH]; intros scores Hc.
  - exists scores. repeat split; try reflexivity.
    + rewrite total_nil. ring.
    + intros c. rewrite total_nil. ring.
  - cbn [foldM].
    destruct (positional_loop (f r) (inner r) candidates (Hinner r) (enumerate (rankings r)) scores Hc)
      as (s1 & -> & Hk & Hun1 & Hsum1 & Hsc1). cbn [bind].
    destruct (IH s1 (complete_keys candidates _ _ Hk Hc)) as (s2 & Hs2 & Hk2 & Hun2 & Hsum2 & Hsc2).
    exists s2. split; [assumption|]. split; [congruence|]. split; [|split].
    + intros c Hun. rewrite Hun2.
      * apply Hun1. rewrite enumerate_snd. apply Hun. left. reflexivity.
      * intros r' Hr'. apply Hun. right. assumption.
    + rewrite Hsum2, Hsum1, total_cons. ring.
    + intros c. rewrite Hsc2, Hsc1, total_cons. ring.
Qed.

Lemma borda_count_complete (rs : list Ranking) (candidates : list string) :
  exists scores, borda_count rs candidates = Ok scores
    /\ complete candidates scores
    /\ forall c, In c candidates -> unmentioned rs c ->
         dict_get scores c = Some 0%Q.
Proof.
  unfold borda_count.
  set (n := Z.of_nat (List.length candidates)).
  destruct (positional_rankings (fun _ => borda_step n)
              (fun _ p => inject_Z (n - 1 - Z.of_nat p)) candidates
              ltac:(reflexivity) rs _ (complete_fromkeys candidates 0%Q))
    as (scores & Hs & Hk & Hun & _).
  exists scores. split; [exact Hs|]. split.
  - exact (complete_keys candidates _ _ Hk (complete_fromkeys candidates 0%Q)).
  - intros c Hc Hu. rewrite (Hun c Hu), fromkeys_get.
    apply contains_In in Hc. rewrite Hc. reflexivity.
Qed.

Lemma weighted_borda_complete (rs : list Ranking) (candidates : list string) :
  exists scores, weighted_borda rs candidates = Ok scores
    /\ complete candidates scores
    /\ forall c, In c candidates -> unmentioned rs c ->
         dict_get scores c = Some 0%Q.
Proof.
  unfold weighted_borda.
  set (n := Z.of_nat (List.length candidates)).
  destruct (positional_rankings
              (fun r => weighted_borda_step n (confidence r))
              (fun r p => (inject_Z (n - 1 - Z.of_nat p) * confidence r)%Q)
              candidates
              ltac:(reflexivity) rs _ (complete_fromkeys candidates 0%Q))
    as (scores & Hs & Hk & Hun & _).
  exists scores. split; [exact Hs|]. split.
  - exact (complete_keys candidates _ _ Hk (complete_fromkeys candidates 0%Q)).
  - intros c Hc Hu. rewrite (Hun c Hu), fromkeys_get.
    apply contains_In in Hc. rewrite Hc. reflexivity.
Qed.

(** ** Loops over unordered pairs *)

Lemma foldM_map {St A B : Type} (g : A -> B) (body : St -> B -> result St)
  (l : list A) (s : St) :
  foldM body (map g l) s = foldM (fun s x => body s (g x)) l s.
Proof.
  revert s. induction l as [|x l IH]; intros s; simpl; [reflexivity|].
  destruct (body s (g x)); simpl; [apply IH|reflexivity].
Qed.

(** The nested loop is one loop over [all_pairs]. *)
Lemma nested_loop_pairs {St : Type} (body : St -> string -> string -> result St)
  (l : list string) (s : St) :
  foldM (fun s ic1 =>
           let '(i, c1) := ic1 in
           foldM (fun s c2 => body s c1 c2) (slice_from (i + 1) l) s)
        (enumerate l) s
  = foldM (fun s p => body s (fst p) (snd p)) (all_pairs l) s.
Proof.
  unfold enumerate.
  assert (G : forall suf pre s, l = pre ++ suf ->
    foldM (fun s ic1 =>
             let '(i, c1) := ic1 in
             foldM (fun s c2 => body s c1 c2) (slice_from (i + 1) l) s)
          (combine (seq (List.length pre) (List.length suf)) suf) s
    = foldM (fun s p => body s (fst p) (snd p)) (all_pairs suf) s).
  { induction suf as [|x suf IH]; intros pre s0 Hl; [reflexivity|].
    cbn [List.length seq combine foldM all_pairs].
    rewrite foldM_app, foldM_map. cbn [fst snd].
    assert (Hslice : slice_from (List.length pre + 1) l = suf).
    { unfold slice_from. rewrite Hl, Nat.add_1_r.
      change (x :: suf) with ([x] ++ suf). rewrite app_assoc.
      replace (S (List.length pre)) with (List.length (pre ++ [x]))
        by (rewrite length_app; simpl; lia).
      rewrite skipn_app, Nat.sub_diag, skipn_all. reflexivity. }
    rewrite Hslice.
    destruct (foldM (fun s c2 => body s x c2) suf s0) as [s1|e]; [|reflexivity].
    cbn [bind].
    replace (S (List.length pre)) with (List.length (pre ++ [x]))
      by (rewrite length_app; simpl; lia).
    apply IH. rewrite <- app_assoc. exact Hl. }
  apply (G l [] s). reflexivity.
Qed.

Lemma all_pairs_length (l : list string) :
  (2 * List.length (all_pairs l) = List.length l * (List.length l - 1))%nat.
Proof.
  induction l as [|x l IH]; [reflexivity|].
  cbn [all_pairs List.length]. rewrite length_app, length_map. nia.
Qed.

Lemma all_pairs_In (l : list string) (a b : string) :
  In (a, b) (all_pairs l) -> In a l /\ In b l.
Proof.
  induction l as [|x l IH]; simpl; [tauto|].
  rewrite in_app_iff, in_map_iff. intros [(y & Hy & Hin)|H].
  - injection Hy as <- <-. auto.
  - destruct (IH H). auto.
Qed.

(** ** Pairwise tallies *)

Lemma index_pos (l : list string) (x : string) :
  In x l -> index l x = Ok (pos l x).
Proof.
  induction l as [|y l IH]; simpl; [tauto|]. intros H.
  destruct (String.eqb_spec y x) as [->|Hne]; [reflexivity|].
  rewrite IH; [reflexivity|]. destruct H; [congruence|assumption].
Qed.

Lemma count_step_spec (c1 c2 : string) (a b : Z) (r : Ranking) :
  count_step c1 c2 (a, b) r
  = Ok (a + (if prefers c1 c2 r then 1 else 0),
        b + (if prefers c2 c1 r then 1 else 0)).
Proof.
  unfold count_step, prefers.
  destruct (contains (rankings r) c1) eqn:H1; cbn [andb];
    [|rewrite andb_false_r, !Z.add_0_r; reflexivity].
  destruct (contains (rankings r) c2) eqn:H2; cbn [andb];
    [|rewrite !Z.add_0_r; reflexivity].
  rewrite (index_pos _ _ (proj1 (contains_In _ _) H1)).
  rewrite (index_pos _ _ (proj1 (contains_In _ _) H2)). cbn [bind].
  destruct (Nat.ltb_spec (pos (rankings r) c1) (pos (rankings r) c2)) as [Hlt|Hge].
  - destruct (Nat.ltb_spec (pos (rankings r) c2) (pos (rankings r) c1)); [lia|].
    rewrite Z.add_0_r. reflexivity.
  - destruct (Nat.ltb_spec (pos (rankings r) c2) (pos (rankings r) c1));
      rewrite ?Z.add_0_r; reflexivity.
Qed.

Lemma count_pairwise_spec (rs : list Ranking) (c1 c2 : string) :
  _count_pairwise_preferences rs c1 c2 = Ok (tally rs c1 c2, tally rs c2 c1).
Proof.
  unfold _count_pairwise_preferences, tally.
  assert (G : forall a b,
    foldM (count_step c1 c2) rs (a, b)
    = Ok (a + Z.of_nat (List.length (filter (prefers c1 c2) rs)),
          b + Z.of_nat (List.length (filter (prefers c2 c1) rs)))).
  { induction rs as [|r rs IH]; intros a b.
    - simpl. rewrite !Z.add_0_r. reflexivity.
    - cbn [foldM filter]. rewrite count_step_spec. cbn [bind]. rewrite IH.
      destruct (prefers c1 c2 r), (prefers c2 c1 r); cbn [List.length];
        f_equal; f_equal; lia. }
  rewrite G. reflexivity.
Qed.

Lemma prefers_exclusive (c1 c2 : string) (r : Ranking) :
  prefers c1 c2 r = true -> prefers c2 c1 r = false.
Proof.
  unfold prefers. intros H. apply andb_true_iff in H. destruct H as [_ H].
  apply Nat.ltb_lt in H.
  destruct (Nat.ltb_spec (pos (rankings r) c2) (pos (rankings r) c1)); [lia|].
  apply andb_false_r.
Qed.

Lemma tally_bound (rs : list Ranking) (c1 c2 : string) :
  0 <= tally rs c1 c2 /\
  tally rs c1 c2 + tally rs c2 c1 <= Z.of_nat (List.length rs).
Proof.
  unfold tally. split; [lia|].
  induction rs as [|r rs IH]; [simpl; lia|].
  cbn [filter]. pose proof (prefers_exclusive c1 c2 r) as Hex.
  destruct (prefers c1 c2 r).
  - rewrite (Hex eq_refl). cbn [List.length]. lia.
  - destruct (prefers c2 c1 r); cbn [List.length]; lia.
Qed.

Lemma prefers_mentioned (c1 c2 : string) (r : Ranking) :
  prefers c1 c2 r = true -> In c1 (rankings r) /\ In c2 (rankings r).
Proof.
  unfold prefers. rewrite !andb_true_iff, !contains_In. tauto.
Qed.

Lemma tally_unmentioned (rs : list Ranking) (c1 c2 : string) :
  unmentioned rs c1 \/ unmentioned rs c2 -> tally rs c1 c2 = 0.
Proof.
  intros Hun. unfold tally.
  replace (filter (prefers c1 c2) rs) with (@nil Ranking); [reflexivity|].
  symmetry. induction rs as [|r rs IH]; [reflexivity|].
  cbn [filter]. destruct (prefers c1 c2 r) eqn:Hp.
  - apply prefers_mentioned in Hp. exfalso.
    destruct Hun as [H|H]; apply (H r (or_introl eq_refl)); tauto.
  - apply IH. destruct Hun as [H|H]; [left|right];
      intros r' Hr'; apply H; right; assumption.
Qed.

(** ** Copeland *)

Lemma award_spec (rs : list Ranking) (wins : dict Q) (c1 c2 : string) :
  In c1 (keys wins) -> In c2 (keys wins) ->
  exists wins',
    _award_pairwise_points wins c1 c2 (tally rs c1 c2) (tally rs c2 c1) = Ok wins'
    /\ keys wins' = keys wins
    /\ (sum (values wins') == sum (values wins) + 1)%Q
    /\ forall c, (score wins' c == score wins c + gain rs (c1, c2) c)%Q.
Proof.
  intros H1 H2. unfold _award_pairwise_points, gain. cbn [fst snd].
  destruct (tally rs c1 c2 >? tally rs c2 c1).
  - destruct (dict_iadd_score wins c1 1%Q H1) as (w & Hw & Hk & Hs & Hsc).
    exists w. repeat split; try assumption.
    intros c. rewrite Hsc. ring.
  - destruct (tally rs c2 c1 >? tally rs c1 c2).
    + destruct (dict_iadd_score wins c2 1%Q H2) as (w & Hw & Hk & Hs & Hsc).
      exists w. repeat split; try assumption.
      intros c. rewrite Hsc. ring.
    + destruct (dict_iadd_score wins c1 (1 # 2)%Q H1) as (w & Hw & Hk & Hs & Hsc).
      rewrite Hw. cbn [bind]. rewrite <- Hk in H2.
      destruct (dict_iadd_score w c2 (1 # 2)%Q H2) as (w' & Hw' & Hk' & Hs' & Hsc').
      exists w'. split; [assumption|]. split; [congruence|]. split.
      * rewrite Hs', Hs. ring.
      * intros c. rewrite Hsc', Hsc. ring.
Qed.

(** [copeland_score] never raises; it returns one entry per candidate, the
    entries add up to the number of pairs, and each entry is the sum of the
    pair contributions. *)
Lemma copeland_spec (rs : list Ranking) (candidates : list string) :
  exists wins, copeland_score rs candidates = Ok wins
    /\ complete candidates wins
    /\ (sum (values wins)
        == inject_Z (Z.of_nat (List.length (all_pairs candidates))))%Q
    /\ forall c, (score wins c
                  == total (fun p => gain rs p c) (all_pairs candidates))%Q.
Proof.
  unfold copeland_score.
  rewrite (nested_loop_pairs
             (fun wins c1 c2 =>
                p <- _count_pairwise_preferences rs c1 c2 ;;
                let '(c1_preferred, c2_preferred) := p in
                _award_pairwise_points wins c1 c2 c1_preferred c2_preferred)).
  set (init := fromkeys candidates 0%Q).
  destruct (@foldM_prefix _ _
    (fun pre wins =>
       keys wins = keys init
       /\ (sum (values wins) == inject_Z (Z.of_nat (List.length pre)))%Q
       /\ forall c, (score wins c == total (fun p => gain rs p c) pre)%Q)
    (fun s p =>
       p0 <- _count_pairwise_preferences rs (fst p) (snd p) ;;
       let '(c1_preferred, c2_preferred) := p0 in
       _award_pairwise_points s (fst p) (snd p) c1_preferred c2_preferred)
    (all_pairs candidates) init) as (wins & Hw & Hk & Hs & Hsc).
  - split; [reflexivity|]. split; [apply sum_fromkeys_zero|].
    intros c. unfold init. rewrite score_fromkeys_zero. reflexivity.
  - intros pre [c1 c2] post wins Hl (Hk & Hs & Hsc). cbn [fst snd].
    rewrite count_pairwise_spec. cbn [bind].
    assert (Hin : In (c1, c2) (all_pairs candidates))
      by (rewrite Hl; apply in_or_app; right; left; reflexivity).
    apply all_pairs_In in Hin. destruct Hin as [Hc1 Hc2].
    assert (Hk1 : In c1 (keys wins))
      by (rewrite Hk; apply fromkeys_keys_In; assumption).
    assert (Hk2 : In c2 (keys wins))
      by (rewrite Hk; apply fromkeys_keys_In; assumption).
    destruct (award_spec rs wins c1 c2 Hk1 Hk2) as (w' & Hw' & Hk' & Hs' & Hsc').
    exists w'. split; [assumption|]. split; [congruence|]. split.
    + rewrite Hs', Hs, length_app. cbn [List.length].
      rewrite Nat2Z.inj_add, inject_Z_plus. reflexivity.
    + intros c. rewrite Hsc', Hsc, total_snoc. reflexivity.
  - exists wins. split; [assumption|]. split.
    + exact (complete_keys candidates _ _ Hk (complete_fromkeys candidates 0%Q)).
    + split; assumption.
Qed.

Lemma gain_le_involved (rs : list Ranking) (p : string * string) (c : string) :
  (gain rs p c <= involved c p)%Q.
Proof.
  unfold gain, involved, ind.
  destruct (tally rs (fst p) (snd p) >? tally rs (snd p) (fst p));
    [|destruct (tally rs (snd p) (fst p) >? tally rs (fst p) (snd p))];
    destruct (String.eqb c (fst p)), (String.eqb c (snd p)); cbn [orb]; lra.
Qed.

Lemma involved_absent (c : string) (l : list string) :
  ~ In c l -> (total (involved c) (all_pairs l) == 0)%Q.
Proof.
  intros Hout. apply total_zero. intros [a b] Hin.
  apply all_pairs_In in Hin. destruct Hin as [Ha Hb].
  unfold involved, ind. cbn [fst snd].
  destruct (String.eqb_spec c a) as [->|_]; [contradiction|].
  destruct (String.eqb_spec c b) as [->|_]; [contradiction|]. reflexivity.
Qed.

Lemma involved_once (c x : string) (l : list string) :
  c <> x -> NoDup l -> In c l ->
  (total (fun y => involved c (x, y)) l == 1)%Q.
Proof.
  intros Hne. induction l as [|y l IHl]; intros Hnd Hin; [destruct Hin|].
  rewrite total_cons. inversion Hnd as [|? ? Hy Hnd']; subst.
  unfold involved at 1, ind. cbn [fst snd].
  destruct (String.eqb_spec c x) as [->|_]; [congruence|]. cbn [orb].
  destruct (String.eqb_spec c y) as [->|Hcy].
  - rewrite total_zero; [ring|].
    intros z Hz. unfold involved, ind. cbn [fst snd].
    destruct (String.eqb_spec y x); [congruence|].
    destruct (String.eqb_spec y z) as [->|_]; [contradiction|]. reflexivity.
  - destruct Hin as [Hin|Hin]; [congruence|].
    rewrite (IHl Hnd' Hin). ring.
Qed.

Lemma involved_NoDup (c : string) (l : list string) :
  NoDup l -> In c l ->
  (total (involved c) (all_pairs l) == inject_Z (Z.of_nat (List.length l) - 1))%Q.
Proof.
  induction l as [|x l IH]; intros Hnd Hin; [destruct Hin|].
  inversion Hnd as [|? ? Hx Hnd']; subst.
  cbn [all_pairs]. rewrite total_app, total_map.
  cbn [List.length]. rewrite Nat2Z.inj_succ.
  replace (Z.succ (Z.of_nat (List.length l)) - 1) with (Z.of_nat (List.length l)) by lia.
  destruct (string_dec c x) as [->|Hne].
  - rewrite (@involved_absent x l Hx).
    rewrite (@total_one _ (fun y => involved x (x, y)) l).
    + ring.
    + intros y _. unfold involved, ind. cbn [fst snd].
      rewrite String.eqb_refl. reflexivity.
  - destruct Hin as [Hin|Hin]; [congruence|].
    rewrite (IH Hnd' Hin).
    pose proof (@involved_once c x l Hne Hnd' Hin) as Hone.
    rewrite Hone. unfold Z.sub. rewrite inject_Z_plus.
    change (inject_Z (- (1))) with (- (1))%Q. ring.
Qed.

Lemma all_pairs_NoDup (l : list string) (a b : string) :
  NoDup l -> In (a, b) (all_pairs l) -> a <> b.
Proof.
  induction l as [|x l IH]; intros Hnd Hin; [destruct Hin|].
  inversion Hnd as [|? ? Hx Hnd']; subst.
  cbn [all_pairs] in Hin. apply in_app_or in Hin. destruct Hin as [Hin|Hin].
  - apply in_map_iff in Hin. destruct Hin as (y & Hy & Hyl).
    injection Hy as <- <-. intros ->. contradiction.
  - apply IH; assumption.
Qed.

Lemma majority_tally (rs : list Ranking) (c d : string) :
  majority rs c d -> tally rs d c < tally rs c d.
Proof.
  unfold majority. intros H. pose proof (tally_bound rs c d) as [_ Hb].
  unfold tally in *. lia.
Qed.

(** C10.  The values of [copeland_score] add up to [n*(n-1)/2], one point
    per unordered pair of positions of the candidate list; this holds for
    every candidate list, duplicate-free or not. *)
Theorem copeland_total (rs : list Ranking) (candidates : list string) :
  let n := Z.of_nat (List.length candidates) in
  exists wins, copeland_score rs candidates = Ok wins
    /\ (sum (values wins) == inject_Z (n * (n - 1)) / 2)%Q.
Proof.
  intros n. destruct (copeland_spec rs candidates) as (wins & Hw & _ & Hs & _).
  exists wins. split; [assumption|]. rewrite Hs.
  pose proof (all_pairs_length candidates) as Hlen.
  assert (Hz : n * (n - 1) = 2 * Z.of_nat (List.length (all_pairs candidates))).
  { unfold n. nia. }
  rewrite Hz, inject_Z_mult. field.
Qed.

(** C4.  Over a duplicate-free candidate list of size [n]:
    no Copeland score exceeds [n - 1]; a candidate that a strict majority of
    the rankings puts strictly before each other candidate scores exactly
    [n - 1]; and a tied comparison (equal tallies, 0-0 included) adds 0.5 to
    both candidates of the pair. *)
Theorem copeland_bound (rs : list Ranking) (candidates : list string) :
  NoDup candidates ->
  let n := Z.of_nat (List.length candidates) in
  (exists wins, copeland_score rs candidates = Ok wins
     /\ (forall c v, dict_get wins c = Some v -> (v <= inject_Z (n - 1))%Q)
     /\ (forall c, In c candidates ->
           (forall d, In d candidates -> d <> c -> majority rs c d) ->
           exists v, dict_get wins c = Some v /\ (v == inject_Z (n - 1))%Q))
  /\ (forall (wins : dict Q) c1 c2 t,
        In c1 (keys wins) -> In c2 (keys wins) -> c1 <> c2 ->
        exists wins', _award_pairwise_points wins c1 c2 t t = Ok wins'
          /\ (score wins' c1 == score wins c1 + (1 # 2))%Q
          /\ (score wins' c2 == score wins c2 + (1 # 2))%Q).
Proof.
  intros Hnd n. split.
  - destruct (copeland_spec rs candidates) as (wins & Hw & (Hkn & Hkeys) & _ & Hsc).
    exists wins. split; [assumption|]. split.
    + intros c v Hg.
      assert (Hc : In c candidates).
      { apply Hkeys, dict_get_In. congruence. }
      assert (Hv : score wins c = v).
      { unfold score, dict_get_default. rewrite Hg. reflexivity. }
      rewrite <- Hv, Hsc. unfold n.
      rewrite <- (@involved_NoDup c candidates Hnd Hc).
      apply total_le. intros p _. apply gain_le_involved.
    + intros c Hc Hmaj.
      assert (Hin : In c (keys wins)) by (apply Hkeys; assumption).
      apply dict_get_In in Hin.
      destruct (dict_get wins c) as [v|] eqn:Hg; [|congruence].
      exists v. split; [reflexivity|].
      assert (Hv : score wins c = v).
      { unfold score, dict_get_default. rewrite Hg. reflexivity. }
      rewrite <- Hv, Hsc. unfold n.
      rewrite <- (@involved_NoDup c candidates Hnd Hc).
      apply total_ext. intros [a b] Hp.
      pose proof (@all_pairs_NoDup candidates a b Hnd Hp) as Hab.
      apply all_pairs_In in Hp. destruct Hp as [Ha Hb].
      unfold gain, involved, ind. cbn [fst snd].
      destruct (String.eqb_spec c a) as [->|Hca].
      * destruct (String.eqb_spec a b) as [->|_]; [congruence|].
        pose proof (@majority_tally rs a b (Hmaj b Hb (not_eq_sym Hab))) as Ht.
        destruct (Z.gtb_spec (tally rs a b) (tally rs b a)); [reflexivity|lia].
      * destruct (String.eqb_spec c b) as [->|Hcb].
        -- pose proof (@majority_tally rs b a (Hmaj a Ha Hab)) as Ht.
           destruct (Z.gtb_spec (tally rs a b) (tally rs b a)); [lia|].
           destruct (Z.gtb_spec (tally rs b a) (tally rs a b)); [reflexivity|lia].
        -- cbn [orb].
           destruct (tally rs a b >? tally rs b a); [reflexivity|].
           destruct (tally rs b a >? tally rs a b); [reflexivity|]. ring.
  - intros wins c1 c2 t H1 H2 Hne. unfold _award_pairwise_points.
    rewrite Z.gtb_ltb, Z.ltb_irrefl.
    destruct (dict_iadd_score wins c1 (1 # 2)%Q H1) as (w & Hw & Hk & _ & Hsc).
    rewrite Hw. cbn [bind]. rewrite <- Hk in H2.
    destruct (dict_iadd_score w c2 (1 # 2)%Q H2) as (w' & Hw' & _ & _ & Hsc').
    exists w'. split; [assumption|]. rewrite !Hsc', !Hsc. unfold ind.
    rewrite !String.eqb_refl.
    destruct (String.eqb_spec c1 c2); [congruence|].
    destruct (String.eqb_spec c2 c1); [congruence|]. split; ring.
Qed.

(** ** Borda totals *)

Lemma enumerate_fst {A : Type} (l : list A) :
  map fst (enumerate l) = seq 0 (List.length l).
Proof.
  unfold enumerate. generalize 0%nat. induction l as [|x l IH]; intros n; simpl.
  - reflexivity.
  - f_equal. apply IH.
Qed.

Lemma enumerate_In {A : Type} (l : list A) (p : nat) (x : A) :
  In (p, x) (enumerate l) -> In x l.
Proof.
  intros H. rewrite <- (enumerate_snd l). change x with (snd (p, x)).
  apply in_map, H.
Qed.

(** [2 * sum(k - p for p in range(a, a + m))] in closed form. *)
Lemma positional_points (k : Z) (m a : nat) :
  (2 * total (fun p => inject_Z (k - Z.of_nat p)) (seq a m)
   == inject_Z (Z.of_nat m * (2 * k - 2 * Z.of_nat a - Z.of_nat m + 1)))%Q.
Proof.
  revert a. induction m as [|m IH]; intros a.
  - simpl. rewrite total_nil. reflexivity.
  - cbn [seq]. rewrite total_cons, Qmult_plus_distr_r, (IH (S a)).
    change 2%Q with (inject_Z 2). rewrite <- inject_Z_mult, <- inject_Z_plus.
    assert (E : 2 * (k - Z.of_nat a)
                + Z.of_nat m * (2 * k - 2 * Z.of_nat (S a) - Z.of_nat m + 1)
                = Z.of_nat (S m) * (2 * k - 2 * Z.of_nat a - Z.of_nat (S m) + 1))
      by lia.
    rewrite E. reflexivity.
Qed.

(** One full ranking hands out [n*(n-1)/2] Borda points. *)
Lemma full_ranking_points (candidates order : list string) :
  NoDup candidates -> NoDup order ->
  (forall c, In c order <-> In c candidates) ->
  let n := Z.of_nat (List.length candidates) in
  (total (fun pc => inject_Z (n - 1 - Z.of_nat (fst pc))
                    * ind (contains candidates (snd pc))) (enumerate order)
   == inject_Z (n * (n - 1)) / 2)%Q.
Proof.
  intros Hc Ho Hsame n.
  assert (Hlen : List.length order = List.length candidates).
  { apply Permutation_length, NoDup_Permutation; assumption. }
  rewrite (@total_ext _ _ (fun pc => inject_Z (n - 1 - Z.of_nat (fst pc)))).
  - change (fun pc : nat * string => inject_Z (n - 1 - Z.of_nat (fst pc)))
      with (fun pc : nat * string =>
              (fun p => inject_Z (n - 1 - Z.of_nat p)) (fst pc)).
    rewrite <- (total_map (@fst nat string)), enumerate_fst, Hlen.
    pose proof (positional_points (n - 1) (List.length candidates) 0) as Hp.
    replace (Z.of_nat (List.length candidates)
             * (2 * (n - 1) - 2 * Z.of_nat 0 - Z.of_nat (List.length candidates) + 1))
      with (n * (n - 1)) in Hp by (unfold n; lia).
    rewrite <- Hp. field.
  - intros [p x] Hin. cbn [fst snd]. apply enumerate_In in Hin.
    apply Hsame, contains_In in Hin. rewrite Hin. unfold ind. ring.
Qed.

(** C3.  When the candidates are distinct and every ranking lists exactly
    those candidates, each once, the Borda scores add up to
    [len(rankings) * n*(n-1)/2]. *)
Theorem borda_total (rs : list Ranking) (candidates : list string) :
  NoDup candidates ->
  (forall r, In r rs ->
     NoDup (rankings r) /\ forall c, In c (rankings r) <-> In c candidates) ->
  let n := Z.of_nat (List.length candidates) in
  exists scores, borda_count rs candidates = Ok scores
    /\ (sum (values scores)
        == inject_Z (Z.of_nat (List.length rs)) * (inject_Z (n * (n - 1)) / 2))%Q.
Proof.
  intros Hc Hfull n. unfold borda_count. fold n.
  destruct (positional_rankings (fun _ => borda_step n)
              (fun _ p => inject_Z (n - 1 - Z.of_nat p)) candidates
              ltac:(reflexivity) rs _ (complete_fromkeys candidates 0%Q))
    as (scores & Hs & _ & _ & Hsum & _).
  exists scores. split; [exact Hs|].
  rewrite Hsum, sum_fromkeys_zero, Qplus_0_l.
  rewrite (@total_ext _ _ (fun _ => (inject_Z (n * (n - 1)) / 2)%Q)).
  - clear. induction rs as [|r rs IH].
    + rewrite total_nil. simpl. ring.
    + rewrite total_cons, IH. cbn [List.length].
      rewrite Nat2Z.inj_succ, <- Z.add_1_l, inject_Z_plus. ring.
  - intros r Hr. destruct (Hfull r Hr) as [Hnd Hsame].
    apply full_ranking_points; assumption.
Qed.

(** ** Weighted Borda against Borda *)

Lemma total_scale {A : Type} (k : Q) (f : A -> Q) (l : list A) :
  (total (fun x => k * f x) l == k * total f l)%Q.
Proof.
  induction l as [|x l IH]; [rewrite !total_nil; ring|].
  rewrite !total_cons, IH. ring.
Qed.




Lemma borda_count_scores (rs : list Ranking) (candidates : list string) :
  exists scores, borda_count rs candidates = Ok scores
    /\ keys scores = keys (fromkeys candidates 0%Q)
    /\ forall c, (score scores c == total (fun r => borda_points candidates r c) rs)%Q.
Proof.
  unfold borda_count.
  set (n := Z.of_nat (List.length candidates)).
  destruct (positional_rankings (fun _ => borda_step n)
              (fun _ p => inject_Z (n - 1 - Z.of_nat p)) candidates
              ltac:(reflexivity) rs _ (complete_fromkeys candidates 0%Q))
    as (scores & Hs & Hk & _ & _ & Hsc).
  exists scores. split; [exact Hs|]. split; [exact Hk|].
  intros c. rewrite Hsc, score_fromkeys_zero, Qplus_0_l. reflexivity.
Qed.



(** ** Ranked pairs: the locked graph stays acyclic *)

Lemma successors_In (locked : list edge) (u v : string) :
  In v (successors locked u) <-> In (u, v) locked.
Proof.
  unfold successors. rewrite in_map_iff. split.
  - intros ([w l] & Hl & Hin). simpl in Hl. subst l.
    apply filter_In in Hin. destruct Hin as [Hin Heq]. simpl in Heq.
    apply String.eqb_eq in Heq. subst w. exact Hin.
  - intros Hin. exists (u, v). split; [reflexivity|].
    apply filter_In. split; [exact Hin|]. simpl. apply String.eqb_refl.
Qed.

(** When the search answers [False], the nodes it has seen form a set that
    is closed under the locked edges and misses [winner]. *)
Lemma bfs_false_closed (locked : list edge) (winner : string)
  (visited queue : list string) :
  bfs locked winner visited queue = false ->
  ~ In winner visited ->
  (forall u v, In u visited -> In (u, v) locked -> In v visited \/ In v queue) ->
  exists V, (forall u, In u visited \/ In u queue -> In u V)
            /\ ~ In winner V /\ closed_under locked V.
Proof.
  funelim (bfs locked winner visited queue).
  - intros _ Hw Hinv. exists visited. split; [|split].
    + intros u [Hm|[]]. exact Hm.
    + exact Hw.
    + intros u v Hu Huv. destruct (Hinv u v Hu Huv) as [Hm|[]]. exact Hm.
  - discriminate.
  - intros Hb Hw Hinv.
    match goal with
    | IH : _ -> _ -> _ -> exists V, _ |- _ =>
        destruct (IH Hb Hw) as (V & Hsub & HwV & Hcl)
    end.
    + intros u v Hu Huv. destruct (Hinv u v Hu Huv) as [Hm|[<-|Hm]]; auto.
      left. apply contains_In. assumption.
    + exists V. split; [|split; assumption].
      intros u [Hm|[<-|Hm]]; apply Hsub; auto.
      left. apply contains_In. assumption.
  - intros Hb Hw Hinv.
    assert (Hcw : current <> winner) by (apply String.eqb_neq; assumption).
    match goal with
    | IH : _ -> _ -> _ -> exists V, _ |- _ =>
        destruct (IH Hb) as (V & Hsub & HwV & Hcl)
    end.
    + intros [Hm|Hm]; [congruence|contradiction].
    + intros u v [<-|Hu] Huv.
      * right. apply in_or_app. right. apply successors_In. exact Huv.
      * destruct (Hinv u v Hu Huv) as [Hm|[<-|Hm]].
        -- left. right. exact Hm.
        -- left. left. reflexivity.
        -- right. apply in_or_app. left. exact Hm.
    + exists V. split; [|split; assumption].
      intros u [Hm|[<-|Hm]]; apply Hsub.
      * left. right. exact Hm.
      * left. left. reflexivity.
      * right. apply in_or_app. left. exact Hm.
Qed.

Lemma closed_reaches (E : list edge) (V : list string) (x y : string) :
  closed_under E V -> reaches E x y -> In x V -> In y V.
Proof.
  intros Hcl Hr. induction Hr as [x|x y z Hxy _ IH]; intros Hx; [exact Hx|].
  apply IH. exact (Hcl x y Hx Hxy).
Qed.

(** [_creates_cycle] misses no path from [loser] to [winner]. *)
Lemma creates_cycle_false (locked : list edge) (winner loser : string) :
  _creates_cycle locked winner loser = false -> ~ reaches locked loser winner.
Proof.
  unfold _creates_cycle. intros Hb Hr.
  destruct (bfs_false_closed locked winner [] [loser] Hb) as (V & Hsub & HwV & Hcl).
  - intros [].
  - intros u v [].
  - apply HwV. apply (closed_reaches _ _ _ _ Hcl Hr). apply Hsub. right. left. reflexivity.
Qed.

(** When the search answers [True], some queued node reaches [winner]. *)
Lemma bfs_true_reaches (locked : list edge) (winner : string)
  (visited queue : list string) :
  bfs locked winner visited queue = true ->
  exists u, In u queue /\ reaches locked u winner.
Proof.
  funelim (bfs locked winner visited queue).
  - discriminate.
  - intros _. exists current. split; [left; reflexivity|].
    assert (E : current = winner) by (apply String.eqb_eq; assumption).
    rewrite E. constructor.
  - intros Hb.
    match goal with
    | IH : _ -> exists u, _ |- _ => destruct (IH Hb) as (u & Hu & Hr)
    end.
    exists u. split; [right; exact Hu|exact Hr].
  - intros Hb.
    match goal with
    | IH : _ -> exists u, _ |- _ => destruct (IH Hb) as (u & Hu & Hr)
    end.
    apply in_app_or in Hu. destruct Hu as [Hu|Hu].
    + exists u. split; [right; exact Hu|exact Hr].
    + exists current. split; [left; reflexivity|].
      apply successors_In in Hu. eapply reaches_step; eassumption.
Qed.

(** [_creates_cycle] answers whether [loser] reaches [winner] through the
    locked edges, whatever the order in which the set is iterated. *)
Lemma creates_cycle_reaches (locked : list edge) (winner loser : string) :
  _creates_cycle locked winner loser = true <-> reaches locked loser winner.
Proof.
  split.
  - intros Hb. unfold _creates_cycle in Hb.
    destruct (bfs_true_reaches locked winner [] [loser] Hb) as (u & [<-|[]] & Hr).
    exact Hr.
  - intros Hr. destruct (_creates_cycle locked winner loser) eqn:E; [reflexivity|].
    exfalso. exact (creates_cycle_false locked winner loser E Hr).
Qed.

Lemma reaches_trans (E : list edge) (x y z : string) :
  reaches E x y -> reaches E y z -> reaches E x z.
Proof.
  intros Hxy Hyz. induction Hxy as [x|x y' y Hedge _ IH]; [exact Hyz|].
  eapply reaches_step; [exact Hedge|]. apply IH, Hyz.
Qed.

(** A path through the graph extended by [winner -> loser] either avoids
    the new edge or passes through it. *)
Lemma reaches_extended (E : list edge) (winner loser x y : string) :
  reaches (E ++ [(winner, loser)]) x y ->
  reaches E x y \/ (reaches E x winner /\ reaches E loser y).
Proof.
  intros Hr. induction Hr as [x|x y z Hedge _ IH].
  - left. constructor.
  - apply in_app_or in Hedge. destruct Hedge as [Hedge|[Hedge|[]]].
    + destruct IH as [IH|[IH1 IH2]].
      * left. eapply reaches_step; eassumption.
      * right. split; [eapply reaches_step; eassumption|exact IH2].
    + injection Hedge as <- <-. right. split; [constructor|].
      destruct IH as [IH|[_ IH2]]; assumption.
Qed.

Lemma acyclic_extended (E : list edge) (winner loser : string) :
  acyclic E -> ~ reaches E loser winner -> acyclic (E ++ [(winner, loser)]).
Proof.
  intros Hac Hno x (z & Hedge & Hr).
  apply reaches_extended in Hr.
  apply in_app_or in Hedge. destruct Hedge as [Hedge|[Hedge|[]]].
  - destruct Hr as [Hr|[Hr1 Hr2]].
    + apply (Hac x). exists z. split; assumption.
    + apply Hno. eapply reaches_trans; [exact Hr2|].
      eapply reaches_step; eassumption.
  - injection Hedge as <- <-. apply Hno. destruct Hr as [Hr|[Hr _]]; exact Hr.
Qed.

Lemma set_add_cases (s : list edge) (x : edge) :
  set_add s x = s \/ set_add s x = s ++ [x].
Proof. unfold set_add. destruct (existsb (edge_eqb x) s); auto. Qed.

Lemma lock_pairs_acyclic (pairs : list (string * string * Z)) :
  acyclic (_lock_pairs_without_cycles pairs).
Proof.
  unfold _lock_pairs_without_cycles.
  assert (G : forall locked, acyclic locked ->
    acyclic (fold_left
      (fun locked p =>
         let '(winner, loser, margin) := p in
         if negb (_creates_cycle locked winner loser)
         then set_add locked (winner, loser) else locked) pairs locked)).
  { induction pairs as [|[[winner loser] margin] pairs IH]; intros locked Hac.
    - exact Hac.
    - cbn [fold_left]. apply IH.
      destruct (_creates_cycle locked winner loser) eqn:Hcc; cbn [negb].
      + exact Hac.
      + destruct (set_add_cases locked (winner, loser)) as [-> | ->].
        * exact Hac.
        * apply acyclic_extended; [exact Hac|]. apply creates_cycle_false, Hcc. }
  apply G. intros x (z & [] & _).
Qed.

(** ** Ranked pairs: totality and the score map *)

Lemma matrix_get_setitem {V : Type} (m : dict (dict V)) (row : dict V)
  (c1 c2 : string) (v : V) (a b : string) :
  dict_get m c1 = Some row ->
  matrix_get (dict_setitem m c1 (dict_setitem row c2 v)) a b
  = if String.eqb a c1 && String.eqb b c2 then Some v else matrix_get m a b.
Proof.
  intros Hrow. unfold matrix_get.
  destruct (String.eqb_spec a c1) as [->|Ha]; cbn [andb].
  - rewrite dict_get_setitem_eq, Hrow.
    destruct (String.eqb_spec b c2) as [->|Hb].
    + apply dict_get_setitem_eq.
    + apply dict_get_setitem_neq. congruence.
  - rewrite dict_get_setitem_neq by congruence. reflexivity.
Qed.

Lemma pref_step_ok (rs : list Ranking) (candidates : list string)
  (pref : dict (dict Z)) (c1 c2 : string) :
  mentioned rs c1 -> mentioned rs c2 ->
  pref_ok rs candidates pref ->
  exists pref', pref_step c1 pref c2 = Ok pref' /\ pref_ok rs candidates pref'.
Proof.
  intros M1 M2 [Hdef Hnz]. unfold pref_step, dict_contains, dict_getitem.
  destruct (dict_get pref c1) as [row|] eqn:Hrow; [|exists pref; split; [reflexivity|split; assumption]].
  cbn [bind].
  destruct (dict_get row c2) as [v|] eqn:Hv; [|exists pref; split; [reflexivity|split; assumption]].
  cbn [bind]. eexists. split; [reflexivity|]. split.
  - intros a b Ha Hb. rewrite (matrix_get_setitem _ _ _ _ _ a b Hrow).
    destruct (String.eqb a c1 && String.eqb b c2); [discriminate|auto].
  - intros a b w. rewrite (matrix_get_setitem _ _ _ _ _ a b Hrow).
    destruct (String.eqb a c1 && String.eqb b c2) eqn:E.
    + apply andb_true_iff in E. destruct E as [E1 E2].
      apply String.eqb_eq in E1, E2. subst. auto.
    + apply Hnz.
Qed.

Lemma skipn_In {A : Type} (n : nat) (l : list A) (x : A) :
  In x (skipn n l) -> In x l.
Proof.
  revert l. induction n as [|n IH]; intros [|y l]; simpl; auto.
Qed.

Lemma pref_init_ok (rs : list Ranking) (candidates : list string) :
  pref_ok rs candidates (build (fun _ => fromkeys candidates 0) candidates []).
Proof.
  assert (Hget : forall a b,
    matrix_get (build (fun _ : string => fromkeys candidates 0) candidates []) a b
    = if contains candidates a
      then (if contains candidates b then Some 0 else None) else None).
  { intros a b. unfold matrix_get. rewrite build_get.
    destruct (contains candidates a); [|reflexivity]. apply fromkeys_get. }
  split.
  - intros a b Ha Hb. rewrite Hget.
    apply contains_In in Ha, Hb. rewrite Ha, Hb. discriminate.
  - intros a b v. rewrite Hget.
    destruct (contains candidates a); [|discriminate].
    destruct (contains candidates b); [|discriminate].
    intros H. injection H as <-. congruence.
Qed.

Lemma build_preference_matrix_ok (rs : list Ranking) (candidates : list string) :
  exists pref, _build_preference_matrix rs candidates = Ok pref
               /\ pref_ok rs candidates pref.
Proof.
  unfold _build_preference_matrix.
  apply (@foldM_inv _ _ (pref_ok rs candidates)); [apply pref_init_ok|].
  intros r pref Hr Hok.
  apply (@foldM_inv _ _ (pref_ok rs candidates)); [exact Hok|].
  intros [i c1] pref1 Hic1 Hok1.
  apply (@foldM_inv _ _ (pref_ok rs candidates)); [exact Hok1|].
  intros c2 pref2 Hc2 Hok2.
  apply pref_step_ok; [| |exact Hok2].
  - exists r. split; [exact Hr|]. eapply enumerate_In, Hic1.
  - exists r. split; [exact Hr|]. eapply skipn_In, Hc2.
Qed.

Lemma margin_step_ok (rs : list Ranking) (candidates : list string)
  (pref : dict (dict Z)) (c1 c2 : string) (pairs : list (string * string * Z)) :
  pref_ok rs candidates pref -> In c1 candidates -> In c2 candidates ->
  pairs_ok rs candidates pairs ->
  exists pairs', margin_step pref c1 pairs c2 = Ok pairs'
                 /\ pairs_ok rs candidates pairs'.
Proof.
  intros [Hdef Hnz] H1 H2 Hok. unfold margin_step, dict_getitem.
  pose proof (Hdef c1 c2 H1 H2) as D12. pose proof (Hdef c2 c1 H2 H1) as D21.
  pose proof (Hnz c1 c2) as N12. pose proof (Hnz c2 c1) as N21.
  unfold matrix_get in D12, D21, N12, N21.
  destruct (dict_get pref c1) as [row1|]; [|congruence]. cbn [bind].
  destruct (dict_get row1 c2) as [a|]; [|congruence]. cbn [bind].
  destruct (dict_get pref c2) as [row2|]; [|congruence]. cbn [bind].
  destruct (dict_get row2 c1) as [b|]; [|congruence]. cbn [bind].
  assert (Hm : a - b <> 0 -> mentioned rs c1 /\ mentioned rs c2).
  { intros Hne. destruct (Z.eq_dec a 0) as [->|Ha].
    - destruct (N21 b eq_refl); [lia|auto].
    - apply (N12 a eq_refl Ha). }
  destruct (Z.gtb_spec (a - b) 0) as [Hgt|Hle].
  - eexists. split; [reflexivity|]. intros w l m Hin.
    apply in_app_or in Hin. destruct Hin as [Hin|[Hin|[]]]; [exact (Hok w l m Hin)|].
    injection Hin as <- <- <-. destruct Hm; [lia|auto].
  - destruct (Z.ltb_spec (a - b) 0) as [Hlt|Hge].
    + eexists. split; [reflexivity|]. intros w l m Hin.
      apply in_app_or in Hin. destruct Hin as [Hin|[Hin|[]]]; [exact (Hok w l m Hin)|].
      injection Hin as <- <- <-. destruct Hm; [lia|auto].
    + exists pairs. split; [reflexivity|exact Hok].
Qed.

Lemma calculate_margin_pairs_ok (rs : list Ranking) (candidates : list string)
  (pref : dict (dict Z)) :
  pref_ok rs candidates pref ->
  exists pairs, _calculate_margin_pairs candidates pref = Ok pairs
                /\ pairs_ok rs candidates pairs.
Proof.
  intros Hpref. unfold _calculate_margin_pairs.
  apply (@foldM_inv _ _ (pairs_ok rs candidates)); [intros w l m []|].
  intros [i c1] pairs Hic1 Hok.
  apply (@foldM_inv _ _ (pairs_ok rs candidates)); [exact Hok|].
  intros c2 pairs2 Hc2 Hok2.
  apply margin_step_ok; [exact Hpref| | |exact Hok2].
  - eapply enumerate_In, Hic1.
  - eapply skipn_In, Hc2.
Qed.

Lemma insert_desc_In {A : Type} (gtb : A -> A -> bool) (x y : A) (l : list A) :
  In y (insert_desc gtb x l) <-> y = x \/ In y l.
Proof.
  induction l as [|z l IH]; simpl.
  - intuition congruence.
  - destruct (gtb z x); simpl; [rewrite IH|]; intuition congruence.
Qed.

Lemma sort_desc_In {A : Type} (gtb : A -> A -> bool) (y : A) (l : list A) :
  In y (sort_desc gtb l) <-> In y l.
Proof.
  induction l as [|x l IH]; simpl; [tauto|].
  rewrite insert_desc_In, IH. intuition congruence.
Qed.

Lemma lock_pairs_In (pairs : list (string * string * Z)) (e : edge) :
  In e (_lock_pairs_without_cycles pairs) ->
  exists m, In (fst e, snd e, m) pairs.
Proof.
  unfold _lock_pairs_without_cycles.
  assert (G : forall locked,
    In e (fold_left
      (fun locked p =>
         let '(winner, loser, margin) := p in
         if negb (_creates_cycle locked winner loser)
         then set_add locked (winner, loser) else locked) pairs locked) ->
    In e locked \/ exists m, In (fst e, snd e, m) pairs).
  { induction pairs as [|[[winner loser] margin] pairs IH]; intros locked Hin.
    - left. exact Hin.
    - cbn [fold_left] in Hin. apply IH in Hin.
      destruct Hin as [Hin|(m & Hm)]; [|right; exists m; right; exact Hm].
      destruct (negb (_creates_cycle locked winner loser)); [|left; exact Hin].
      destruct (set_add_cases locked (winner, loser)) as [E|E]; rewrite E in Hin.
      + left. exact Hin.
      + apply in_app_or in Hin. destruct Hin as [Hin|[Hin|[]]]; [left; exact Hin|].
        right. exists margin. left. subst e. reflexivity. }
  intros Hin. destruct (G [] Hin) as [[]|H]. exact H.
Qed.

(** [ranked_pairs] never raises: its locked graph is acyclic and joins
    mentioned candidates only, and its score map has one entry per
    candidate, 0 for a candidate that no ranking mentions. *)
Lemma ranked_pairs_spec (rs : list Ranking) (candidates : list string) :
  exists locked scores,
    ranked_pairs_locked rs candidates = Ok locked
    /\ acyclic locked
    /\ ranked_pairs rs candidates = Ok scores
    /\ complete candidates scores
    /\ forall c, In c candidates -> unmentioned rs c ->
         dict_get scores c = Some 0%Q.
Proof.
  unfold ranked_pairs, ranked_pairs_locked.
  destruct (build_preference_matrix_ok rs candidates) as (pref & -> & Hpref).
  cbn [bind].
  destruct (calculate_margin_pairs_ok rs candidates pref Hpref) as (pairs & -> & Hpairs).
  cbn [bind].
  set (locked := _lock_pairs_without_cycles _).
  assert (Hlocked : forall e, In e locked ->
            In (fst e) candidates /\ mentioned rs (fst e)).
  { intros e He. apply lock_pairs_In in He. destruct He as (m & Hm).
    apply sort_desc_In in Hm. destruct (Hpairs _ _ _ Hm) as (H1 & _ & H3 & _). auto. }
  assert (Hac : acyclic locked) by apply lock_pairs_acyclic.
  clearbody locked.
  destruct (@foldM_prefix _ _
    (fun (pre : list edge) (scores : dict Q) =>
       keys scores = keys (fromkeys candidates 0%Q)
       /\ forall c, ~ In c (map fst pre) ->
            dict_get scores c = dict_get (fromkeys candidates 0%Q) c)
    (fun scores e => dict_iadd scores (fst e) 1%Q) locked (fromkeys candidates 0%Q))
    as (scores & Hs & Hk & Hun).
  - split; reflexivity.
  - intros pre e post s0 Hl [Hk Hun].
    assert (He : In e locked) by (rewrite Hl; apply in_or_app; right; left; reflexivity).
    destruct (Hlocked e He) as [Hc _].
    assert (Hin : In (fst e) (keys s0)) by (rewrite Hk; apply fromkeys_keys_In, Hc).
    apply dict_get_In in Hin.
    destruct (dict_get s0 (fst e)) as [v|] eqn:Hg; [|congruence].
    destruct (@dict_iadd_spec s0 (fst e) 1%Q v Hg) as (s1 & Hs1 & Hk1 & _ & Hother & _).
    exists s1. split; [exact Hs1|]. split; [congruence|].
    intros c Hc'. rewrite map_app, in_app_iff in Hc'. simpl in Hc'.
    rewrite Hother by (intros E; tauto). apply Hun. tauto.
  - exists locked, scores. split; [reflexivity|]. split; [exact Hac|].
    split; [exact Hs|]. split.
    + exact (complete_keys candidates _ _ Hk (complete_fromkeys candidates 0%Q)).
    + intros c Hc Hu. rewrite Hun.
      * rewrite fromkeys_get. apply contains_In in Hc. rewrite Hc. reflexivity.
      * intros Hin. apply in_map_iff in Hin. destruct Hin as (e & <- & He).
        destruct (Hlocked e He) as [_ (r & Hr & Hcr)]. exact (Hu r Hr Hcr).
Qed.

(** C1.  The set returned by [_lock_pairs_without_cycles] has no directed
    cycle, for every list of pairs; so the locked edges of [ranked_pairs]
    are acyclic for every list of rankings and every candidate list.  On the
    cyclic majority A>B>C, B>C>A, C>A>B the edge B->C is the one rejected. *)
Theorem ranked_pairs_acyclic :
  (forall pairs, acyclic (_lock_pairs_without_cycles pairs))
  /\ (forall rs candidates,
        exists locked, ranked_pairs_locked rs candidates = Ok locked
                       /\ acyclic locked)
  /\ ranked_pairs_locked rs_cycle ["A"; "B"; "C"]%string
     = Ok [("A", "B"); ("C", "A")]%string.
Proof.
  split; [exact lock_pairs_acyclic|]. split; [|reflexivity].
  intros rs candidates.
  destruct (ranked_pairs_spec rs candidates) as (locked & _ & Hl & Hac & _).
  exists locked. split; assumption.
Qed.

(** ** Score map completeness *)

Lemma complete_outside (candidates : list string) (scores : dict Q) (x : string) :
  complete candidates scores -> ~ In x candidates -> dict_get scores x = None.
Proof.
  intros [_ Hk] Hx. destruct (dict_get scores x) eqn:E; [|reflexivity].
  exfalso. apply Hx, Hk, dict_get_In. congruence.
Qed.

Lemma gain_unmentioned (rs : list Ranking) (p : string * string) (c : string) :
  unmentioned rs c -> fst p <> snd p ->
  (gain rs p c == (1 # 2) * involved c p)%Q.
Proof.
  intros Hu Hne. unfold gain, involved, ind.
  destruct (String.eqb_spec c (fst p)) as [E1|N1].
  - rewrite <- E1.
    rewrite (@tally_unmentioned rs c (snd p) (or_introl Hu)).
    rewrite (@tally_unmentioned rs (snd p) c (or_intror Hu)).
    cbn [Z.gtb Z.compare orb].
    destruct (String.eqb_spec c (snd p)); [congruence|]. ring.
  - destruct (String.eqb_spec c (snd p)) as [E2|N2]; cbn [orb].
    + rewrite <- E2.
      rewrite (@tally_unmentioned rs c (fst p) (or_introl Hu)).
      rewrite (@tally_unmentioned rs (fst p) c (or_intror Hu)).
      cbn [Z.gtb Z.compare]. ring.
    + destruct (tally rs (fst p) (snd p) >? tally rs (snd p) (fst p)); [ring|].
      destruct (tally rs (snd p) (fst p) >? tally rs (fst p) (snd p)); ring.
Qed.

(** C2, as the code has it.  Each of the five methods returns without
    raising a score map whose keys are exactly the supplied candidates: an
    identifier outside the candidate list has no entry.  A candidate that no
    ranking mentions has the entry 0 under plurality, Borda, weighted Borda
    and ranked pairs; under Copeland it collects the half point of each of
    its (tied, 0-0) comparisons, [(n - 1) / 2] over a duplicate-free
    candidate list of size [n]. *)
Theorem score_map_complete (rs : list Ranking) (candidates : list string) :
  (forall name method, In (name, method) methods ->
     exists scores, method rs candidates = Ok scores
       /\ NoDup (keys scores)
       /\ (forall c, In c (keys scores) <-> In c candidates)
       /\ (forall x, ~ In x candidates -> dict_get scores x = None)
       /\ (name <> "copeland"%string ->
           forall c, In c candidates -> unmentioned rs c ->
             dict_get scores c = Some 0%Q))
  /\ (NoDup candidates ->
      exists wins, copeland_score rs candidates = Ok wins
        /\ forall c, In c candidates -> unmentioned rs c ->
             exists v, dict_get wins c = Some v
               /\ (v == inject_Z (Z.of_nat (List.length candidates) - 1) / 2)%Q).
Proof.
  split.
  - intros name method Hin.
    assert (H : exists scores, method rs candidates = Ok scores
              /\ complete candidates scores
              /\ (name <> "copeland"%string ->
                  forall c, In c candidates -> unmentioned rs c ->
                    dict_get scores c = Some 0%Q)).
    { simpl in Hin.
      destruct Hin as [Hin|[Hin|[Hin|[Hin|[Hin|[]]]]]]; injection Hin as <- <-.
      - destruct (plurality_complete rs candidates) as (s & H1 & H2 & H3).
        exists s. auto.
      - destruct (borda_count_complete rs candidates) as (s & H1 & H2 & H3).
        exists s. auto.
      - destruct (weighted_borda_complete rs candidates) as (s & H1 & H2 & H3).
        exists s. auto.
      - destruct (copeland_spec rs candidates) as (s & H1 & H2 & _).
        exists s. split; [exact H1|]. split; [exact H2|]. congruence.
      - destruct (ranked_pairs_spec rs candidates) as (l & s & _ & _ & H1 & H2 & H3).
        exists s. auto. }
    destruct H as (scores & H1 & H2 & H3). exists scores.
    split; [exact H1|]. split; [exact (proj1 H2)|]. split; [exact (proj2 H2)|].
    split; [|exact H3]. intros x Hx. exact (@complete_outside candidates scores x H2 Hx).
  - intros Hnd.
    destruct (copeland_spec rs candidates) as (wins & Hw & (_ & Hkeys) & _ & Hsc).
    exists wins. split; [exact Hw|]. intros c Hc Hu.
    assert (Hin : In c (keys wins)) by (apply Hkeys; exact Hc).
    apply dict_get_In in Hin.
    destruct (dict_get wins c) as [v|] eqn:Hg; [|congruence].
    exists v. split; [reflexivity|].
    assert (Hv : score wins c = v).
    { unfold score, dict_get_default. rewrite Hg. reflexivity. }
    rewrite <- Hv, Hsc.
    rewrite (@total_ext _ _ (fun p => ((1 # 2) * involved c p)%Q)).
    + rewrite total_scale, (@involved_NoDup c candidates Hnd Hc). field.
    + intros [a b] Hp. apply gain_unmentioned; [exact Hu|].
      cbn [fst snd]. exact (@all_pairs_NoDup candidates a b Hnd Hp).
Qed.

(** C2 as stated fails: with no ranking at all, Copeland gives each of two
    candidates 0.5, not 0. *)
Lemma score_map_complete_counterexample :
  ~ (forall rs candidates name method c,
       In (name, method) methods -> In c candidates -> unmentioned rs c ->
       exists scores v, method rs candidates = Ok scores
         /\ dict_get scores c = Some v /\ (v == 0)%Q).
Proof.
  intros H.
  destruct (H [] ["a"; "b"]%string "copeland"%string copeland_score "a"%string)
    as (scores & v & Hs & Hg & Hv).
  - simpl. tauto.
  - left. reflexivity.
  - intros r [].
  - vm_compute in Hs. injection Hs as <-.
    vm_compute in Hg. injection Hg as <-. discriminate Hv.
Qed.

(** ** Pairwise agreement *)

Lemma agreement_step_spec (r1 r2 : Ranking) (c1 c2 : string) (a n : Z) :
  agreement_step r1 r2 c1 (a, n) c2
  = Ok (a + (if comparable r1 r2 (c1, c2) && agree r1 r2 (c1, c2) then 1 else 0),
        n + (if comparable r1 r2 (c1, c2) then 1 else 0)).
Proof.
  unfold agreement_step, comparable, agree. cbn [fst snd].
  destruct (contains (rankings r1) c1) eqn:H1; cbn [andb];
    [|rewrite !Z.add_0_r; reflexivity].
  destruct (contains (rankings r1) c2) eqn:H2; cbn [andb];
    [|rewrite !Z.add_0_r; reflexivity].
  destruct (contains (rankings r2) c1) eqn:H3; cbn [andb];
    [|rewrite !Z.add_0_r; reflexivity].
  destruct (contains (rankings r2) c2) eqn:H4; cbn [andb];
    [|rewrite !Z.add_0_r; reflexivity].
  apply contains_In in H1, H2, H3, H4.
  rewrite !index_pos by assumption. cbn [bind].
  destruct (Bool.eqb _ _); rewrite ?Z.add_0_r; reflexivity.
Qed.

Lemma truediv_nonzero (a b : Q) : ~ (b == 0)%Q -> truediv a b = Ok (a / b)%Q.
Proof.
  intros Hb. unfold truediv. destruct (Qeq_bool b 0) eqn:E; [|reflexivity].
  apply Qeq_bool_eq in E. contradiction.
Qed.

Lemma inject_Z_nonzero (z : Z) : z <> 0 -> ~ (inject_Z z == 0)%Q.
Proof.
  intros Hz E. apply Hz. unfold Qeq in E. simpl in E. lia.
Qed.

(** [_calculate_pairwise_agreement] never raises and returns [agreement]. *)
Lemma calculate_pairwise_agreement_spec (r1 r2 : Ranking) (candidates : list string) :
  _calculate_pairwise_agreement r1 r2 candidates = Ok (agreement r1 r2 candidates).
Proof.
  unfold _calculate_pairwise_agreement.
  rewrite (nested_loop_pairs (fun acc c1 c2 => agreement_step r1 r2 c1 acc c2)).
  assert (G : forall l a n,
    foldM (fun acc p => agreement_step r1 r2 (fst p) acc (snd p)) l (a, n)
    = Ok (a + Z.of_nat (List.length
                (filter (fun p => comparable r1 r2 p && agree r1 r2 p) l)),
          n + Z.of_nat (List.length (filter (comparable r1 r2) l)))).
  { induction l as [|[c1 c2] l IH]; intros a n.
    - simpl. rewrite !Z.add_0_r. reflexivity.
    - cbn [foldM fst snd filter]. rewrite agreement_step_spec. cbn [bind].
      rewrite IH.
      destruct (comparable r1 r2 (c1, c2)); cbn [andb];
        [destruct (agree r1 r2 (c1, c2))|]; cbn [List.length];
        f_equal; f_equal; lia. }
  rewrite G. cbn [bind]. rewrite !Z.add_0_l.
  unfold agreement. fold (comparisons r1 r2 candidates).
  fold (agreements r1 r2 candidates).
  destruct (Z.gtb_spec (comparisons r1 r2 candidates) 0) as [Hgt|Hle]; [|reflexivity].
  apply truediv_nonzero, inject_Z_nonzero. lia.
Qed.

Lemma comparable_sym (r1 r2 : Ranking) (p : string * string) :
  comparable r1 r2 p = comparable r2 r1 p.
Proof.
  unfold comparable.
  destruct (contains (rankings r1) (fst p)), (contains (rankings r1) (snd p)),
    (contains (rankings r2) (fst p)), (contains (rankings r2) (snd p)); reflexivity.
Qed.

Lemma agree_sym (r1 r2 : Ranking) (p : string * string) :
  agree r1 r2 p = agree r2 r1 p.
Proof.
  unfold agree.
  destruct (_ <? _)%nat, (_ <? _)%nat; reflexivity.
Qed.

Lemma agreement_sym (r1 r2 : Ranking) (candidates : list string) :
  agreement r1 r2 candidates = agreement r2 r1 candidates.
Proof.
  unfold agreement, comparisons, agreements.
  rewrite (filter_ext (comparable r1 r2) (comparable r2 r1))
    by (intros p; apply comparable_sym).
  rewrite (filter_ext (fun p => comparable r1 r2 p && agree r1 r2 p)
                      (fun p => comparable r2 r1 p && agree r2 r1 p))
    by (intros p; rewrite comparable_sym, agree_sym; reflexivity).
  reflexivity.
Qed.

Lemma agreements_le_comparisons (r1 r2 : Ranking) (candidates : list string) :
  0 <= agreements r1 r2 candidates <= comparisons r1 r2 candidates.
Proof.
  unfold agreements, comparisons. split; [lia|]. apply inj_le.
  induction (all_pairs candidates) as [|p l IH]; [reflexivity|].
  cbn [filter]. destruct (comparable r1 r2 p); cbn [andb]; [|exact IH].
  destruct (agree r1 r2 p); cbn [List.length]; lia.
Qed.

Lemma agreement_bounds (r1 r2 : Ranking) (candidates : list string) :
  (0 <= agreement r1 r2 candidates <= 1)%Q.
Proof.
  unfold agreement. pose proof (agreements_le_comparisons r1 r2 candidates) as [Ha Hle].
  destruct (Z.gtb_spec (comparisons r1 r2 candidates) 0) as [Hgt|_]; [|split; lra].
  assert (Hpos : (0 < inject_Z (comparisons r1 r2 candidates))%Q).
  { change 0%Q with (inject_Z 0). rewrite <- Zlt_Qlt. lia. }
  split.
  - apply Qle_shift_div_l; [exact Hpos|]. rewrite Qmult_0_l.
    change 0%Q with (inject_Z 0). rewrite <- Zle_Qle. exact Ha.
  - apply Qle_shift_div_r; [exact Hpos|]. rewrite Qmult_1_l.
    rewrite <- Zle_Qle. exact Hle.
Qed.

(** Rankings with the same order agree on every comparable pair. *)
Lemma agreement_same_order (r1 r2 : Ranking) (candidates : list string) :
  rankings r1 = rankings r2 ->
  (agreement r1 r2 candidates
   == if comparisons r1 r2 candidates >? 0 then 1 else 0)%Q.
Proof.
  intros Hsame. unfold agreement.
  assert (E : agreements r1 r2 candidates = comparisons r1 r2 candidates).
  { unfold agreements, comparisons. f_equal. f_equal. apply filter_ext.
    intros p. unfold agree. rewrite Hsame, eqb_reflx. apply andb_true_r. }
  rewrite E.
  destruct (Z.gtb_spec (comparisons r1 r2 candidates) 0) as [Hgt|_]; [|reflexivity].
  field. apply inject_Z_nonzero. lia.
Qed.

(** ** The agreement matrix *)

Lemma last_by_snoc (j : string) (pre : list Ranking) (x : Ranking) :
  last_by j (pre ++ [x])
  = if String.eqb (judge x) j then Some x else last_by j pre.
Proof.
  induction pre as [|r pre IH]; simpl.
  - reflexivity.
  - rewrite IH. destruct (String.eqb (judge x) j); reflexivity.
Qed.

Lemma last_by_None (j : string) (rs : list Ranking) :
  last_by j rs = None <-> ~ In j (map judge rs).
Proof.
  induction rs as [|r rs IH]; simpl; [tauto|].
  destruct (last_by j rs) as [r'|].
  - split; [discriminate|]. intros H. exfalso.
    assert (Hn : ~ In j (map judge rs)) by tauto.
    apply IH in Hn. discriminate.
  - destruct (String.eqb_spec (judge r) j) as [E|N].
    + split; [discriminate|tauto].
    + split; [|reflexivity]. intros _ [H|H]; [congruence|].
      revert H. apply IH. reflexivity.
Qed.

Lemma last_by_Some (j : string) (rs : list Ranking) (r : Ranking) :
  last_by j rs = Some r -> In r rs /\ judge r = j.
Proof.
  induction rs as [|r0 rs IH]; simpl; [discriminate|].
  destruct (last_by j rs) as [r'|].
  - intros H. injection H as <-. destruct (IH eq_refl). auto.
  - destruct (String.eqb_spec (judge r0) j) as [E|N]; [|discriminate].
    intros H. injection H as <-. auto.
Qed.

Lemma matrix_set_spec (m : dict (dict Q)) (j1 j2 : string) (v : Q) :
  In j1 (keys m) ->
  exists m', matrix_set m j1 j2 v = Ok m'
    /\ keys m' = keys m
    /\ forall a b, matrix_get m' a b
         = if String.eqb a j1 && String.eqb b j2 then Some v else matrix_get m a b.
Proof.
  intros Hin. pose proof Hin as Hg. apply dict_get_In in Hg.
  unfold matrix_set, dict_getitem.
  destruct (dict_get m j1) as [row|] eqn:Hrow; [|congruence]. cbn [bind].
  eexists. split; [reflexivity|]. split.
  - apply keys_setitem_present, Hin.
  - intros a b. apply matrix_get_setitem, Hrow.
Qed.

(** The inner loop of [agreement_matrix] for a fixed [r1]: the row of
    [r1]'s judge receives, for each judge, the entry of its last ranking. *)
Lemma agreement_row (candidates : list string) (r1 : Ranking)
  (l : list Ranking) (m0 : dict (dict Q)) :
  In (judge r1) (keys m0) ->
  exists m,
    foldM (fun matrix r2 =>
             if String.eqb (id r1) (id r2)
             then matrix_set matrix (judge r1) (judge r2) 1%Q
             else
               v <- _calculate_pairwise_agreement r1 r2 candidates ;;
               matrix_set matrix (judge r1) (judge r2) v)
          l m0 = Ok m
    /\ keys m = keys m0
    /\ forall a b, matrix_get m a b
         = if String.eqb a (judge r1)
           then match last_by b l with
                | Some r2 => Some (entry candidates r1 r2)
                | None => matrix_get m0 a b
                end
           else matrix_get m0 a b.
Proof.
  intros Hin.
  apply (@foldM_prefix _ _
    (fun pre m =>
       keys m = keys m0
       /\ forall a b, matrix_get m a b
            = if String.eqb a (judge r1)
              then match last_by b pre with
                   | Some r2 => Some (entry candidates r1 r2)
                   | None => matrix_get m0 a b
                   end
              else matrix_get m0 a b)).
  - split; [reflexivity|]. intros a b. simpl.
    destruct (String.eqb a (judge r1)); reflexivity.
  - intros pre r2 post m _ [Hk Hget].
    assert (Hbody :
      (if String.eqb (id r1) (id r2)
       then matrix_set m (judge r1) (judge r2) 1%Q
       else v <- _calculate_pairwise_agreement r1 r2 candidates ;;
            matrix_set m (judge r1) (judge r2) v)
      = matrix_set m (judge r1) (judge r2) (entry candidates r1 r2)).
    { unfold entry. destruct (String.eqb (id r1) (id r2)); [reflexivity|].
      rewrite calculate_pairwise_agreement_spec. reflexivity. }
    rewrite Hbody.
    destruct (@matrix_set_spec m (judge r1) (judge r2) (entry candidates r1 r2))
      as (m' & Hm' & Hk' & Hget'); [rewrite Hk; exact Hin|].
    exists m'. split; [exact Hm'|]. split; [congruence|].
    intros a b. rewrite Hget', Hget, last_by_snoc.
    destruct (String.eqb a (judge r1)); cbn [andb]; [|reflexivity].
    rewrite (String.eqb_sym b (judge r2)).
    destruct (String.eqb (judge r2) b); reflexivity.
Qed.

Lemma matrix_init_get (judges : list string) (a b : string) :
  matrix_get (build (fun _ => fromkeys judges 0%Q) judges []) a b
  = if contains judges a && contains judges b then Some 0%Q else None.
Proof.
  unfold matrix_get. rewrite build_get.
  destruct (contains judges a); cbn [andb]; [|reflexivity]. apply fromkeys_get.
Qed.

(** [agreement_matrix] never raises; the entry for two judges is the one
    written for their last rankings. *)
Lemma agreement_matrix_spec (rs : list Ranking) (candidates : list string) :
  exists matrix, agreement_matrix rs candidates = Ok matrix
    /\ NoDup (keys matrix)
    /\ (forall j, In j (keys matrix) <-> In j (map judge rs))
    /\ forall a b, matrix_get matrix a b = matrix_entry rs candidates a b.
Proof.
  unfold agreement_matrix.
  set (judges := map judge rs).
  set (m0 := build (fun _ => fromkeys judges 0%Q) judges []).
  assert (Hk0 : forall j, In j (keys m0) <-> In j judges).
  { intros j. unfold m0. rewrite build_keys_In. simpl. tauto. }
  destruct (@foldM_prefix _ _
    (fun pre m =>
       keys m = keys m0
       /\ forall a b, matrix_get m a b
            = match last_by a pre with
              | Some r1 =>
                  match last_by b rs with
                  | Some r2 => Some (entry candidates r1 r2)
                  | None => matrix_get m0 a b
                  end
              | None => matrix_get m0 a b
              end)
    (fun matrix r1 =>
       foldM (fun matrix r2 =>
                if String.eqb (id r1) (id r2)
                then matrix_set matrix (judge r1) (judge r2) 1%Q
                else
                  v <- _calculate_pairwise_agreement r1 r2 candidates ;;
                  matrix_set matrix (judge r1) (judge r2) v)
             rs matrix)
    rs m0) as (matrix & Hm & Hk & Hget).
  - split; reflexivity.
  - intros pre r1 post m Hl [Hk Hget].
    assert (Hr1 : In r1 rs) by (rewrite Hl; apply in_or_app; right; left; reflexivity).
    assert (Hj : In (judge r1) (keys m)).
    { rewrite Hk. apply Hk0. unfold judges. apply in_map, Hr1. }
    destruct (agreement_row candidates r1 rs m Hj) as (m' & Hm' & Hk' & Hget').
    exists m'. split; [exact Hm'|]. split; [congruence|].
    intros a b. rewrite Hget', last_by_snoc.
    rewrite (String.eqb_sym a (judge r1)).
    destruct (String.eqb (judge r1) a); [|apply Hget].
    destruct (last_by b rs) as [r2|] eqn:Eb; [reflexivity|].
    rewrite Hget, Eb. destruct (last_by a pre); reflexivity.
  - exists matrix. split; [exact Hm|]. split.
    { rewrite Hk. unfold m0. apply build_keys_NoDup. constructor. }
    split.
    { intros j. rewrite Hk. apply Hk0. }
    intros a b. rewrite Hget. unfold matrix_entry.
    destruct (last_by a rs) as [r1|] eqn:Ea.
    + destruct (last_by b rs) as [r2|] eqn:Eb; [reflexivity|].
      unfold m0. rewrite matrix_init_get.
      apply last_by_None in Eb. apply contains_not_In in Eb.
      fold judges in Eb. rewrite Eb, andb_false_r. reflexivity.
    + unfold m0. rewrite matrix_init_get.
      apply last_by_None in Ea. apply contains_not_In in Ea.
      fold judges in Ea. rewrite Ea. reflexivity.
Qed.

Lemma entry_sym (candidates : list string) (r1 r2 : Ranking) :
  entry candidates r1 r2 = entry candidates r2 r1.
Proof.
  unfold entry. rewrite (String.eqb_sym (id r1) (id r2)), agreement_sym.
  reflexivity.
Qed.

Lemma entry_bounds (candidates : list string) (r1 r2 : Ranking) :
  (0 <= entry candidates r1 r2 <= 1)%Q.
Proof.
  unfold entry. destruct (String.eqb (id r1) (id r2)).
  - split; lra.
  - apply agreement_bounds.
Qed.

(** C5.  [agreement_matrix] returns a matrix with one row and one column
    per judge name; it is symmetric, its entries lie in [0,1], and every
    diagonal entry is exactly 1: also when a judge name occurs on several
    rankings, because the last write to a diagonal cell compares the judge's
    last ranking with itself. *)
Theorem agreement_matrix_invariant (rs : list Ranking) (candidates : list string) :
  exists matrix, agreement_matrix rs candidates = Ok matrix
    /\ (forall j1 j2, In j1 (map judge rs) -> In j2 (map judge rs) ->
          exists v, matrix_get matrix j1 j2 = Some v
                    /\ matrix_get matrix j2 j1 = Some v
                    /\ (0 <= v <= 1)%Q)
    /\ (forall j, In j (map judge rs) -> matrix_get matrix j j = Some 1%Q)
    /\ (forall j1 j2 v, matrix_get matrix j1 j2 = Some v ->
          In j1 (map judge rs) /\ In j2 (map judge rs)).
Proof.
  destruct (agreement_matrix_spec rs candidates) as (matrix & Hm & _ & _ & Hget).
  exists matrix. split; [exact Hm|]. split; [|split].
  - intros j1 j2 H1 H2. rewrite !Hget. unfold matrix_entry.
    destruct (last_by j1 rs) as [r1|] eqn:E1;
      [|apply last_by_None in E1; contradiction].
    destruct (last_by j2 rs) as [r2|] eqn:E2;
      [|apply last_by_None in E2; contradiction].
    exists (entry candidates r1 r2). split; [reflexivity|].
    split; [rewrite entry_sym; reflexivity|apply entry_bounds].
  - intros j Hj. rewrite Hget. unfold matrix_entry.
    destruct (last_by j rs) as [r|] eqn:E;
      [|apply last_by_None in E; contradiction].
    unfold entry. rewrite String.eqb_refl. reflexivity.
  - intros j1 j2 v. rewrite Hget. unfold matrix_entry.
    destruct (last_by j1 rs) as [r1|] eqn:E1; [|discriminate].
    destruct (last_by j2 rs) as [r2|] eqn:E2; [|discriminate].
    intros _. apply last_by_Some in E1, E2.
    destruct E1 as [I1 <-], E2 as [I2 <-]. split; apply in_map; assumption.
Qed.

(** ** Diversity *)

(** The body of the inner loop of [diversity_score] on a cell that exists. *)
Lemma diversity_step (matrix : dict (dict Q)) (j1 j2 : string) (v t : Q) (n : Z) :
  matrix_get matrix j1 j2 = Some v ->
  (row <- dict_getitem matrix j1 ;;
   v' <- dict_getitem row j2 ;;
   Ok ((t + v')%Q, n + 1)) = Ok ((t + v)%Q, n + 1).
Proof.
  unfold matrix_get, dict_getitem. intros H.
  destruct (dict_get matrix j1) as [row|]; [|discriminate]. cbn [bind].
  rewrite H. reflexivity.
Qed.

(** The loops of [diversity_score] add up one matrix entry per unordered
    pair of judge names. *)
Lemma diversity_loop (rs : list Ranking) (candidates : list string)
  (matrix : dict (dict Q)) :
  (forall j, In j (keys matrix) -> In j (map judge rs)) ->
  (forall a b, matrix_get matrix a b = matrix_entry rs candidates a b) ->
  exists t,
    foldM (fun acc ij1 =>
             let '(i, j1) := ij1 in
             foldM (fun acc j2 =>
                      let '(total_agreement, count) := acc in
                      row <- dict_getitem matrix j1 ;;
                      v <- dict_getitem row j2 ;;
                      Ok ((total_agreement + v)%Q, count + 1))
                   (slice_from (i + 1) (keys matrix)) acc)
          (enumerate (keys matrix)) (0%Q, 0)
    = Ok (t, Z.of_nat (List.length (all_pairs (keys matrix))))
    /\ (t == total (fun p => match matrix_entry rs candidates (fst p) (snd p) with
                             | Some v => v
                             | None => 0%Q
                             end) (all_pairs (keys matrix)))%Q.
Proof.
  intros Hkeys Hget.
  rewrite (nested_loop_pairs
             (fun (acc : Q * Z) j1 j2 =>
                let '(total_agreement, count) := acc in
                row <- dict_getitem matrix j1 ;;
                v <- dict_getitem row j2 ;;
                Ok ((total_agreement + v)%Q, count + 1))).
  set (e := fun p : string * string =>
              match matrix_entry rs candidates (fst p) (snd p) with
              | Some v => v
              | None => 0%Q
              end).
  destruct (@foldM_prefix _ _
    (fun pre (acc : Q * Z) =>
       snd acc = Z.of_nat (List.length pre) /\ (fst acc == total e pre)%Q)
    (fun (s : Q * Z) (p : string * string) =>
       let '(total_agreement, count) := s in
       row <- dict_getitem matrix (fst p) ;;
       v <- dict_getitem row (snd p) ;;
       Ok ((total_agreement + v)%Q, count + 1))
    (all_pairs (keys matrix)) (0%Q, 0)) as ([t n] & Hres & Hn & Ht).
  - split; reflexivity.
  - intros pre [j1 j2] post [t n] Hl [Hn Ht]. cbn [fst snd] in *.
    assert (Hin : In (j1, j2) (all_pairs (keys matrix)))
      by (rewrite Hl; apply in_or_app; right; left; reflexivity).
    apply all_pairs_In in Hin. destruct Hin as [H1 H2].
    apply Hkeys in H1, H2.
    assert (Hcell : matrix_get matrix j1 j2 = Some (e (j1, j2))).
    { rewrite Hget. unfold e. cbn [fst snd]. unfold matrix_entry.
      destruct (last_by j1 rs) eqn:E1; [|apply last_by_None in E1; contradiction].
      destruct (last_by j2 rs) eqn:E2; [|apply last_by_None in E2; contradiction].
      reflexivity. }
    rewrite (diversity_step _ _ _ _ t n Hcell).
    eexists. split; [reflexivity|]. cbn [fst snd]. split.
    + rewrite Hn, length_app. cbn [List.length]. lia.
    + rewrite Ht, total_snoc. reflexivity.
  - cbn [fst snd] in Hn, Ht. subst n. exists t. split; assumption.
Qed.

(** [diversity_score] never raises. *)
Lemma diversity_score_spec (rs : list Ranking) (candidates : list string) :
  exists v, diversity_score rs candidates = Ok v
    /\ ((List.length rs < 2)%nat -> v = 0%Q)
    /\ ((forall r r', In r rs -> In r' rs -> judge r = judge r') -> v = 0%Q)
    /\ ((forall j1 j2, In j1 (map judge rs) -> In j2 (map judge rs) ->
           exists x, matrix_entry rs candidates j1 j2 = Some x /\ (x == 1)%Q) ->
        (v == 0)%Q).
Proof.
  unfold diversity_score.
  destruct (Nat.ltb_spec (List.length rs) 2) as [Hlt|Hge].
  { exists 0%Q. repeat split; reflexivity. }
  destruct (agreement_matrix_spec rs candidates) as (matrix & -> & Hnd & Hkeys & Hget).
  cbn [bind].
  destruct (@diversity_loop rs candidates matrix (fun j => proj1 (Hkeys j)) Hget)
    as (t & -> & Ht).
  cbn [bind].
  set (pairs := all_pairs (keys matrix)) in *.
  destruct (Z.eqb_spec (Z.of_nat (List.length pairs)) 0) as [Hz|Hnz].
  { exists 0%Q. repeat split; reflexivity. }
  rewrite truediv_nonzero by (apply inject_Z_nonzero; exact Hnz). cbn [bind].
  eexists. split; [reflexivity|]. split; [lia|]. split.
  - intros Hsame. exfalso. apply Hnz.
    assert (Hlen : (List.length (keys matrix) <= 1)%nat).
    { destruct (keys matrix) as [|j1 [|j2 ks]] eqn:Ek; simpl; try lia.
      exfalso. inversion Hnd as [|? ? Hout _]; subst. apply Hout. left.
      assert (H1 : In j1 (map judge rs)) by (apply Hkeys; left; reflexivity).
      assert (H2 : In j2 (map judge rs)) by (apply Hkeys; right; left; reflexivity).
      apply in_map_iff in H1, H2.
      destruct H1 as (r1 & <- & I1), H2 as (r2 & <- & I2).
      apply Hsame; assumption. }
    pose proof (all_pairs_length (keys matrix)) as Hp. fold pairs in Hp.
    destruct (List.length (keys matrix)) as [|[|n]]; simpl in Hp; lia.
  - intros Hone.
    assert (Hall : (t == inject_Z (Z.of_nat (List.length pairs)))%Q).
    { rewrite Ht. apply total_one. intros [j1 j2] Hin. cbn [fst snd].
      apply all_pairs_In in Hin. destruct Hin as [H1 H2].
      apply Hkeys in H1, H2.
      destruct (Hone j1 j2 H1 H2) as (x & -> & Hx). exact Hx. }
    rewrite Hall. field. apply inject_Z_nonzero. exact Hnz.
Qed.

Lemma comparisons_positive (r1 r2 : Ranking) (order candidates : list string) :
  rankings r1 = order -> rankings r2 = order ->
  comparable_pair order candidates ->
  comparisons r1 r2 candidates > 0.
Proof.
  intros E1 E2 (c1 & c2 & Hp & H1 & H2). unfold comparisons.
  assert (Hin : In (c1, c2) (filter (comparable r1 r2) (all_pairs candidates))).
  { apply filter_In. split; [exact Hp|]. unfold comparable. cbn [fst snd].
    rewrite E1, E2. apply contains_In in H1, H2. rewrite H1, H2. reflexivity. }
  destruct (filter (comparable r1 r2) (all_pairs candidates)); [destruct Hin|].
  simpl. lia.
Qed.

(** C6, as the code has it.  At least two rankings that all give the same
    order, with at least one pair of candidates that the order contains:
    [diversity_score] returns 0. *)
Theorem diversity_unanimous (rs : list Ranking) (candidates order : list string) :
  (2 <= List.length rs)%nat ->
  (forall r, In r rs -> rankings r = order) ->
  comparable_pair order candidates ->
  exists v, diversity_score rs candidates = Ok v /\ (v == 0)%Q.
Proof.
  intros Hlen Hsame Hcmp.
  destruct (diversity_score_spec rs candidates) as (v & Hv & _ & _ & Hone).
  exists v. split; [exact Hv|]. apply Hone.
  intros j1 j2 H1 H2. unfold matrix_entry.
  destruct (last_by j1 rs) as [r1|] eqn:E1; [|apply last_by_None in E1; contradiction].
  destruct (last_by j2 rs) as [r2|] eqn:E2; [|apply last_by_None in E2; contradiction].
  eexists. split; [reflexivity|].
  apply last_by_Some in E1, E2. destruct E1 as [I1 _], E2 as [I2 _].
  unfold entry. destruct (String.eqb (id r1) (id r2)); [reflexivity|].
  rewrite agreement_same_order by (rewrite (Hsame r1 I1), (Hsame r2 I2); reflexivity).
  pose proof (@comparisons_positive r1 r2 order candidates
                (Hsame r1 I1) (Hsame r2 I2) Hcmp) as Hpos.
  destruct (Z.gtb_spec (comparisons r1 r2 candidates) 0); [reflexivity|lia].
Qed.

(** [diversity_unanimous] on two judges with the order A, B, C. *)
Lemma diversity_unanimous_witness :
  (2 <= List.length rs_unanimous)%nat
  /\ (forall r, In r rs_unanimous -> rankings r = ["A"; "B"; "C"]%string)
  /\ comparable_pair ["A"; "B"; "C"]%string ["A"; "B"; "C"]%string
  /\ exists v, diversity_score rs_unanimous ["A"; "B"; "C"]%string = Ok v
              /\ (v == 0)%Q.
Proof.
  assert (H1 : (2 <= List.length rs_unanimous)%nat) by (simpl; lia).
  assert (H2 : forall r, In r rs_unanimous -> rankings r = ["A"; "B"; "C"]%string)
    by (intros r [<-|[<-|[]]]; reflexivity).
  assert (H3 : comparable_pair ["A"; "B"; "C"]%string ["A"; "B"; "C"]%string)
    by (exists "A"%string, "B"%string; simpl; tauto).
  split; [exact H1|]. split; [exact H2|]. split; [exact H3|].
  exact (diversity_unanimous rs_unanimous ["A"; "B"; "C"]%string
           ["A"; "B"; "C"]%string H1 H2 H3).
Defined.

(** C6 as stated fails: two judges who both rank only [a], out of the
    candidates [a] and [b], have no comparable pair; their agreement is 0
    and the diversity is 1. *)
Lemma diversity_unanimous_counterexample :
  ~ (forall rs candidates,
       (2 <= List.length rs)%nat ->
       (forall r1 r2, In r1 rs -> In r2 rs -> rankings r1 = rankings r2) ->
       exists v, diversity_score rs candidates = Ok v /\ (v == 0)%Q).
Proof.
  intros H.
  destruct (H rs_partial ["a"; "b"]%string) as (v & Hv & Hz).
  - simpl. lia.
  - intros r1 r2 [<-|[<-|[]]] [<-|[<-|[]]]; reflexivity.
  - vm_compute in Hv. injection Hv as <-. discriminate Hz.
Qed.

(** ** Totality *)

Lemma dict_getitem_key {V : Type} (d : dict V) (k : string) :
  In k (keys d) -> exists v, dict_getitem d k = Ok v.
Proof.
  intros H. apply dict_get_In in H. unfold dict_getitem.
  destruct (dict_get d k) as [v|]; [eauto|congruence].
Qed.

Lemma max_loop_total (key : string -> result Q) (l : list string) :
  (forall x, In x l -> exists v, key x = Ok v) ->
  forall best bk, exists w, max_loop key best bk l = Ok w.
Proof.
  induction l as [|x l IH]; intros Hkey best bk.
  - exists best. reflexivity.
  - cbn [max_loop]. destruct (Hkey x (or_introl eq_refl)) as (v & ->). cbn [bind].
    assert (Hkey' : forall y, In y l -> exists v, key y = Ok v)
      by (intros y Hy; apply Hkey; right; exact Hy).
    destruct (Qgt_bool v bk); apply IH; exact Hkey'.
Qed.

Lemma get_winner_total (scores : dict Q) : exists w, get_winner scores = Ok w.
Proof.
  destruct scores as [|[k v] rest] eqn:E; [exists ""%string; reflexivity|].
  rewrite <- E.
  assert (Hkey : forall x, In x (keys scores) ->
                   exists v, dict_getitem scores x = Ok v)
    by (intros x; apply dict_getitem_key).
  assert (Hgw : get_winner scores
                = (kx <- dict_getitem scores k ;;
                   max_loop (fun k => dict_getitem scores k) k kx (keys rest)))
    by (rewrite E; reflexivity).
  rewrite Hgw.
  destruct (Hkey k) as (v0 & ->); [rewrite E; left; reflexivity|]. cbn [bind].
  apply max_loop_total. intros x Hx. apply Hkey. rewrite E. right. exact Hx.
Qed.

Lemma decorate_total (key : string -> result Q) (l : list string) :
  (forall x, In x l -> exists v, key x = Ok v) ->
  exists keyed, decorate key l = Ok keyed /\ map fst keyed = l.
Proof.
  induction l as [|x l IH]; intros Hkey.
  - exists []. split; reflexivity.
  - cbn [decorate]. destruct (Hkey x (or_introl eq_refl)) as (v & ->). cbn [bind].
    destruct IH as (keyed & -> & Hk); [intros y Hy; apply Hkey; right; exact Hy|].
    cbn [bind]. exists ((x, v) :: keyed). split; [reflexivity|].
    simpl. rewrite Hk. reflexivity.
Qed.

Lemma get_ranking_total (scores : dict Q) :
  exists l, get_ranking scores = Ok l
            /\ forall k, In k l <-> In k (keys scores).
Proof.
  unfold get_ranking.
  destruct (decorate_total (fun k => dict_getitem scores k) (keys scores))
    as (keyed & -> & Hk); [intros x; apply dict_getitem_key|].
  cbn [bind]. eexists. split; [reflexivity|].
  intros k. rewrite <- Hk, !in_map_iff. split.
  - intros (p & Hp & Hin). exists p. split; [exact Hp|].
    apply sort_desc_In in Hin. exact Hin.
  - intros (p & Hp & Hin). exists p. split; [exact Hp|].
    apply sort_desc_In. exact Hin.
Qed.

Lemma method_total (rs : list Ranking) (candidates : list string)
  (name : string) (method : list Ranking -> list string -> result (dict Q)) :
  In (name, method) methods -> exists scores, method rs candidates = Ok scores.
Proof.
  simpl. intros [H|[H|[H|[H|[H|[]]]]]]; injection H as <- <-.
  - destruct (plurality_complete rs candidates) as (s & H & _). eauto.
  - destruct (borda_count_complete rs candidates) as (s & H & _). eauto.
  - destruct (weighted_borda_complete rs candidates) as (s & H & _). eauto.
  - destruct (copeland_spec rs candidates) as (s & H & _). eauto.
  - destruct (ranked_pairs_spec rs candidates) as (l & s & _ & _ & H & _). eauto.
Qed.

Lemma method_agreement_total (rs : list Ranking) (candidates : list string) :
  exists d, method_agreement rs candidates = Ok d.
Proof.
  unfold method_agreement.
  destruct (@foldM_inv _ _ (fun _ : dict string => True)
    (fun d (nm : string * (list Ranking -> list string -> result (dict Q))) =>
       let '(name, method) := nm in
       scores <- method rs candidates ;;
       w <- get_winner scores ;;
       Ok (dict_setitem d name w))
    methods []) as (d & Hd & _).
  - exact I.
  - intros [name method] d Hin _.
    destruct (@method_total rs candidates name method Hin) as (scores & ->).
    cbn [bind]. destruct (get_winner_total scores) as (w & ->). cbn [bind].
    eexists. split; [reflexivity|exact I].
  - exists d. exact Hd.
Qed.

Lemma agreement_no_comparison (r1 r2 : Ranking) (candidates : list string) :
  (forall p, In p (all_pairs candidates) -> comparable r1 r2 p = false) ->
  agreement r1 r2 candidates = 0%Q.
Proof.
  intros Hno. unfold agreement, comparisons.
  replace (filter (comparable r1 r2) (all_pairs candidates))
    with (@nil (string * string)); [reflexivity|].
  symmetry. induction (all_pairs candidates) as [|p l IH]; [reflexivity|].
  cbn [filter]. rewrite (Hno p (or_introl eq_refl)).
  apply IH. intros q Hq. apply Hno. right. exact Hq.
Qed.

(** C7.  No core function raises, whatever the rankings, the candidate list
    and the score map are: each returns a value.  The agreement ratio is 0
    when no pair of candidates is comparable, and the diversity is 0 with
    fewer than two rankings or with no pair of distinct judge names. *)
Theorem core_total (rs : list Ranking) (candidates : list string) (scores : dict Q) :
  (forall name method, In (name, method) methods ->
     exists s, method rs candidates = Ok s)
  /\ (exists w, get_winner scores = Ok w)
  /\ get_winner [] = Ok ""%string
  /\ (exists l, get_ranking scores = Ok l)
  /\ (exists m, agreement_matrix rs candidates = Ok m)
  /\ (exists d, method_agreement rs candidates = Ok d)
  /\ (forall r1 r2,
        exists v, _calculate_pairwise_agreement r1 r2 candidates = Ok v
          /\ ((forall p, In p (all_pairs candidates) -> comparable r1 r2 p = false) ->
              v = 0%Q))
  /\ (exists v, diversity_score rs candidates = Ok v
        /\ ((List.length rs < 2)%nat -> v = 0%Q)
        /\ ((forall r r', In r rs -> In r' rs -> judge r = judge r') -> v = 0%Q)).
Proof.
  split; [intros name method; apply method_total|].
  split; [apply get_winner_total|].
  split; [reflexivity|].
  split; [destruct (get_ranking_total scores) as (l & H & _); eauto|].
  split; [destruct (agreement_matrix_spec rs candidates) as (m & H & _); eauto|].
  split; [apply method_agreement_total|].
  split.
  - intros r1 r2. exists (agreement r1 r2 candidates).
    split; [apply calculate_pairwise_agreement_spec|apply agreement_no_comparison].
  - destruct (diversity_score_spec rs candidates) as (v & H1 & H2 & H3 & _).
    exists v. auto.
Qed.

(** ** The theorems at work on the example data *)

Ltac nodup_strings :=
  repeat constructor; simpl; intuition discriminate.

Example plurality_example :
  plurality rs_example candidates3
  = Ok [("r1", 2%Q); ("r2", 1%Q); ("r3", 0%Q)]%string.
Proof. reflexivity. Qed.

Example borda_example :
  borda_count rs_example candidates3
  = Ok [("r1", 5%Q); ("r2", 3%Q); ("r3", 1%Q)]%string.
Proof. reflexivity. Qed.

Example copeland_example :
  copeland_score rs_example candidates3
  = Ok [("r1", 2%Q); ("r2", 1%Q); ("r3", 0%Q)]%string.
Proof. reflexivity. Qed.

(** On the cyclic majority the margins are 1, not 0: two edges are locked. *)
Example ranked_pairs_cycle_example :
  ranked_pairs rs_cycle ["A"; "B"; "C"]%string
  = Ok [("A", 1%Q); ("B", 0%Q); ("C", 1%Q)]%string.
Proof. reflexivity. Qed.

Example method_agreement_example :
  method_agreement rs_example candidates3
  = Ok [("plurality", "r1"); ("borda", "r1"); ("weighted_borda", "r1");
        ("copeland", "r1"); ("ranked_pairs", "r1")]%string.
Proof. reflexivity. Qed.

(** One judge name on two rankings that disagree: the diagonal is 1. *)
Example agreement_matrix_same_judge :
  agreement_matrix rs_same_judge ["a"; "b"]%string
  = Ok [("j", [("j", 1%Q)])]%string.
Proof. reflexivity. Qed.

Lemma candidates3_NoDup : NoDup candidates3.
Proof. unfold candidates3. nodup_strings. Qed.

Lemma rs_example_full (r : Ranking) :
  In r rs_example ->
  NoDup (rankings r) /\ forall c, In c (rankings r) <-> In c candidates3.
Proof.
  intros [<-|[<-|[<-|[]]]]; (split; [nodup_strings|]);
    intros c; simpl; tauto.
Qed.

(** [borda_total] on the three full rankings of the specification. *)
Lemma borda_total_witness :
  NoDup candidates3
  /\ (forall r, In r rs_example ->
        NoDup (rankings r) /\ forall c, In c (rankings r) <-> In c candidates3)
  /\ exists scores, borda_count rs_example candidates3 = Ok scores
       /\ (sum (values scores) == inject_Z 3 * (inject_Z (3 * (3 - 1)) / 2))%Q.
Proof.
  split; [exact candidates3_NoDup|]. split; [exact rs_example_full|].
  exact (borda_total rs_example candidates3 candidates3_NoDup rs_example_full).
Defined.

(** [copeland_bound] on the same rankings. *)
Lemma copeland_bound_witness :
  NoDup candidates3
  /\ exists wins, copeland_score rs_example candidates3 = Ok wins
       /\ (forall c v, dict_get wins c = Some v -> (v <= inject_Z (3 - 1))%Q)
       /\ (forall c, In c candidates3 ->
             (forall d, In d candidates3 -> d <> c -> majority rs_example c d) ->
             exists v, dict_get wins c = Some v /\ (v == inject_Z (3 - 1))%Q).
Proof.
  split; [exact candidates3_NoDup|].
  exact (proj1 (copeland_bound rs_example candidates3 candidates3_NoDup)).
Defined.

Lemma rs_example_unmentioned : unmentioned rs_example "r4"%string.
Proof.
  intros r [<-|[<-|[<-|[]]]]; simpl; intuition discriminate.
Qed.

(** [score_map_complete] with the unmentioned candidate [r4]: 0 under Borda,
    3/2 under Copeland. *)
Lemma score_map_complete_witness :
  NoDup candidates4
  /\ unmentioned rs_example "r4"%string
  /\ (exists scores, borda_count rs_example candidates4 = Ok scores
        /\ dict_get scores "r4"%string = Some 0%Q)
  /\ (exists wins, copeland_score rs_example candidates4 = Ok wins
        /\ exists v, dict_get wins "r4"%string = Some v /\ (v == 3 # 2)%Q).
Proof.
  assert (Hnd : NoDup candidates4) by (unfold candidates4; nodup_strings).
  assert (Hin : In "r4"%string candidates4) by (simpl; tauto).
  destruct (score_map_complete rs_example candidates4) as [Hall Hcop].
  split; [exact Hnd|]. split; [exact rs_example_unmentioned|]. split.
  - destruct (Hall "borda"%string borda_count) as (scores & Hs & _ & _ & _ & Hz);
      [simpl; tauto|].
    exists scores. split; [exact Hs|].
    apply Hz; [discriminate|exact Hin|exact rs_example_unmentioned].
  - destruct (Hcop Hnd) as (wins & Hw & Hhalf).
    exists wins. split; [exact Hw|].
    destruct (Hhalf "r4"%string Hin rs_example_unmentioned) as (v & Hv & Hq).
    exists v. split; [exact Hv|]. rewrite Hq. reflexivity.
Defined.


(** [agreement_matrix_invariant] on a judge name shared by two rankings. *)
Lemma agreement_matrix_invariant_witness :
  In "j"%string (map judge rs_same_judge)
  /\ exists matrix, agreement_matrix rs_same_judge ["a"; "b"]%string = Ok matrix
       /\ matrix_get matrix "j"%string "j"%string = Some 1%Q.
Proof.
  assert (Hin : In "j"%string (map judge rs_same_judge)) by (simpl; tauto).
  split; [exact Hin|].
  destruct (agreement_matrix_invariant rs_same_judge ["a"; "b"]%string)
    as (matrix & Hm & _ & Hdiag & _).
  exists matrix. split; [exact Hm|]. exact (Hdiag "j"%string Hin).
Defined.

(** * Further properties of the aggregation module *)

(** ** [get_ranking] *)

Lemma dict_getitem_score (scores : dict Q) (k : string) :
  In k (keys scores) -> dict_getitem scores k = Ok (score scores k).
Proof.
  intros H. apply dict_get_In in H. unfold dict_getitem, score, dict_get_default.
  destruct (dict_get scores k); [reflexivity|congruence].
Qed.


Section SortFacts.
Variable f : string -> Q.

Let gtb (x y : string * Q) : bool := Qgt_bool (snd x) (snd y).
Let dec (k : string) : string * Q := (k, f k).







End SortFacts.






Lemma filter_none {A : Type} (p : A -> bool) (l : list A) :
  (forall x, In x l -> p x = false) -> filter p l = [].
Proof.
  induction l as [|x l IH]; intros H; [reflexivity|].
  simpl. rewrite (H x (or_introl eq_refl)). apply IH.
  intros y Hy. apply H. right. exact Hy.
Qed.

(** Where [get_winner] finds its result in the key list. *)
Lemma get_winner_position (p : string * Q) (d : dict Q) :
  exists w pre post,
    get_winner (p :: d) = Ok w
    /\ keys (p :: d) = pre ++ w :: post
    /\ (forall k, In k pre -> (score (p :: d) k < score (p :: d) w)%Q)
    /\ (forall k, In k post -> (score (p :: d) k <= score (p :: d) w)%Q).
Proof.
  set (scores := p :: d).
  set (dec := fun k : string => (k, score scores k)).
  assert (Hkey : forall k v, In (k, v) (map dec (keys d)) ->
                   dict_getitem scores k = Ok v).
  { intros k v H. apply in_map_iff in H. destruct H as (k' & E & Hk).
    injection E as -> <-. apply dict_getitem_score.
    unfold scores. simpl. right. exact Hk. }
  assert (Hgw : get_winner scores
                = (kx <- dict_getitem scores (fst p) ;;
                   max_loop (fun k => dict_getitem scores k) (fst p) kx
                            (map fst (map dec (keys d))))).
  { unfold scores. destruct p as [k0 v0]. cbn [get_winner py_max keys map fst].
    rewrite map_map. cbn [dec fst]. rewrite map_id. reflexivity. }
  rewrite Hgw, dict_getitem_score by (unfold scores; simpl; left; reflexivity).
  cbn [bind].
  destruct (max_loop_first (fun k => dict_getitem scores k) (map dec (keys d))
              Hkey (fst p) (score scores (fst p)))
    as (w & Hw & [(-> & Hall)|(sw & pre & post & Hsplit & Hlt & Hpre & Hpost)]).
  - exists (fst p), [], (keys d). split; [exact Hw|]. split; [reflexivity|].
    split; [intros k []|].
    intros k Hk. apply (Hall k (score scores k)).
    apply in_map_iff. exists k. split; [reflexivity|exact Hk].
  - assert (Hsw : sw = score scores w).
    { assert (Hin : In (w, sw) (map dec (keys d)))
        by (rewrite Hsplit; apply in_or_app; right; left; reflexivity).
      apply in_map_iff in Hin. destruct Hin as (k & E & _).
      injection E as -> <-. reflexivity. }
    subst sw.
    assert (Hk : keys d = map fst pre ++ w :: map fst post).
    { apply (f_equal (map fst)) in Hsplit. rewrite map_map in Hsplit.
      cbn [dec fst] in Hsplit. rewrite map_id, map_app in Hsplit. exact Hsplit. }
    assert (Hval : forall q, In q (map dec (keys d)) -> snd q = score scores (fst q)).
    { intros q Hq. apply in_map_iff in Hq. destruct Hq as (k & <- & _). reflexivity. }
    exists w, (fst p :: map fst pre), (map fst post).
    split; [exact Hw|]. split; [unfold scores; simpl; rewrite Hk; reflexivity|].
    split.
    + intros k [<-|Hin]; [exact Hlt|].
      apply in_map_iff in Hin. destruct Hin as ([k' v'] & <- & Hq).
      assert (Hq' : In (k', v') (map dec (keys d)))
        by (rewrite Hsplit; apply in_or_app; left; exact Hq).
      rewrite <- (Hval _ Hq'). exact (Hpre k' v' Hq).
    + intros k Hin.
      apply in_map_iff in Hin. destruct Hin as ([k' v'] & <- & Hq).
      assert (Hq' : In (k', v') (map dec (keys d)))
        by (rewrite Hsplit; apply in_or_app; right; right; exact Hq).
      rewrite <- (Hval _ Hq'). exact (Hpost k' v' Hq).
Qed.


(** ** The winner of a method is a candidate *)

Lemma get_winner_candidate (candidates : list string) (scores : dict Q) (w : string) :
  complete candidates scores -> get_winner scores = Ok w ->
  match candidates with
  | [] => w = ""%string
  | _ :: _ => In w candidates
  end.
Proof.
  intros [_ Hk] Hw. destruct scores as [|p d].
  - simpl in Hw. injection Hw as <-.
    destruct candidates as [|c cs]; [reflexivity|].
    exfalso. apply (proj2 (Hk c)). left. reflexivity.
  - destruct (get_winner_position p d) as (w' & pre & post & Hw' & Hkeys & _).
    assert (w' = w) by congruence. subst w'.
    assert (Hin : In w candidates).
    { apply Hk. rewrite Hkeys. apply in_or_app. right. left. reflexivity. }
    destruct candidates; [destruct Hin|exact Hin].
Qed.

Lemma method_complete (rs : list Ranking) (candidates : list string)
  (name : string) (method : list Ranking -> list string -> result (dict Q)) :
  In (name, method) methods ->
  exists scores, method rs candidates = Ok scores /\ complete candidates scores.
Proof.
  simpl. intros [H|[H|[H|[H|[H|[]]]]]]; injection H as <- <-.
  - destruct (plurality_complete rs candidates) as (s & H1 & H2 & _). eauto.
  - destruct (borda_count_complete rs candidates) as (s & H1 & H2 & _). eauto.
  - destruct (weighted_borda_complete rs candidates) as (s & H1 & H2 & _). eauto.
  - destruct (copeland_spec rs candidates) as (s & H1 & H2 & _). eauto.
  - destruct (ranked_pairs_spec rs candidates) as (l & s & _ & _ & H1 & H2 & _). eauto.
Qed.

(** [method_agreement] has one entry per method name, in the order of the
    table, and each entry is the winner of that method: a member of the
    candidate list, or the empty string when the candidate list is empty. *)
Theorem method_agreement_candidates (rs : list Ranking) (candidates : list string) :
  exists d, method_agreement rs candidates = Ok d
    /\ keys d = map fst methods
    /\ forall name w, dict_get d name = Some w ->
         (exists method scores,
            In (name, method) methods
            /\ method rs candidates = Ok scores
            /\ get_winner scores = Ok w)
         /\ match candidates with
            | [] => w = ""%string
            | _ :: _ => In w candidates
            end.
Proof.
  unfold method_agreement.
  destruct (method_complete rs candidates "plurality"%string plurality)
    as (s1 & E1 & C1); [simpl; tauto|].
  destruct (method_complete rs candidates "borda"%string borda_count)
    as (s2 & E2 & C2); [simpl; tauto|].
  destruct (method_complete rs candidates "weighted_borda"%string weighted_borda)
    as (s3 & E3 & C3); [simpl; tauto|].
  destruct (method_complete rs candidates "copeland"%string copeland_score)
    as (s4 & E4 & C4); [simpl; tauto|].
  destruct (method_complete rs candidates "ranked_pairs"%string ranked_pairs)
    as (s5 & E5 & C5); [simpl; tauto|].
  destruct (get_winner_total s1) as (w1 & W1).
  destruct (get_winner_total s2) as (w2 & W2).
  destruct (get_winner_total s3) as (w3 & W3).
  destruct (get_winner_total s4) as (w4 & W4).
  destruct (get_winner_total s5) as (w5 & W5).
  unfold methods at 1. cbn [foldM].
  rewrite E1; cbn [bind]; rewrite W1; cbn [bind].
  rewrite E2; cbn [bind]; rewrite W2; cbn [bind].
  rewrite E3; cbn [bind]; rewrite W3; cbn [bind].
  rewrite E4; cbn [bind]; rewrite W4; cbn [bind].
  rewrite E5; cbn [bind]; rewrite W5; cbn [bind].
  eexists. split; [reflexivity|]. split; [reflexivity|].
  intros name w H.
  change (dict_get [("plurality"%string, w1); ("borda"%string, w2);
                    ("weighted_borda"%string, w3); ("copeland"%string, w4);
                    ("ranked_pairs"%string, w5)] name = Some w) in H.
  cbn [dict_get] in H.
  repeat match type of H with
         | context [String.eqb ?a name] =>
             destruct (String.eqb_spec a name) as [<-|_]
         end; try discriminate H; injection H as <-.
  - split; [exists plurality, s1; simpl; tauto|].
    exact (get_winner_candidate candidates s1 w1 C1 W1).
  - split; [exists borda_count, s2; simpl; tauto|].
    exact (get_winner_candidate candidates s2 w2 C2 W2).
  - split; [exists weighted_borda, s3; simpl; tauto|].
    exact (get_winner_candidate candidates s3 w3 C3 W3).
  - split; [exists copeland_score, s4; simpl; tauto|].
    exact (get_winner_candidate candidates s4 w4 C4 W4).
  - split; [exists ranked_pairs, s5; simpl; tauto|].
    exact (get_winner_candidate candidates s5 w5 C5 W5).
Qed.

(** ** Plurality counts first choices *)

Lemma Counter_count (l : list string) (c : string) :
  dict_get_default (Counter l) c 0 = Z.of_nat (count_occ string_dec l c).
Proof.
  unfold Counter.
  assert (G : forall d,
    dict_get_default
      (fold_left (fun d x => dict_setitem d x (dict_get_default d x 0 + 1)) l d) c 0
    = dict_get_default d c 0 + Z.of_nat (count_occ string_dec l c)).
  { induction l as [|x l IH]; intros d; simpl; [lia|].
    rewrite IH. unfold dict_get_default at 1.
    destruct (string_dec x c) as [->|Hne].
    - rewrite dict_get_setitem_eq. unfold dict_get_default. lia.
    - rewrite dict_get_setitem_neq by exact Hne. unfold dict_get_default. lia. }
  rewrite G. reflexivity.
Qed.

Lemma first_places_count (rs : list Ranking) (c : string) :
  exists fp, first_places rs = Ok fp
    /\ count_occ string_dec fp c = List.length (filter (first_choice_is c) rs).
Proof.
  induction rs as [|r rs (fp & Hfp & Hc)]; simpl.
  - exists []. split; reflexivity.
  - unfold first_choice_is at 1.
    destruct (rankings r) as [|x order] eqn:Hr.
    + exists fp. split; assumption.
    + rewrite Hfp. cbn [list_getitem nth_error bind].
      exists (x :: fp). split; [reflexivity|]. simpl.
      destruct (string_dec x c) as [->|Hne].
      * rewrite String.eqb_refl. simpl. rewrite Hc. reflexivity.
      * destruct (String.eqb_spec x c); [congruence|exact Hc].
Qed.

Lemma count_cons {A : Type} (p : A -> bool) (x : A) (l : list A) :
  (count p (x :: l) == ind (p x) + count p l)%Q.
Proof.
  unfold count, ind. cbn [filter]. destruct (p x); cbn [List.length].
  - rewrite Nat2Z.inj_succ, <- Z.add_1_l, inject_Z_plus. reflexivity.
  - ring.
Qed.

(** Over distinct keys, a ranking is the first choice of at most one. *)
Lemma first_choice_once (ks : list string) (r : Ranking) :
  NoDup ks ->
  (total (fun k => ind (first_choice_is k r)) ks == ind (first_choice_in ks r))%Q.
Proof.
  unfold first_choice_is, first_choice_in.
  destruct (rankings r) as [|x order].
  { intros _. apply total_zero. reflexivity. }
  induction ks as [|k ks IH]; intros Hnd; [reflexivity|].
  inversion Hnd as [|? ? Hout Hnd']; subst.
  rewrite total_cons. unfold contains. cbn [existsb].
  destruct (String.eqb_spec x k) as [->|Hne].
  - rewrite total_zero; [unfold ind; simpl; ring|].
    intros k' Hk'. destruct (String.eqb_spec k k') as [->|_]; [contradiction|].
    reflexivity.
  - rewrite (IH Hnd'). unfold contains, ind. cbn [orb]. ring.
Qed.

Lemma first_choice_total (ks : list string) (rs : list Ranking) :
  NoDup ks ->
  (total (fun k => count (first_choice_is k) rs) ks
   == count (first_choice_in ks) rs)%Q.
Proof.
  intros Hnd. induction rs as [|r rs IH].
  - apply total_zero. reflexivity.
  - rewrite count_cons, <- IH, <- (first_choice_once ks r Hnd).
    clear. induction ks as [|k ks IHk]; [rewrite !total_nil; ring|].
    rewrite !total_cons, IHk, count_cons. ring.
Qed.

Lemma values_of_keys (f : string -> Q) (d : dict Q) :
  (forall k v, In (k, v) d -> v = f k) -> values d = map f (keys d).
Proof.
  induction d as [|[k v] d IH]; intros H; [reflexivity|].
  simpl. rewrite (H k v (or_introl eq_refl)). f_equal.
  apply IH. intros k' v' H'. apply H. right. exact H'.
Qed.

Lemma plurality_counts_spec (rs : list Ranking) (candidates : list string) :
  exists scores, plurality rs candidates = Ok scores
    /\ (forall c, In c candidates ->
          dict_get scores c = Some (count (first_choice_is c) rs))
    /\ (sum (values scores) == count (first_choice_in candidates) rs)%Q.
Proof.
  unfold plurality.
  destruct (first_places_Ok rs) as (fp & Hfp & _). rewrite Hfp. cbn [bind].
  set (f := fun c => inject_Z (dict_get_default (Counter fp) c 0)).
  assert (Hf : forall c, f c = count (first_choice_is c) rs).
  { intros c. unfold f, count. rewrite Counter_count.
    destruct (first_places_count rs c) as (fp' & Hfp' & Hc).
    assert (fp' = fp) by congruence. subst fp'. rewrite Hc. reflexivity. }
  eexists. split; [reflexivity|]. split.
  - intros c Hc. rewrite build_get. apply contains_In in Hc. rewrite Hc.
    rewrite Hf. reflexivity.
  - rewrite (values_of_keys f).
    + fold (total f (keys (build f candidates []))).
      rewrite (total_ext f (fun k => count (first_choice_is k) rs))
        by (intros k _; rewrite Hf; reflexivity).
      rewrite first_choice_total by (apply build_keys_NoDup; constructor).
      unfold count. rewrite (filter_ext (first_choice_in (keys (build f candidates [])))
                                        (first_choice_in candidates)); [reflexivity|].
      intros r. unfold first_choice_in. destruct (rankings r) as [|x o]; [reflexivity|].
      apply eq_true_iff_eq. rewrite !contains_In, build_keys_In. simpl. tauto.
    + intros k v H. apply build_In in H. destruct H as [H|[]]. exact H.
Qed.

(** The plurality score of a candidate is the number of rankings that put
    it first, and the scores add up to the number of rankings whose first
    choice is a candidate: empty rankings and first choices outside the
    candidate list count for nobody. *)
Theorem plurality_counts (rs : list Ranking) (candidates : list string) :
  exists scores, plurality rs candidates = Ok scores
    /\ (forall c, In c candidates ->
          dict_get scores c = Some (count (first_choice_is c) rs))
    /\ (sum (values scores) == count (first_choice_in candidates) rs)%Q.
Proof. exact (plurality_counts_spec rs candidates). Qed.

(** ** Bounds on Borda scores *)

Lemma enumerate_lt {A : Type} (l : list A) (p : nat) (x : A) :
  In (p, x) (enumerate l) -> (p < List.length l)%nat.
Proof.
  intros H. assert (Hp : In p (map fst (enumerate l))).
  { change p with (fst (p, x)). apply in_map, H. }
  rewrite enumerate_fst in Hp. apply in_seq in Hp. lia.
Qed.

Lemma total_nonneg {A : Type} (f : A -> Q) (l : list A) :
  (forall x, In x l -> (0 <= f x)%Q) -> (0 <= total f l)%Q.
Proof.
  intros H. rewrite <- (total_zero (fun _ : A => 0%Q) l) by reflexivity.
  apply total_le. exact H.
Qed.

(** Among entries with distinct candidates only one counts for [c]. *)
Lemma total_single (g : nat * string -> Q) (c : string) (M : Q)
  (l : list (nat * string)) :
  NoDup (map snd l) -> (0 <= M)%Q ->
  (forall pc, In pc l -> (g pc <= M)%Q) ->
  (total (fun pc => g pc * ind (String.eqb c (snd pc))) l <= M)%Q.
Proof.
  intros Hnd HM. induction l as [|[p x] l IH]; intros Hg.
  - rewrite total_nil. exact HM.
  - simpl in Hnd. inversion Hnd as [|? ? Hout Hnd']; subst.
    rewrite total_cons. cbn [snd].
    destruct (String.eqb_spec c x) as [->|Hne].
    + rewrite total_zero.
      * unfold ind. rewrite Qmult_1_r, Qplus_0_r. apply Hg. left. reflexivity.
      * intros [q y] Hin. cbn [snd].
        destruct (String.eqb_spec x y) as [->|_]; [|unfold ind; ring].
        exfalso. apply Hout. change y with (snd (q, y)). apply in_map, Hin.
    + unfold ind at 1. rewrite Qmult_0_r, Qplus_0_l.
      apply IH; [exact Hnd'|]. intros pc Hin. apply Hg. right. exact Hin.
Qed.

(** When no ranking is longer than the candidate list, no Borda score is
    negative; when moreover no ranking repeats a candidate, no score exceeds
    [(n - 1) * len(rankings)].  (A ranking longer than the candidate list
    gives negative points to its tail.) *)
Theorem borda_bounds (rs : list Ranking) (candidates : list string) :
  (forall r, In r rs ->
     (List.length (rankings r) <= List.length candidates)%nat) ->
  let n := Z.of_nat (List.length candidates) in
  exists scores, borda_count rs candidates = Ok scores
    /\ (forall c v, dict_get scores c = Some v -> (0 <= v)%Q)
    /\ ((forall r, In r rs -> NoDup (rankings r)) ->
        forall c v, dict_get scores c = Some v ->
          (v <= inject_Z ((n - 1) * Z.of_nat (List.length rs)))%Q).
Proof.
  intros Hlen n.
  destruct (borda_count_scores rs candidates) as (scores & Hs & Hk & Hsc).
  exists scores. split; [exact Hs|].
  assert (Hv : forall c v, dict_get scores c = Some v -> score scores c = v).
  { intros c v H. unfold score, dict_get_default. rewrite H. reflexivity. }
  split.
  - intros c v Hg. rewrite <- (Hv c v Hg), Hsc.
    apply total_nonneg. intros r Hr. unfold borda_points.
    apply total_nonneg. intros [p x] Hin. cbn [fst snd].
    apply enumerate_lt in Hin. specialize (Hlen r Hr).
    assert (H0 : (0 <= inject_Z (Z.of_nat (List.length candidates) - 1 - Z.of_nat p))%Q).
    { change 0%Q with (inject_Z 0). rewrite <- Zle_Qle. lia. }
    unfold ind. destruct (String.eqb c x), (contains candidates c); lra.
  - intros Hnd c v Hg. rewrite <- (Hv c v Hg), Hsc.
    assert (Hc : In c candidates).
    { apply (fromkeys_keys_In Q candidates 0%Q). rewrite <- Hk.
      apply dict_get_In. congruence. }
    assert (Hn : 1 <= n) by (unfold n; destruct candidates; [destruct Hc|simpl; lia]).
    apply Qle_trans with (total (fun _ : Ranking => inject_Z (n - 1)) rs);
      [apply total_le|].
    2: { clear -Hn. induction rs as [|r rs IH].
      * rewrite total_nil. simpl. rewrite Z.mul_0_r. apply Qle_refl.
      * rewrite total_cons. cbn [List.length].
        rewrite Nat2Z.inj_succ, Z.mul_succ_r, inject_Z_plus.
        rewrite Qplus_comm. apply Qplus_le_compat; [exact IH|apply Qle_refl]. }
    intros r Hr. unfold borda_points. fold n.
    rewrite (total_ext _
      (fun pc => (inject_Z (n - 1 - Z.of_nat (fst pc)) * ind (contains candidates c))
                 * ind (String.eqb c (snd pc)))%Q) by (intros pc _; ring).
    apply total_single.
    + rewrite enumerate_snd. apply Hnd, Hr.
    + change 0%Q with (inject_Z 0). rewrite <- Zle_Qle. lia.
    + intros [p x] _. cbn [fst].
      assert (H1 : (inject_Z (n - 1 - Z.of_nat p) <= inject_Z (n - 1))%Q)
        by (rewrite <- Zle_Qle; lia).
      assert (H2 : (0 <= inject_Z (n - 1))%Q)
        by (change 0%Q with (inject_Z 0); rewrite <- Zle_Qle; lia).
      unfold ind. destruct (contains candidates c); lra.
Qed.

Lemma rs_example_short (r : Ranking) :
  In r rs_example -> (List.length (rankings r) <= List.length candidates3)%nat.
Proof. intros [<-|[<-|[<-|[]]]]; simpl; lia. Qed.

(** [borda_bounds] on the three full rankings of the specification. *)
Lemma borda_bounds_witness :
  (forall r, In r rs_example ->
     (List.length (rankings r) <= List.length candidates3)%nat)
  /\ exists scores, borda_count rs_example candidates3 = Ok scores
       /\ (forall c v, dict_get scores c = Some v -> (0 <= v)%Q).
Proof.
  split; [exact rs_example_short|].
  destruct (borda_bounds rs_example candidates3 rs_example_short)
    as (scores & Hs & Hpos & _).
  exists scores. split; [exact Hs|exact Hpos].
Defined.

(** A ranking longer than the candidate list: negative points. *)
Example borda_negative :
  borda_count [mk "j" ["x"; "a"]%string] ["a"%string]
  = Ok [("a"%string, (-1)%Q)].
Proof. reflexivity. Qed.

(** ** Ranked pairs: what gets locked *)

(** [_creates_cycle] answers exactly whether the locked edges lead from
    [loser] back to [winner]; in particular an edge from a candidate to
    itself is always refused. *)
Theorem creates_cycle_exact (locked : list edge) (winner loser : string) :
  (_creates_cycle locked winner loser = true <-> reaches locked loser winner)
  /\ _creates_cycle locked winner winner = true.
Proof.
  split; [apply creates_cycle_reaches|].
  apply creates_cycle_reaches. constructor.
Qed.

Lemma edge_eqb_eq (e1 e2 : edge) : edge_eqb e1 e2 = true <-> e1 = e2.
Proof.
  destruct e1 as [a b], e2 as [c d]. unfold edge_eqb. cbn [fst snd].
  rewrite andb_true_iff, !String.eqb_eq. split; [intros [-> ->]|intros H; injection H]; auto.
Qed.

Lemma set_add_In (s : list edge) (x e : edge) :
  In e (set_add s x) <-> e = x \/ In e s.
Proof.
  unfold set_add. destruct (existsb (edge_eqb x) s) eqn:E.
  - split; [auto|]. intros [->|H]; [|exact H].
    apply existsb_exists in E. destruct E as (y & Hy & Heq).
    apply edge_eqb_eq in Heq. subst y. exact Hy.
  - rewrite in_app_iff. simpl. intuition congruence.
Qed.

Lemma set_add_NoDup (s : list edge) (x : edge) : NoDup s -> NoDup (set_add s x).
Proof.
  intros Hnd. unfold set_add. destruct (existsb (edge_eqb x) s) eqn:E; [exact Hnd|].
  apply NoDup_app; [exact Hnd|repeat constructor; simpl; tauto|].
  intros y Hy [Hxy|[]]. subst y.
  assert (Ht : existsb (edge_eqb x) s = true).
  { apply existsb_exists. exists x. split; [exact Hy|apply edge_eqb_eq; reflexivity]. }
  congruence.
Qed.

Lemma reaches_incl (E E' : list edge) (x y : string) :
  incl E E' -> reaches E x y -> reaches E' x y.
Proof.
  intros Hi Hr. induction Hr as [x|x y z Hxy _ IH]; [constructor|].
  eapply reaches_step; [apply Hi, Hxy|exact IH].
Qed.

(** The state of the loop of [_lock_pairs_without_cycles] after [pairs],
    started from [locked]. *)
Lemma lock_loop_facts (pairs : list (string * string * Z)) (locked : list edge) :
  let final :=
    fold_left (fun locked p =>
                 let '(winner, loser, margin) := p in
                 if negb (_creates_cycle locked winner loser)
                 then set_add locked (winner, loser) else locked)
              pairs locked in
  incl locked final
  /\ (NoDup locked -> NoDup final)
  /\ (forall w l m, In (w, l, m) pairs -> In (w, l) final \/ reaches final l w).
Proof.
  revert locked. induction pairs as [|[[w0 l0] m0] pairs IH]; intros locked final.
  - subst final. simpl. split; [apply incl_refl|]. split; [auto|]. intros w l m [].
  - subst final. cbn [fold_left].
    set (locked' := if negb (_creates_cycle locked w0 l0)
                    then set_add locked (w0, l0) else locked).
    destruct (IH locked') as (Hincl & Hnd & Hdec).
    assert (Hstep : incl locked locked').
    { unfold locked'. destruct (negb _); [|apply incl_refl].
      intros e He. apply set_add_In. right. exact He. }
    split; [eapply incl_tran; eassumption|]. split.
    + intros H. apply Hnd. unfold locked'.
      destruct (negb _); [apply set_add_NoDup, H|exact H].
    + intros w l m [Heq|Hin]; [|exact (Hdec w l m Hin)].
      injection Heq as -> -> ->. unfold locked' in Hincl.
      destruct (_creates_cycle locked w l) eqn:Hcc; cbn [negb] in Hincl.
      * right. apply creates_cycle_reaches in Hcc.
        eapply reaches_incl; [exact Hincl|exact Hcc].
      * left. apply Hincl, set_add_In. left. reflexivity.
Qed.

Lemma lock_pairs_facts (pairs : list (string * string * Z)) :
  NoDup (_lock_pairs_without_cycles pairs)
  /\ forall w l m, In (w, l, m) pairs ->
       (In (w, l) (_lock_pairs_without_cycles pairs)
        <-> ~ reaches (_lock_pairs_without_cycles pairs) l w).
Proof.
  destruct (lock_loop_facts pairs []) as (_ & Hnd & Hdec).
  fold (_lock_pairs_without_cycles pairs) in Hnd, Hdec.
  split; [apply Hnd; constructor|].
  intros w l m Hin. split.
  - intros Hl Hr. apply (lock_pairs_acyclic pairs w).
    exists l. split; assumption.
  - intros Hno. destruct (Hdec w l m Hin) as [H|H]; [exact H|contradiction].
Qed.

(** [_lock_pairs_without_cycles] returns a duplicate-free set of edges that
    all come from the input, and an input pair is locked exactly when the
    returned graph has no path from its loser back to its winner: nothing is
    skipped without need. *)
Theorem lock_pairs_maximal (pairs : list (string * string * Z)) :
  let locked := _lock_pairs_without_cycles pairs in
  NoDup locked
  /\ (forall e, In e locked -> exists m, In (fst e, snd e, m) pairs)
  /\ (forall w l m, In (w, l, m) pairs ->
        (In (w, l) locked <-> ~ reaches locked l w)).
Proof.
  intros locked. destruct (lock_pairs_facts pairs) as [Hnd Hiff].
  split; [exact Hnd|]. split; [|exact Hiff].
  intros e He. exact (lock_pairs_In pairs e He).
Qed.

(** ** Ranked pairs: the preference matrix holds the pairwise tallies *)

Lemma option_map_add_0 (x : option Z) : option_map (fun v => v + 0) x = x.
Proof. destruct x; simpl; [rewrite Z.add_0_r|]; reflexivity. Qed.

Lemma pref_step_exact (pref : dict (dict Z)) (c1 c2 : string) :
  exists pref', pref_step c1 pref c2 = Ok pref'
    /\ forall a b, matrix_get pref' a b
         = option_map (fun v => v + (if edge_eqb (a, b) (c1, c2) then 1 else 0))
                      (matrix_get pref a b).
Proof.
  unfold pref_step, dict_contains, dict_getitem.
  assert (Hsame : forall a b, matrix_get pref c1 c2 = None ->
            matrix_get pref a b
            = option_map (fun v => v + (if edge_eqb (a, b) (c1, c2) then 1 else 0))
                         (matrix_get pref a b)).
  { intros a b Hnone. destruct (edge_eqb (a, b) (c1, c2)) eqn:E.
    - apply edge_eqb_eq in E. injection E as -> ->. rewrite Hnone. reflexivity.
    - symmetry. apply option_map_add_0. }
  destruct (dict_get pref c1) as [row|] eqn:Hrow.
  2: { exists pref. split; [reflexivity|]. intros a b. apply Hsame.
       unfold matrix_get. rewrite Hrow. reflexivity. }
  cbn [bind]. destruct (dict_get row c2) as [v|] eqn:Hv.
  2: { exists pref. split; [reflexivity|]. intros a b. apply Hsame.
       unfold matrix_get. rewrite Hrow. exact Hv. }
  cbn [bind]. eexists. split; [reflexivity|]. intros a b.
  rewrite (matrix_get_setitem _ _ _ _ _ a b Hrow).
  unfold edge_eqb. cbn [fst snd].
  destruct (String.eqb_spec a c1) as [->|Ha]; cbn [andb].
  - destruct (String.eqb_spec b c2) as [->|Hb].
    + unfold matrix_get. rewrite Hrow, Hv. reflexivity.
    + symmetry. apply option_map_add_0.
  - symmetry. apply option_map_add_0.
Qed.

Lemma option_map_add_add (x : option Z) (n m : Z) :
  option_map (fun v => v + m) (option_map (fun v => v + n) x)
  = option_map (fun v => v + (n + m)) x.
Proof. destruct x; simpl; [f_equal; lia|reflexivity]. Qed.

(** One ranking adds to each cell the number of visits of its pair. *)
Lemma pref_order_exact (pref : dict (dict Z)) (order : list string) :
  exists pref',
    foldM (fun pref ic1 =>
             let '(i, c1) := ic1 in
             foldM (pref_step c1) (slice_from (i + 1) order) pref)
          (enumerate order) pref = Ok pref'
    /\ forall a b, matrix_get pref' a b
         = option_map (fun v => v + visits a b order) (matrix_get pref a b).
Proof.
  rewrite (nested_loop_pairs (fun pref c1 c2 => pref_step c1 pref c2)).
  unfold visits. generalize (all_pairs order) as ps. intros ps. revert pref.
  induction ps as [|[c1 c2] ps IH]; intros pref.
  - exists pref. split; [reflexivity|]. intros a b. simpl.
    symmetry. apply option_map_add_0.
  - cbn [foldM fst snd].
    destruct (pref_step_exact pref c1 c2) as (p1 & -> & H1). cbn [bind].
    destruct (IH p1) as (p2 & Hp2 & H2). exists p2. split; [exact Hp2|].
    intros a b. rewrite H2, H1, option_map_add_add. cbn [filter].
    destruct (edge_eqb (a, b) (c1, c2)); cbn [List.length];
      destruct (matrix_get pref a b); cbn [option_map]; try reflexivity;
      f_equal; lia.
Qed.

Lemma filter_edge_absent (a b x : string) (l : list string) :
  a <> x ->
  @filter (string * string) (edge_eqb (a, b)) (map (pair x) l) = [].
Proof.
  intros Hne. apply filter_none. intros e He. apply in_map_iff in He.
  destruct He as (y & <- & _). unfold edge_eqb. cbn [fst snd].
  destruct (String.eqb_spec a x); [congruence|reflexivity].
Qed.

Lemma filter_edge_head (x b : string) (l : list string) :
  NoDup l ->
  List.length (@filter (string * string) (edge_eqb (x, b)) (map (pair x) l))
  = if contains l b then 1%nat else 0%nat.
Proof.
  induction l as [|y l IH]; intros Hnd; [reflexivity|].
  inversion Hnd as [|? ? Hout Hnd']; subst.
  cbn [map filter]. unfold edge_eqb at 1. cbn [fst snd].
  rewrite String.eqb_refl. cbn [andb]. unfold contains. cbn [existsb].
  destruct (String.eqb_spec b y) as [->|Hne].
  - cbn [List.length orb]. rewrite (IH Hnd').
    apply contains_not_In in Hout. rewrite Hout. reflexivity.
  - cbn [orb]. exact (IH Hnd').
Qed.

(** In an order without repetition, the pair [(a, b)] is visited once when
    [a] comes strictly before [b], and never otherwise. *)
Lemma visits_NoDup (a b : string) (r : Ranking) :
  NoDup (rankings r) ->
  visits a b (rankings r) = if prefers a b r then 1 else 0.
Proof.
  unfold visits, prefers. generalize (rankings r) as l.
  induction l as [|x l IH]; intros Hnd; [reflexivity|].
  inversion Hnd as [|? ? Hout Hnd']; subst.
  cbn [all_pairs]. rewrite filter_app, length_app, Nat2Z.inj_add.
  match goal with
  | |- _ + ?t = _ =>
      replace t with (if contains l a && contains l b && (pos l a <? pos l b)%nat
                      then 1 else 0) by (symmetry; exact (IH Hnd'))
  end.
  unfold contains. cbn [existsb pos].
  rewrite (String.eqb_sym x a), (String.eqb_sym x b).
  destruct (String.eqb_spec a x) as [->|Ha]; cbn [orb].
  - rewrite (filter_edge_head x b l Hnd').
    apply contains_not_In in Hout. unfold contains in Hout. rewrite Hout.
    cbn [andb].
    destruct (String.eqb_spec b x) as [->|Hb]; cbn [orb].
    + unfold contains. rewrite Hout. reflexivity.
    + unfold contains. destruct (existsb (String.eqb b) l); reflexivity.
  - rewrite (filter_edge_absent a b x l Ha). cbn [List.length].
    destruct (String.eqb_spec b x) as [->|Hb]; cbn [orb].
    + apply contains_not_In in Hout. unfold contains in Hout. rewrite Hout.
      rewrite andb_false_r. cbn [andb]. rewrite andb_true_r.
      destruct (existsb (String.eqb a) l); reflexivity.
    + destruct (existsb (String.eqb a) l), (existsb (String.eqb b) l);
        cbn [andb]; reflexivity.
Qed.

Lemma build_preference_matrix_tally (rs : list Ranking) (candidates : list string) :
  (forall r, In r rs -> NoDup (rankings r)) ->
  exists pref, _build_preference_matrix rs candidates = Ok pref
    /\ forall a b, matrix_get pref a b
         = if contains candidates a && contains candidates b
           then Some (tally rs a b) else None.
Proof.
  intros Hnd. unfold _build_preference_matrix.
  set (init := build (fun _ : string => fromkeys candidates 0) candidates []).
  assert (Hinit : forall a b, matrix_get init a b
            = if contains candidates a && contains candidates b
              then Some 0 else None).
  { intros a b. unfold init, matrix_get. rewrite build_get.
    destruct (contains candidates a); cbn [andb]; [|reflexivity].
    apply fromkeys_get. }
  destruct (@foldM_prefix _ _
    (fun pre pref => forall a b,
       matrix_get pref a b
       = option_map (fun v => v + tally pre a b) (matrix_get init a b))
    (fun pref ranking =>
       foldM (fun pref ic1 =>
                let '(i, c1) := ic1 in
                foldM (pref_step c1) (slice_from (i + 1) (rankings ranking)) pref)
             (enumerate (rankings ranking)) pref)
    rs init) as (pref & Hpref & Hget).
  - intros a b. unfold tally. simpl. symmetry. apply option_map_add_0.
  - intros pre r post pref Hl Hget.
    destruct (pref_order_exact pref (rankings r)) as (pref' & Hp & H').
    exists pref'. split; [exact Hp|]. intros a b.
    rewrite H', Hget, option_map_add_add.
    assert (Hr : In r rs) by (rewrite Hl; apply in_or_app; right; left; reflexivity).
    rewrite (visits_NoDup a b r (Hnd r Hr)).
    assert (E : tally (pre ++ [r]) a b
                = tally pre a b + (if prefers a b r then 1 else 0)).
    { unfold tally. rewrite filter_app, length_app, Nat2Z.inj_add. cbn [filter].
      destruct (prefers a b r); reflexivity. }
    rewrite E. reflexivity.
  - exists pref. split; [exact Hpref|]. intros a b. rewrite Hget, Hinit.
    destruct (contains candidates a && contains candidates b); reflexivity.
Qed.

(** When no ranking repeats a candidate, the cell [pref[a][b]] built by
    [_build_preference_matrix] is the number of rankings that put [a]
    strictly before [b]: the tally [_count_pairwise_preferences] computes
    for Copeland. *)
Theorem preference_matrix_tally (rs : list Ranking) (candidates : list string) :
  (forall r, In r rs -> NoDup (rankings r)) ->
  exists pref, _build_preference_matrix rs candidates = Ok pref
    /\ forall a b, In a candidates -> In b candidates ->
         matrix_get pref a b = Some (tally rs a b)
         /\ _count_pairwise_preferences rs a b = Ok (tally rs a b, tally rs b a).
Proof.
  intros Hnd.
  destruct (build_preference_matrix_tally rs candidates Hnd) as (pref & Hp & Hget).
  exists pref. split; [exact Hp|]. intros a b Ha Hb. split.
  - rewrite Hget. apply contains_In in Ha, Hb. rewrite Ha, Hb. reflexivity.
  - apply count_pairwise_spec.
Qed.

Lemma rs_example_orders (r : Ranking) :
  In r rs_example -> NoDup (rankings r).
Proof.
  intros [<-|[<-|[<-|[]]]]; cbn [rankings mk];
    repeat constructor; simpl; intuition discriminate.
Qed.

(** [preference_matrix_tally] on the three full rankings of the
    specification: two of them put [r1] before [r2]. *)
Lemma preference_matrix_tally_witness :
  (forall r, In r rs_example -> NoDup (rankings r))
  /\ exists pref, _build_preference_matrix rs_example candidates3 = Ok pref
       /\ matrix_get pref "r1" "r2" = Some 2
       /\ _count_pairwise_preferences rs_example "r1" "r2" = Ok (2, 1).
Proof.
  split; [exact rs_example_orders|].
  destruct (preference_matrix_tally rs_example candidates3 rs_example_orders)
    as (pref & Hp & Hcells).
  exists pref. split; [exact Hp|].
  apply (Hcells "r1"%string "r2"%string); simpl; tauto.
Defined.

(** ** Ranked pairs: margins and scores *)

Lemma margin_step_exact (rs : list Ranking) (candidates : list string)
  (pref : dict (dict Z)) (c1 c2 : string) (pairs : list (string * string * Z)) :
  (forall a b, matrix_get pref a b
     = if contains candidates a && contains candidates b
       then Some (tally rs a b) else None) ->
  In c1 candidates -> In c2 candidates ->
  margin_step pref c1 pairs c2 = Ok (pairs ++ margin_edge rs (c1, c2)).
Proof.
  intros Hget H1 H2. unfold margin_step, dict_getitem, margin_edge. cbn [fst snd].
  pose proof (Hget c1 c2) as G12. pose proof (Hget c2 c1) as G21.
  apply contains_In in H1, H2. rewrite H1, H2 in G12, G21. cbn [andb] in G12, G21.
  unfold matrix_get in G12, G21.
  destruct (dict_get pref c1) as [row1|]; [|discriminate]. cbn [bind].
  rewrite G12. cbn [bind].
  destruct (dict_get pref c2) as [row2|]; [|discriminate]. cbn [bind].
  rewrite G21. cbn [bind].
  destruct (tally rs c1 c2 - tally rs c2 c1 >? 0); [reflexivity|].
  destruct (tally rs c1 c2 - tally rs c2 c1 <? 0); [reflexivity|].
  rewrite app_nil_r. reflexivity.
Qed.

Lemma calculate_margin_pairs_exact (rs : list Ranking) (candidates : list string)
  (pref : dict (dict Z)) :
  (forall a b, matrix_get pref a b
     = if contains candidates a && contains candidates b
       then Some (tally rs a b) else None) ->
  _calculate_margin_pairs candidates pref
  = Ok (flat_map (margin_edge rs) (all_pairs candidates)).
Proof.
  intros Hget. unfold _calculate_margin_pairs.
  rewrite (nested_loop_pairs (fun pairs c1 c2 => margin_step pref c1 pairs c2)).
  assert (G : forall ps acc,
    (forall p, In p ps -> In (fst p) candidates /\ In (snd p) candidates) ->
    foldM (fun s p => margin_step pref (fst p) s (snd p)) ps acc
    = Ok (acc ++ flat_map (margin_edge rs) ps)).
  { induction ps as [|[c1 c2] ps IH]; intros acc Hin.
    - simpl. rewrite app_nil_r. reflexivity.
    - cbn [foldM fst snd flat_map].
      destruct (Hin (c1, c2) (or_introl eq_refl)) as [H1 H2]. cbn [fst snd] in H1, H2.
      rewrite (margin_step_exact rs candidates pref c1 c2 acc Hget H1 H2).
      cbn [bind]. rewrite IH by (intros p Hp; apply Hin; right; exact Hp).
      rewrite app_assoc. reflexivity. }
  rewrite G; [reflexivity|].
  intros [a b] Hp. apply all_pairs_In in Hp. exact Hp.
Qed.

Lemma all_pairs_cover (l : list string) (a b : string) :
  In a l -> In b l -> a <> b ->
  In (a, b) (all_pairs l) \/ In (b, a) (all_pairs l).
Proof.
  induction l as [|x l IH]; intros Ha Hb Hne; [destruct Ha|].
  cbn [all_pairs]. rewrite !in_app_iff, !in_map_iff.
  destruct Ha as [->|Ha], Hb as [->|Hb].
  - congruence.
  - left. left. exists b. auto.
  - right. left. exists a. auto.
  - destruct (IH Ha Hb Hne); auto.
Qed.

Lemma margin_edge_In (rs : list Ranking) (p : string * string)
  (w l : string) (m : Z) :
  In (w, l, m) (margin_edge rs p) <->
  ((w, l) = p \/ (l, w) = p) /\ m = tally rs w l - tally rs l w /\ 0 < m.
Proof.
  destruct p as [a b]. unfold margin_edge. cbn [fst snd].
  destruct (Z.gtb_spec (tally rs a b - tally rs b a) 0) as [Hgt|Hle].
  - simpl. split.
    + intros [H|[]]. injection H as <- <- <-. split; [auto|]. split; [reflexivity|lia].
    + intros ([H|H] & -> & Hpos); injection H as <- <-; [auto|lia].
  - destruct (Z.ltb_spec (tally rs a b - tally rs b a) 0) as [Hlt|Hge].
    + simpl. split.
      * intros [H|[]]. injection H as <- <- <-. split; [auto|]. split; lia.
      * intros ([H|H] & -> & Hpos); injection H as <- <-; [lia|].
        left. f_equal. lia.
    + simpl. split; [tauto|].
      intros ([H|H] & -> & Hpos); injection H as <- <-; lia.
Qed.

Lemma margin_pairs_In (rs : list Ranking) (candidates : list string)
  (w l : string) (m : Z) :
  In (w, l, m) (flat_map (margin_edge rs) (all_pairs candidates)) <->
  In w candidates /\ In l candidates
  /\ m = tally rs w l - tally rs l w /\ 0 < m.
Proof.
  rewrite in_flat_map. split.
  - intros (p & Hp & Hin). apply margin_edge_In in Hin.
    destruct Hin as ([<-|<-] & Hm & Hpos); apply all_pairs_In in Hp; tauto.
  - intros (Hw & Hl & Hm & Hpos).
    assert (Hne : w <> l) by (intros ->; lia).
    destruct (all_pairs_cover candidates w l Hw Hl Hne) as [Hp|Hp].
    + exists (w, l). split; [exact Hp|]. apply margin_edge_In. auto.
    + exists (l, w). split; [exact Hp|]. apply margin_edge_In. auto.
Qed.

(** Stages 1 to 3 of [ranked_pairs] on rankings without repetition. *)
Lemma ranked_pairs_locked_exact (rs : list Ranking) (candidates : list string) :
  (forall r, In r rs -> NoDup (rankings r)) ->
  exists pairs,
    ranked_pairs_locked rs candidates = Ok (_lock_pairs_without_cycles pairs)
    /\ forall w l m, In (w, l, m) pairs <->
         In w candidates /\ In l candidates
         /\ m = tally rs w l - tally rs l w /\ 0 < m.
Proof.
  intros Hnd. unfold ranked_pairs_locked.
  destruct (build_preference_matrix_tally rs candidates Hnd) as (pref & -> & Hget).
  cbn [bind]. rewrite (calculate_margin_pairs_exact rs candidates pref Hget).
  cbn [bind]. eexists. split; [reflexivity|].
  intros w l m. rewrite sort_desc_In. apply margin_pairs_In.
Qed.

Lemma ranked_pairs_edges_spec (rs : list Ranking) (candidates : list string) :
  (forall r, In r rs -> NoDup (rankings r)) ->
  exists locked, ranked_pairs_locked rs candidates = Ok locked
    /\ (forall w l, In (w, l) locked ->
          In w candidates /\ In l candidates /\ tally rs l w < tally rs w l)
    /\ (forall w l, In w candidates -> In l candidates ->
          tally rs l w < tally rs w l ->
          (In (w, l) locked <-> ~ reaches locked l w)).
Proof.
  intros Hnd.
  destruct (ranked_pairs_locked_exact rs candidates Hnd) as (pairs & Hl & Hp).
  exists (_lock_pairs_without_cycles pairs). split; [exact Hl|]. split.
  - intros w l Hin. destruct (lock_pairs_In pairs (w, l) Hin) as (m & Hm).
    cbn [fst snd] in Hm. apply Hp in Hm. destruct Hm as (H1 & H2 & -> & Hpos).
    split; [exact H1|]. split; [exact H2|lia].
  - intros w l Hw Hlc Hlt.
    apply (proj2 (lock_pairs_facts pairs) w l (tally rs w l - tally rs l w)).
    apply Hp. split; [exact Hw|]. split; [exact Hlc|]. split; [reflexivity|lia].
Qed.

(** When no ranking repeats a candidate, [ranked_pairs] considers the edge
    [w -> l] with margin [m] exactly when [w] and [l] are candidates and [w]
    is ranked before [l] by [m > 0] more rankings than the other way round;
    such an edge is locked exactly when the locked graph has no path from
    [l] back to [w]. *)
Theorem ranked_pairs_edges (rs : list Ranking) (candidates : list string) :
  (forall r, In r rs -> NoDup (rankings r)) ->
  exists locked, ranked_pairs_locked rs candidates = Ok locked
    /\ (forall w l, In (w, l) locked ->
          In w candidates /\ In l candidates /\ tally rs l w < tally rs w l)
    /\ (forall w l, In w candidates -> In l candidates ->
          tally rs l w < tally rs w l ->
          (In (w, l) locked <-> ~ reaches locked l w)).
Proof. exact (ranked_pairs_edges_spec rs candidates). Qed.

(** [ranked_pairs_edges] on the three full rankings of the specification:
    every locked edge follows a strict majority. *)
Lemma ranked_pairs_edges_witness :
  (forall r, In r rs_example -> NoDup (rankings r))
  /\ exists locked, ranked_pairs_locked rs_example candidates3 = Ok locked
       /\ forall w l, In (w, l) locked ->
            tally rs_example l w < tally rs_example w l.
Proof.
  split; [exact rs_example_orders|].
  destruct (ranked_pairs_edges rs_example candidates3 rs_example_orders)
    as (locked & Hl & Hedges & _).
  exists locked. split; [exact Hl|].
  intros w l Hin. exact (proj2 (proj2 (Hedges w l Hin))).
Defined.

(** ** Ranked pairs: a score is an out-degree *)

Lemma ranked_pairs_outdegree (rs : list Ranking) (candidates : list string) :
  exists locked scores,
    ranked_pairs_locked rs candidates = Ok locked
    /\ ranked_pairs rs candidates = Ok scores
    /\ NoDup locked
    /\ (forall c, (score scores c == count (leaves c) locked)%Q)
    /\ (sum (values scores) == inject_Z (Z.of_nat (List.length locked)))%Q.
Proof.
  unfold ranked_pairs, ranked_pairs_locked.
  destruct (build_preference_matrix_ok rs candidates) as (pref & -> & Hpref).
  cbn [bind].
  destruct (calculate_margin_pairs_ok rs candidates pref Hpref) as (pairs & -> & Hpairs).
  cbn [bind].
  set (sorted := sort_desc _ pairs).
  set (locked := _lock_pairs_without_cycles sorted).
  assert (Hlocked : forall e, In e locked -> In (fst e) candidates).
  { intros e He. apply lock_pairs_In in He. destruct He as (m & Hm).
    apply sort_desc_In in Hm. destruct (Hpairs _ _ _ Hm) as (H1 & _). exact H1. }
  assert (Hnd : NoDup locked) by (apply (proj1 (lock_pairs_facts sorted))).
  clearbody locked.
  destruct (@foldM_prefix _ _
    (fun (pre : list edge) (scores : dict Q) =>
       keys scores = keys (fromkeys candidates 0%Q)
       /\ (forall c, (score scores c == count (leaves c) pre)%Q)
       /\ (sum (values scores) == inject_Z (Z.of_nat (List.length pre)))%Q)
    (fun scores e => dict_iadd scores (fst e) 1%Q) locked (fromkeys candidates 0%Q))
    as (scores & Hs & Hk & Hsc & Hsum).
  - split; [reflexivity|]. split.
    + intros c. rewrite score_fromkeys_zero. reflexivity.
    + apply sum_fromkeys_zero.
  - intros pre e post s0 Hl (Hk & Hsc & Hsum).
    assert (He : In e locked) by (rewrite Hl; apply in_or_app; right; left; reflexivity).
    assert (Hin : In (fst e) (keys s0))
      by (rewrite Hk; apply fromkeys_keys_In, Hlocked, He).
    destruct (dict_iadd_score s0 (fst e) 1%Q Hin) as (s1 & Hs1 & Hk1 & Hsum1 & Hsc1).
    exists s1. split; [exact Hs1|]. split; [congruence|]. split.
    + intros c. rewrite Hsc1, Hsc. unfold count.
      rewrite filter_app, length_app, Nat2Z.inj_add, inject_Z_plus.
      cbn [filter]. unfold leaves at 3. rewrite (String.eqb_sym c (fst e)).
      destruct (String.eqb (fst e) c); unfold ind; cbn [List.length]; simpl; ring.
    + rewrite Hsum1, Hsum, length_app, Nat2Z.inj_add, inject_Z_plus. reflexivity.
  - exists locked, scores. auto.
Qed.

(** The [ranked_pairs] score of a candidate is the number of locked edges
    that leave it, for every input; so the scores add up to the number of
    locked edges. *)
Theorem ranked_pairs_scores (rs : list Ranking) (candidates : list string) :
  exists locked scores,
    ranked_pairs_locked rs candidates = Ok locked
    /\ ranked_pairs rs candidates = Ok scores
    /\ (forall c, In c candidates ->
          exists v, dict_get scores c = Some v
                    /\ (v == count (leaves c) locked)%Q)
    /\ (sum (values scores) == inject_Z (Z.of_nat (List.length locked)))%Q.
Proof.
  destruct (ranked_pairs_outdegree rs candidates)
    as (locked & scores & Hl & Hs & _ & Hsc & Hsum).
  exists locked, scores. split; [exact Hl|]. split; [exact Hs|]. split; [|exact Hsum].
  intros c Hc.
  destruct (ranked_pairs_spec rs candidates) as (l' & s' & _ & _ & Hs' & (_ & Hk) & _).
  assert (s' = scores) by congruence. subst s'.
  assert (Hin : In c (keys scores)) by (apply Hk; exact Hc).
  apply dict_get_In in Hin.
  destruct (dict_get scores c) as [v|] eqn:Hg; [|congruence].
  exists v. split; [reflexivity|]. rewrite <- Hsc.
  unfold score, dict_get_default. rewrite Hg. reflexivity.
Qed.

(** ** Condorcet winners *)

Lemma get_winner_unique (scores : dict Q) (c : string) :
  In c (keys scores) ->
  (forall k, In k (keys scores) -> k <> c -> (score scores k < score scores c)%Q) ->
  get_winner scores = Ok c.
Proof.
  intros Hc Hlt. destruct scores as [|p d]; [destruct Hc|].
  destruct (get_winner_position p d) as (w & pre & post & Hw & Hk & Hpre & Hpost).
  rewrite Hw. f_equal. destruct (string_dec w c) as [E|Hne]; [exact E|].
  exfalso.
  assert (Hwk : In w (keys (p :: d)))
    by (rewrite Hk; apply in_or_app; right; left; reflexivity).
  pose proof (Hlt w Hwk Hne) as H1.
  assert (H2 : (score (p :: d) c <= score (p :: d) w)%Q).
  { rewrite Hk in Hc. apply in_app_or in Hc. destruct Hc as [Hc|[Hc|Hc]].
    - apply Qlt_le_weak, Hpre, Hc.
    - congruence.
    - apply Hpost, Hc. }
  exact (Qlt_not_le _ _ H1 H2).
Qed.

Lemma total_lt {A : Type} (f g : A -> Q) (l : list A) (x : A) :
  (forall y, In y l -> (f y <= g y)%Q) ->
  In x l -> (f x < g x)%Q -> (total f l < total g l)%Q.
Proof.
  induction l as [|y l IH]; intros Hle Hin Hlt; [destruct Hin|].
  rewrite !total_cons. destruct Hin as [->|Hin].
  - apply Qplus_lt_le_compat; [exact Hlt|].
    apply total_le. intros z Hz. apply Hle. right. exact Hz.
  - rewrite (Qplus_comm (f y)), (Qplus_comm (g y)).
    apply Qplus_lt_le_compat; [|apply Hle; left; reflexivity].
    apply IH; [|exact Hin|exact Hlt]. intros z Hz. apply Hle. right. exact Hz.
Qed.

Lemma copeland_condorcet (rs : list Ranking) (candidates : list string) (c : string) :
  NoDup candidates -> condorcet_winner rs candidates c ->
  exists wins, copeland_score rs candidates = Ok wins /\ get_winner wins = Ok c.
Proof.
  intros Hnd [Hc Hmaj].
  destruct (copeland_spec rs candidates) as (wins & Hw & (_ & Hkeys) & _ & Hsc).
  exists wins. split; [exact Hw|].
  assert (Hmajt : forall d, In d candidates -> d <> c -> tally rs d c < tally rs c d).
  { intros d Hd Hne. apply majority_tally, Hmaj; assumption. }
  assert (Hcs : (score wins c
                 == inject_Z (Z.of_nat (List.length candidates) - 1))%Q).
  { rewrite Hsc, <- (involved_NoDup c candidates Hnd Hc).
    apply total_ext. intros [a b] Hp.
    pose proof (all_pairs_NoDup candidates a b Hnd Hp) as Hab.
    apply all_pairs_In in Hp. destruct Hp as [Ha Hb].
    unfold gain, involved, ind. cbn [fst snd].
    destruct (String.eqb_spec c a) as [->|Hca].
    - pose proof (Hmajt b Hb (not_eq_sym Hab)) as Ht.
      destruct (Z.gtb_spec (tally rs a b) (tally rs b a)); [reflexivity|lia].
    - destruct (String.eqb_spec c b) as [->|Hcb]; cbn [orb].
      + pose proof (Hmajt a Ha Hab) as Ht.
        destruct (Z.gtb_spec (tally rs a b) (tally rs b a)); [lia|].
        destruct (Z.gtb_spec (tally rs b a) (tally rs a b)); [reflexivity|lia].
      + destruct (tally rs a b >? tally rs b a); [reflexivity|].
        destruct (tally rs b a >? tally rs a b); [reflexivity|]. ring. }
  apply get_winner_unique; [apply Hkeys, Hc|].
  intros d Hd Hne. apply Hkeys in Hd.
  rewrite Hcs, <- (involved_NoDup d candidates Hnd Hd), Hsc.
  destruct (all_pairs_cover candidates c d Hc Hd (not_eq_sym Hne)) as [Hp|Hp].
  - apply (total_lt _ _ _ (c, d)); [intros p _; apply gain_le_involved|exact Hp|].
    unfold gain, involved, ind. cbn [fst snd].
    pose proof (Hmajt d Hd Hne) as Ht.
    destruct (Z.gtb_spec (tally rs c d) (tally rs d c)); [|lia].
    destruct (String.eqb_spec d c); [congruence|].
    rewrite String.eqb_refl. reflexivity.
  - apply (total_lt _ _ _ (d, c)); [intros p _; apply gain_le_involved|exact Hp|].
    unfold gain, involved, ind. cbn [fst snd].
    pose proof (Hmajt d Hd Hne) as Ht.
    destruct (Z.gtb_spec (tally rs d c) (tally rs c d)); [lia|].
    destruct (Z.gtb_spec (tally rs c d) (tally rs d c)); [|lia].
    destruct (String.eqb_spec d c); [congruence|].
    rewrite String.eqb_refl. reflexivity.
Qed.

Lemma reaches_last (E : list edge) (x y : string) :
  reaches E x y -> x = y \/ exists z, In (z, y) E.
Proof.
  intros Hr. induction Hr as [x|x y z Hxy _ IH]; [left; reflexivity|].
  right. destruct IH as [<-|IH]; [exists x; exact Hxy|exact IH].
Qed.

Lemma filter_except (c : string) (l : list string) :
  NoDup l -> In c l ->
  S (List.length (filter (fun d => negb (String.eqb d c)) l)) = List.length l.
Proof.
  induction l as [|y l IH]; intros Hnd Hin; [destruct Hin|].
  inversion Hnd as [|? ? Hout Hnd']; subst. cbn [filter].
  destruct (String.eqb_spec y c) as [->|Hne]; cbn [negb List.length].
  - f_equal. f_equal. rewrite <- (filter_ext_in (fun _ => true)).
    + clear. induction l as [|z l IH]; simpl; [reflexivity|]. f_equal. exact IH.
    + intros z Hz. destruct (String.eqb_spec z c) as [->|_]; [contradiction|reflexivity].
  - f_equal. apply IH; [exact Hnd'|]. destruct Hin; [congruence|assumption].
Qed.

Lemma filter_except_absent (x : string) (l : list string) (p : string -> bool) :
  ~ In x l ->
  filter (fun d => negb (String.eqb d x) && p d) l = filter p l.
Proof.
  intros Hout. apply filter_ext_in. intros z Hz.
  destruct (String.eqb_spec z x) as [->|_]; [contradiction|reflexivity].
Qed.

Lemma filter_except_two (x c : string) (l : list string) :
  NoDup l -> In x l -> In c l -> x <> c ->
  S (S (List.length
          (filter (fun d => negb (String.eqb d x) && negb (String.eqb d c)) l)))
  = List.length l.
Proof.
  induction l as [|y l IH]; intros Hnd Hx Hc Hne; [destruct Hx|].
  inversion Hnd as [|? ? Hout Hnd']; subst. cbn [filter].
  destruct (String.eqb_spec y x) as [->|Hyx]; cbn [negb andb List.length].
  - f_equal. rewrite (filter_except_absent x l _ Hout).
    apply filter_except; [exact Hnd'|]. destruct Hc; [congruence|assumption].
  - destruct (String.eqb_spec y c) as [->|Hyc]; cbn [negb andb List.length].
    + f_equal.
      rewrite (filter_ext (fun d => negb (String.eqb d x) && negb (String.eqb d c))
                          (fun d => negb (String.eqb d c) && negb (String.eqb d x)))
        by (intros d; apply andb_comm).
      rewrite (filter_except_absent c l _ Hout).
      apply filter_except; [exact Hnd'|]. destruct Hx; [congruence|assumption].
    + f_equal. apply IH; [exact Hnd'| | |exact Hne].
      * destruct Hx; [congruence|assumption].
      * destruct Hc; [congruence|assumption].
Qed.

Lemma map_pair_NoDup (x : string) (l : list string) :
  NoDup l -> NoDup (map (pair x) l).
Proof.
  induction 1 as [|y l Hout Hnd IH]; simpl; constructor; [|exact IH].
  intros Hin. apply in_map_iff in Hin. destruct Hin as (z & Hz & Hzl).
  injection Hz as ->. contradiction.
Qed.

Lemma ranked_pairs_condorcet (rs : list Ranking) (candidates : list string)
  (c : string) :
  NoDup candidates -> (forall r, In r rs -> NoDup (rankings r)) ->
  condorcet_winner rs candidates c ->
  exists scores, ranked_pairs rs candidates = Ok scores /\ get_winner scores = Ok c.
Proof.
  intros Hnd Hord [Hc Hmaj].
  destruct (ranked_pairs_edges_spec rs candidates Hord) as (locked & Hl & Hedge & Hlock).
  destruct (ranked_pairs_outdegree rs candidates)
    as (locked' & scores & Hl' & Hs & Hndl & Hsc & _).
  assert (locked' = locked) by congruence. subst locked'.
  destruct (ranked_pairs_spec rs candidates) as (l0 & s0 & _ & _ & Hs0 & (_ & Hkeys) & _).
  assert (s0 = scores) by congruence. subst s0.
  exists scores. split; [exact Hs|].
  assert (Hmajt : forall d, In d candidates -> d <> c -> tally rs d c < tally rs c d).
  { intros d Hd Hne. apply majority_tally, Hmaj; assumption. }
  assert (Hinto : forall w, ~ In (w, c) locked).
  { intros w Hin. destruct (Hedge w c Hin) as (Hw & _ & Hlt).
    destruct (string_dec w c) as [->|Hne]; [lia|].
    pose proof (Hmajt w Hw Hne). lia. }
  assert (Hout : forall d, In d candidates -> d <> c -> In (c, d) locked).
  { intros d Hd Hne. apply (Hlock c d Hc Hd (Hmajt d Hd Hne)).
    intros Hr. apply reaches_last in Hr. destruct Hr as [E|(z & Hz)].
    - congruence.
    - exact (Hinto z Hz). }
  assert (Hdeg_c : List.length (filter (leaves c) locked)
                   = List.length (filter (fun d => negb (String.eqb d c)) candidates)).
  { rewrite <- (@length_map string (string * string) (pair c)
                  (filter (fun d => negb (String.eqb d c)) candidates)).
    apply Permutation_length.
    apply NoDup_Permutation.
    - apply NoDup_filter, Hndl.
    - apply map_pair_NoDup, NoDup_filter, Hnd.
    - intros [w l]. rewrite filter_In, in_map_iff. unfold leaves. cbn [fst]. split.
      + intros [Hin Hw]. apply String.eqb_eq in Hw. subst w.
        destruct (Hedge c l Hin) as (_ & Hlc & Hlt).
        exists l. split; [reflexivity|]. apply filter_In. split; [exact Hlc|].
        destruct (String.eqb_spec l c) as [->|_]; [lia|reflexivity].
      + intros (d & Hd & Hin). injection Hd as <- <-.
        apply filter_In in Hin. destruct Hin as [Hin Hne].
        split; [|apply String.eqb_refl]. apply Hout; [exact Hin|].
        intros ->. rewrite String.eqb_refl in Hne. discriminate. }
  assert (Hdeg_x : forall x, In x candidates -> x <> c ->
            (List.length (filter (leaves x) locked)
             <= List.length (filter (fun d => negb (String.eqb d x)
                                              && negb (String.eqb d c)) candidates))%nat).
  { intros x Hx Hne.
    rewrite <- (@length_map string (string * string) (pair x)
                  (filter (fun d => negb (String.eqb d x) && negb (String.eqb d c))
                          candidates)).
    apply NoDup_incl_length; [apply NoDup_filter, Hndl|].
    intros [w l] Hin. apply filter_In in Hin. destruct Hin as [Hin Hw].
    unfold leaves in Hw. cbn [fst] in Hw. apply String.eqb_eq in Hw. subst w.
    destruct (Hedge x l Hin) as (_ & Hlc & Hlt).
    apply in_map_iff. exists l. split; [reflexivity|].
    apply filter_In. split; [exact Hlc|].
    destruct (String.eqb_spec l x) as [->|_]; [lia|].
    destruct (String.eqb_spec l c) as [->|_]; [|reflexivity].
    exfalso. exact (Hinto x Hin). }
  apply get_winner_unique; [apply Hkeys, Hc|].
  intros x Hx Hne. apply Hkeys in Hx.
  rewrite !Hsc. unfold count. rewrite <- Zlt_Qlt. apply inj_lt.
  pose proof (filter_except c candidates Hnd Hc) as E1.
  pose proof (filter_except_two x c candidates Hnd Hx Hc Hne) as E2.
  specialize (Hdeg_x x Hx Hne). lia.
Qed.

(** A candidate that a strict majority of the rankings puts before each
    other candidate is the winner under Copeland, and, when no ranking
    repeats a candidate, under ranked pairs: no edge enters it, so every edge
    that leaves it is locked. *)
Theorem condorcet_consistency (rs : list Ranking) (candidates : list string)
  (c : string) :
  NoDup candidates -> condorcet_winner rs candidates c ->
  (exists wins, copeland_score rs candidates = Ok wins /\ get_winner wins = Ok c)
  /\ ((forall r, In r rs -> NoDup (rankings r)) ->
      exists scores, ranked_pairs rs candidates = Ok scores
                     /\ get_winner scores = Ok c).
Proof.
  intros Hnd Hcw. split.
  - exact (copeland_condorcet rs candidates c Hnd Hcw).
  - intros Hord. exact (ranked_pairs_condorcet rs candidates c Hnd Hord Hcw).
Qed.

Lemma rs_example_condorcet : condorcet_winner rs_example candidates3 "r1".
Proof.
  split; [left; reflexivity|].
  intros d [<-|[<-|[<-|[]]]] Hne; try (exfalso; apply Hne; reflexivity);
    unfold majority; simpl; lia.
Qed.

(** [condorcet_consistency] on the three full rankings of the
    specification, where [r1] beats [r2] by 2 to 1 and [r3] by 3 to 0. *)
Lemma condorcet_consistency_witness :
  NoDup candidates3
  /\ condorcet_winner rs_example candidates3 "r1"
  /\ (exists wins, copeland_score rs_example candidates3 = Ok wins
                   /\ get_winner wins = Ok "r1"%string)
  /\ (exists scores, ranked_pairs rs_example candidates3 = Ok scores
                     /\ get_winner scores = Ok "r1"%string).
Proof.
  split; [exact candidates3_NoDup|]. split; [exact rs_example_condorcet|].
  destruct (condorcet_consistency rs_example candidates3 "r1"%string
              candidates3_NoDup rs_example_condorcet) as [Hc Hr].
  split; [exact Hc|exact (Hr rs_example_orders)].
Defined.

(** ** The diversity score lies between 0 and 1 *)

Lemma total_le_length {A : Type} (f : A -> Q) (l : list A) :
  (forall x, In x l -> (f x <= 1)%Q) ->
  (total f l <= inject_Z (Z.of_nat (List.length l)))%Q.
Proof.
  intros H. rewrite <- (total_one (fun _ : A => 1%Q) l) by reflexivity.
  apply total_le. exact H.
Qed.

Lemma diversity_score_bounds (rs : list Ranking) (candidates : list string) :
  exists v, diversity_score rs candidates = Ok v /\ (0 <= v <= 1)%Q.
Proof.
  unfold diversity_score.
  destruct (Nat.ltb_spec (List.length rs) 2) as [Hlt|Hge].
  { exists 0%Q. split; [reflexivity|]. split; lra. }
  destruct (agreement_matrix_spec rs candidates) as (matrix & -> & Hnd & Hkeys & Hget).
  cbn [bind].
  destruct (diversity_loop rs candidates matrix (fun j => proj1 (Hkeys j)) Hget)
    as (t & -> & Ht).
  cbn [bind].
  set (pairs := all_pairs (keys matrix)) in *.
  destruct (Z.eqb_spec (Z.of_nat (List.length pairs)) 0) as [Hz|Hnz].
  { exists 0%Q. split; [reflexivity|]. split; lra. }
  rewrite truediv_nonzero by (apply inject_Z_nonzero; exact Hnz). cbn [bind].
  eexists. split; [reflexivity|].
  set (e := fun p : string * string =>
              match matrix_entry rs candidates (fst p) (snd p) with
              | Some v => v
              | None => 0%Q
              end) in Ht.
  assert (He : forall p, (0 <= e p <= 1)%Q).
  { intros p. unfold e, matrix_entry.
    destruct (last_by (fst p) rs); [|split; lra].
    destruct (last_by (snd p) rs); [apply entry_bounds|split; lra]. }
  assert (H0 : (0 <= t)%Q).
  { rewrite Ht. apply total_nonneg. intros p _. apply He. }
  assert (H1 : (t <= inject_Z (Z.of_nat (List.length pairs)))%Q).
  { rewrite Ht. apply total_le_length. intros p _. apply He. }
  assert (Hpos : (0 < inject_Z (Z.of_nat (List.length pairs)))%Q).
  { change 0%Q with (inject_Z 0). rewrite <- Zlt_Qlt. lia. }
  assert (Hd0 : (0 <= t / inject_Z (Z.of_nat (List.length pairs)))%Q).
  { apply Qle_shift_div_l; [exact Hpos|]. rewrite Qmult_0_l. exact H0. }
  assert (Hd1 : (t / inject_Z (Z.of_nat (List.length pairs)) <= 1)%Q).
  { apply Qle_shift_div_r; [exact Hpos|]. rewrite Qmult_1_l. exact H1. }
  split; lra.
Qed.

(** [diversity_score] returns a number in [0,1] for every input, as its
    docstring says: 0 is full agreement, 1 is full disagreement. *)
Theorem diversity_score_range (rs : list Ranking) (candidates : list string) :
  exists v, diversity_score rs candidates = Ok v /\ (0 <= v <= 1)%Q.
Proof. exact (diversity_score_bounds rs candidates). Qed.

(** ** Unanimous rankings *)

Lemma weighted_borda_scores (rs : list Ranking) (candidates : list string) :
  exists scores, weighted_borda rs candidates = Ok scores
    /\ complete candidates scores
    /\ forall c, (score scores c
                  == total (fun r => (confidence r * borda_points candidates r c)%Q) rs)%Q.
Proof.
  unfold weighted_borda.
  set (n := Z.of_nat (List.length candidates)).
  destruct (positional_rankings
              (fun r => weighted_borda_step n (confidence r))
              (fun r p => (inject_Z (n - 1 - Z.of_nat p) * confidence r)%Q)
              candidates
              ltac:(reflexivity) rs _ (complete_fromkeys candidates 0%Q))
    as (scores & Hs & Hk & _ & _ & Hsc).
  exists scores. split; [exact Hs|]. split.
  - exact (complete_keys candidates _ _ Hk (complete_fromkeys candidates 0%Q)).
  - intros c. rewrite Hsc, score_fromkeys_zero, Qplus_0_l.
    apply total_ext. intros r _. unfold borda_points. fold n.
    rewrite <- total_scale. apply total_ext. intros pc _. ring.
Qed.



Lemma total_const {A : Type} (k : Q) (l : list A) :
  (total (fun _ => k) l == k * inject_Z (Z.of_nat (List.length l)))%Q.
Proof.
  induction l as [|x l IH]; [rewrite total_nil; simpl; ring|].
  rewrite total_cons, IH. cbn [List.length].
  rewrite Nat2Z.inj_succ, <- Z.add_1_l, inject_Z_plus. ring.
Qed.


Section Unanimous.
Variable rs : list Ranking.
Variable candidates : list string.
Variable top : string.
Variable rest : list string.
Hypothesis Hrs : rs <> [].
Hypothesis Horder : NoDup (top :: rest).
Hypothesis Hcands : NoDup candidates.
Hypothesis Hsame : forall c, In c candidates <-> In c (top :: rest).
Hypothesis Hun : unanimous rs (top :: rest).










End Unanimous.

Lemma rs_unanimous_order : NoDup ["A"; "B"; "C"]%string.
Proof. repeat constructor; simpl; intuition discriminate. Qed.



(** * The callers in main.py *)

(** ** Merging keeps one entry per key *)

Section MergeFacts.
Variable A : Type.
Variable key : A -> string.





End MergeFacts.





(** ** Merging responses never replaces one *)





(** ** Dict comprehensions *)

Section DictOf.
Variable A : Type.
Variable V : Type.
Variable key : A -> string.
Variable val : A -> V.

Lemma dict_of_fold (l : list A) (d0 : dict V) (k : string) :
  let d := fold_left (fun d x => dict_setitem d (key x) (val x)) l d0 in
  (In k (keys d) <-> In k (map key l) \/ In k (keys d0))
  /\ (NoDup (keys d0) -> NoDup (keys d))
  /\ (forall v, dict_get d k = Some v ->
        (exists x, In x l /\ key x = k /\ val x = v) \/ dict_get d0 k = Some v).
Proof.
  revert d0. induction l as [|x l IH]; intros d0 d; subst d; cbn [fold_left map].
  - split; [simpl; tauto|]. split; [tauto|]. intros v H. right. exact H.
  - destruct (IH (dict_setitem d0 (key x) (val x))) as (H1 & H2 & H3).
    split; [|split].
    + rewrite H1, keys_setitem_In. simpl. intuition congruence.
    + intros Hnd. apply H2, keys_setitem_NoDup, Hnd.
    + intros v Hv. destruct (H3 v Hv) as [(y & Hy & Hk & Hval)|Hd].
      * left. exists y. split; [right; exact Hy|]. split; assumption.
      * destruct (string_dec (key x) k) as [E|N].
        -- rewrite E, dict_get_setitem_eq in Hd. injection Hd as Hd.
           left. exists x. split; [left; reflexivity|]. split; assumption.
        -- rewrite dict_get_setitem_neq in Hd by exact N. right. exact Hd.
Qed.

Lemma dict_of_keys_In (l : list A) (k : string) :
  In k (keys (dict_of key val l)) <-> In k (map key l).
Proof.
  unfold dict_of. rewrite (proj1 (dict_of_fold l [] k)). simpl. tauto.
Qed.

Lemma dict_of_keys_NoDup (l : list A) : NoDup (keys (dict_of key val l)).
Proof.
  unfold dict_of. apply (proj1 (proj2 (dict_of_fold l [] ""%string))).
  constructor.
Qed.

Lemma dict_of_get (l : list A) (k : string) (v : V) :
  dict_get (dict_of key val l) k = Some v ->
  exists x, In x l /\ key x = k /\ val x = v.
Proof.
  unfold dict_of. intros H.
  destruct (proj2 (proj2 (dict_of_fold l [] k)) v H) as [Hx|Hd];
    [exact Hx|discriminate Hd].
Qed.

Lemma dict_of_get_In (l : list A) (k : string) :
  In k (map key l) -> exists v, dict_get (dict_of key val l) k = Some v.
Proof.
  intros H. apply dict_of_keys_In, dict_get_In in H.
  destruct (dict_get (dict_of key val l) k) as [v|]; [exists v; reflexivity|].
  exfalso. apply H. reflexivity.
Qed.
End DictOf.


(** ** [compute_results] *)




(** ** [compare_all_methods] *)

(** [len(set(l)) == 1]: the list is not empty and its elements are equal. *)
Lemma nodup_length_one (l : list string) :
  (List.length (nodup string_dec l) =? 1)%nat = true
  <-> l <> [] /\ forall x y, In x l -> In y l -> x = y.
Proof.
  rewrite Nat.eqb_eq. split.
  - intros Hlen. destruct (nodup string_dec l) as [|a [|b t]] eqn:E;
      try discriminate Hlen.
    assert (Ha : forall x, In x l -> x = a).
    { intros x Hx. apply (nodup_In string_dec) in Hx. rewrite E in Hx.
      destruct Hx as [<-|[]]. reflexivity. }
    split.
    + intros ->. discriminate E.
    + intros x y Hx Hy. rewrite (Ha x Hx), (Ha y Hy). reflexivity.
  - intros [Hne Heq]. pose proof (NoDup_nodup string_dec l) as Hnd.
    destruct (nodup string_dec l) as [|a [|b t]] eqn:E.
    + exfalso. destruct l as [|x l]; [apply Hne; reflexivity|].
      assert (Hx : In x (nodup string_dec (x :: l)))
        by (apply nodup_In; left; reflexivity).
      rewrite E in Hx. destruct Hx.
    + reflexivity.
    + exfalso.
      assert (Hia : In a l) by (apply (nodup_In string_dec); rewrite E; simpl; tauto).
      assert (Hib : In b l) by (apply (nodup_In string_dec); rewrite E; simpl; tauto).
      inversion Hnd as [|? ? Hna _]. subst. apply Hna. left.
      symmetry. exact (Heq a b Hia Hib).
Qed.

(** The winner label [id_to_model.get(w, w)] of a winning response id. *)
Lemma winner_label (rs : list Response) (scores : dict Q) (w : string) :
  complete (map response_id rs) scores -> get_winner scores = Ok w ->
  let label := dict_get_default (dict_of response_id model rs) w w in
  match rs with
  | [] => w = ""%string /\ label = ""%string
  | _ :: _ => exists r, In r rs /\ response_id r = w /\ model r = label
  end.
Proof.
  intros Hc Hw label. subst label.
  pose proof (get_winner_candidate _ _ _ Hc Hw) as Hcand.
  destruct rs as [|r1 rest].
  - cbn [map] in Hcand. subst w. split; reflexivity.
  - cbn [map] in Hcand. change (In w (map response_id (r1 :: rest))) in Hcand.
    destruct (dict_of_get_In Response string response_id model (r1 :: rest) w Hcand)
      as (m & Hm).
    unfold dict_get_default. rewrite Hm.
    apply dict_of_get in Hm. destruct Hm as (r & Hr & Hid & Hmod).
    exists r. split; [exact Hr|]. split; assumption.
Qed.

Lemma compare_all_methods_spec (experiment : Experiment) (qid : string)
  (q : Question) :
  get_question_by_id (questions experiment) qid = Some q ->
  question_rankings q <> [] ->
  let rs := question_rankings q in
  let ids := map response_id (responses q) in
  let label := fun w => dict_get_default (dict_of response_id model (responses q)) w w in
  let entry := fun scores w =>
    mkMethodResult (relabel (dict_of response_id model (responses q)) scores)
                   (label w) in
  exists s1 s2 s3 s4 s5 w1 w2 w3 w4 w5,
    (borda_count rs ids = Ok s1 /\ complete ids s1 /\ get_winner s1 = Ok w1)
    /\ (weighted_borda rs ids = Ok s2 /\ complete ids s2 /\ get_winner s2 = Ok w2)
    /\ (copeland_score rs ids = Ok s3 /\ complete ids s3 /\ get_winner s3 = Ok w3)
    /\ (plurality rs ids = Ok s4 /\ complete ids s4 /\ get_winner s4 = Ok w4)
    /\ (ranked_pairs rs ids = Ok s5 /\ complete ids s5 /\ get_winner s5 = Ok w5)
    /\ compare_all_methods experiment qid
       = Returned
           (mkComparison qid (text q)
              [("borda"%string, entry s1 w1);
               ("weighted_borda"%string, entry s2 w2);
               ("copeland"%string, entry s3 w3);
               ("plurality"%string, entry s4 w4);
               ("ranked_pairs"%string, entry s5 w5)]
              (List.length
                 (nodup string_dec [label w1; label w2; label w3; label w4; label w5])
               =? 1)%nat
              (ground_truth q)).
Proof.
  intros Hq Hne. cbv zeta. unfold compare_all_methods. rewrite Hq.
  destruct (question_rankings q) as [|r0 rs0] eqn:Hrs; [contradiction|].
  cbn [List.length Nat.eqb]. rewrite <- Hrs. clear Hrs Hne r0 rs0.
  set (rs := question_rankings q). set (ids := map response_id (responses q)).
  destruct (method_complete rs ids "borda"%string borda_count)
    as (s1 & E1 & C1); [simpl; tauto|].
  destruct (method_complete rs ids "weighted_borda"%string weighted_borda)
    as (s2 & E2 & C2); [simpl; tauto|].
  destruct (method_complete rs ids "copeland"%string copeland_score)
    as (s3 & E3 & C3); [simpl; tauto|].
  destruct (method_complete rs ids "plurality"%string plurality)
    as (s4 & E4 & C4); [simpl; tauto|].
  destruct (method_complete rs ids "ranked_pairs"%string ranked_pairs)
    as (s5 & E5 & C5); [simpl; tauto|].
  destruct (get_winner_total s1) as (w1 & W1).
  destruct (get_winner_total s2) as (w2 & W2).
  destruct (get_winner_total s3) as (w3 & W3).
  destruct (get_winner_total s4) as (w4 & W4).
  destruct (get_winner_total s5) as (w5 & W5).
  exists s1, s2, s3, s4, s5, w1, w2, w3, w4, w5.
  repeat (split; [auto|]).
  unfold endpoint_methods. cbn [foldM].
  rewrite E1; cbn [bind]; rewrite W1; cbn [bind].
  rewrite E2; cbn [bind]; rewrite W2; cbn [bind].
  rewrite E3; cbn [bind]; rewrite W3; cbn [bind].
  rewrite E4; cbn [bind]; rewrite W4; cbn [bind].
  rewrite E5; cbn [bind]; rewrite W5; cbn [bind].
  reflexivity.
Qed.

Lemma dict_get_In_pair {V : Type} (d : dict V) (k : string) (v : V) :
  dict_get d k = Some v -> In (k, v) d.
Proof.
  induction d as [|[k0 v0] d IH]; [discriminate|]. cbn [dict_get].
  destruct (String.eqb_spec k0 k) as [->|N].
  - intros H. injection H as <-. left. reflexivity.
  - intros H. right. apply IH, H.
Qed.

Lemma dict_get_of_In {V : Type} (d : dict V) (k : string) (v : V) :
  NoDup (keys d) -> In (k, v) d -> dict_get d k = Some v.
Proof.
  induction d as [|[k0 v0] d IH]; intros Hnd Hin; [destruct Hin|].
  cbn [keys map fst] in Hnd. inversion Hnd as [|? ? Hout Hnd']. subst.
  cbn [dict_get]. destruct Hin as [E|Hin].
  - injection E as -> ->. rewrite String.eqb_refl. reflexivity.
  - destruct (String.eqb_spec k0 k) as [->|N]; [|apply IH; assumption].
    exfalso. apply Hout. unfold keys. apply in_map_iff.
    exists (k, v). split; [reflexivity|exact Hin].
Qed.

Lemma unanimous_flag (d : dict MethodResult) :
  NoDup (keys d) -> d <> [] ->
  ((List.length (nodup string_dec (map method_winner (values d))) =? 1)%nat = true
   <-> forall n1 n2 m1 m2,
         dict_get d n1 = Some m1 -> dict_get d n2 = Some m2 ->
         method_winner m1 = method_winner m2).
Proof.
  intros Hnd Hne. rewrite nodup_length_one. split.
  - intros [_ Heq] n1 n2 m1 m2 H1 H2.
    apply dict_get_In_pair in H1, H2. apply Heq.
    + apply in_map. unfold values. apply in_map_iff. exists (n1, m1). auto.
    + apply in_map. unfold values. apply in_map_iff. exists (n2, m2). auto.
  - intros H. split.
    + destruct d; [contradiction|discriminate].
    + intros x y Hx Hy.
      apply in_map_iff in Hx. destruct Hx as (m1 & <- & Hx).
      apply in_map_iff in Hy. destruct Hy as (m2 & <- & Hy).
      unfold values in Hx, Hy.
      apply in_map_iff in Hx. destruct Hx as ([n1 m1'] & E1 & Hx).
      apply in_map_iff in Hy. destruct Hy as ([n2 m2'] & E2 & Hy).
      cbn [snd] in E1, E2. subst m1' m2'.
      exact (H n1 n2 m1 m2 (dict_get_of_In d n1 m1 Hnd Hx)
                           (dict_get_of_In d n2 m2 Hnd Hy)).
Qed.

Lemma endpoint_method_names_NoDup : NoDup endpoint_method_names.
Proof. repeat constructor; simpl; intuition discriminate. Qed.

(** [compare_all_methods] answers 404 for an unknown question and 400 for a
    question without rankings, and lets no other exception escape.
    Otherwise it reports the five methods in the order of its table; the
    winner of a method is reported by the model name of a response that has
    the winning id (the empty string when the question has no responses);
    and [unanimous] is true exactly when the five reported winners are the
    same model name. *)
Theorem compare_all_methods_contract (experiment : Experiment) (qid : string) :
  match get_question_by_id (questions experiment) qid with
  | None =>
      compare_all_methods experiment qid
      = HTTPException 404 "Question not found"
  | Some q =>
      match question_rankings q with
      | [] =>
          compare_all_methods experiment qid
          = HTTPException 400 "No rankings available"
      | _ :: _ =>
          exists res,
            compare_all_methods experiment qid = Returned res
            /\ keys (comparison_methods res) = endpoint_method_names
            /\ (forall name mr,
                  dict_get (comparison_methods res) name = Some mr ->
                  exists method scores w,
                    dict_get endpoint_methods name = Some method
                    /\ method (question_rankings q)
                              (map response_id (responses q)) = Ok scores
                    /\ get_winner scores = Ok w
                    /\ match responses q with
                       | [] => w = ""%string /\ method_winner mr = ""%string
                       | _ :: _ =>
                           exists r, In r (responses q)
                                     /\ response_id r = w
                                     /\ model r = method_winner mr
                       end)
            /\ (comparison_unanimous res = true
                <-> forall n1 n2 m1 m2,
                      dict_get (comparison_methods res) n1 = Some m1 ->
                      dict_get (comparison_methods res) n2 = Some m2 ->
                      method_winner m1 = method_winner m2)
      end
  end.
Proof.
  destruct (get_question_by_id (questions experiment) qid) as [q|] eqn:Hq.
  2:{ unfold compare_all_methods. rewrite Hq. reflexivity. }
  destruct (question_rankings q) as [|r0 rs0] eqn:Hrs.
  { unfold compare_all_methods. rewrite Hq, Hrs. reflexivity. }
  rewrite <- Hrs.
  assert (Hne : question_rankings q <> []) by (rewrite Hrs; discriminate).
  clear Hrs r0 rs0.
  destruct (compare_all_methods_spec experiment qid q Hq Hne)
    as (s1 & s2 & s3 & s4 & s5 & w1 & w2 & w3 & w4 & w5
        & (E1 & C1 & W1) & (E2 & C2 & W2) & (E3 & C3 & W3)
        & (E4 & C4 & W4) & (E5 & C5 & W5) & Hres).
  eexists. split; [exact Hres|].
  cbn [comparison_methods comparison_unanimous].
  split; [reflexivity|]. split.
  - intros name mr H. cbn [dict_get] in H.
    repeat match type of H with
           | context [String.eqb ?a name] =>
               destruct (String.eqb_spec a name) as [<-|_]
           end; try discriminate H; injection H as <-; cbn [method_winner].
    + exists borda_count, s1, w1. repeat (split; [auto|]).
      exact (winner_label (responses q) s1 w1 C1 W1).
    + exists weighted_borda, s2, w2. repeat (split; [auto|]).
      exact (winner_label (responses q) s2 w2 C2 W2).
    + exists copeland_score, s3, w3. repeat (split; [auto|]).
      exact (winner_label (responses q) s3 w3 C3 W3).
    + exists plurality, s4, w4. repeat (split; [auto|]).
      exact (winner_label (responses q) s4 w4 C4 W4).
    + exists ranked_pairs, s5, w5. repeat (split; [auto|]).
      exact (winner_label (responses q) s5 w5 C5 W5).
  - match goal with
    | |- _ <-> (forall n1 n2 m1 m2, dict_get ?d n1 = _ -> _) =>
        assert (Hd : d <> []) by discriminate;
        exact (unanimous_flag d endpoint_method_names_NoDup Hd)
    end.
Qed.






(** ** [get_agreement_matrix] *)

Lemma mapM_Forall2 {A B : Type} (f : A -> result B) (P : A -> B -> Prop)
  (l : list A) :
  (forall x, In x l -> exists y, f x = Ok y /\ P x y) ->
  exists ys, mapM f l = Ok ys /\ Forall2 P l ys.
Proof.
  induction l as [|x l IH]; intros H.
  - exists []. split; [reflexivity|constructor].
  - destruct (H x (or_introl eq_refl)) as (y & Hy & Py).
    destruct IH as (ys & Hys & Pys); [intros z Hz; apply H; right; exact Hz|].
    exists (y :: ys). cbn [mapM]. rewrite Hy. cbn [bind]. rewrite Hys.
    split; [reflexivity|]. constructor; assumption.
Qed.

Lemma Forall2_nth_error {A B : Type} (P : A -> B -> Prop) (l : list A)
  (ys : list B) (i : nat) (x : A) :
  Forall2 P l ys -> nth_error l i = Some x ->
  exists y, nth_error ys i = Some y /\ P x y.
Proof.
  intros H. revert i. induction H as [|a b l ys Hab _ IH]; intros i Hi.
  - destruct i; discriminate Hi.
  - destruct i as [|i]; cbn [nth_error] in *.
    + injection Hi as <-. exists b. split; [reflexivity|exact Hab].
    + apply IH, Hi.
Qed.

Lemma Forall2_member {A B : Type} (P : A -> B -> Prop) (l : list A)
  (ys : list B) (y : B) :
  Forall2 P l ys -> In y ys -> exists x, In x l /\ P x y.
Proof.
  intros H. induction H as [|a b l ys Hab _ IH]; intros Hy; [destruct Hy|].
  destruct Hy as [<-|Hy].
  - exists a. split; [left; reflexivity|exact Hab].
  - destruct (IH Hy) as (x & Hx & Px). exists x. split; [right; exact Hx|exact Px].
Qed.

(** The array of [get_agreement_matrix] holds, at row [i] and column [j],
    the matrix entry of the [i]-th and the [j]-th judge. *)
Lemma agreement_array_cells (matrix_data : dict (dict Q)) (judges : list string) :
  (forall j1 j2, In j1 judges -> In j2 judges ->
     exists v, matrix_get matrix_data j1 j2 = Some v) ->
  exists array,
    mapM (fun j1 =>
            mapM (fun j2 =>
                    row <- dict_getitem matrix_data j1 ;;
                    dict_getitem row j2)
                 judges)
         judges = Ok array
    /\ List.length array = List.length judges
    /\ (forall row, In row array -> List.length row = List.length judges)
    /\ forall i j j1 j2,
         nth_error judges i = Some j1 -> nth_error judges j = Some j2 ->
         cell array i j = matrix_get matrix_data j1 j2.
Proof.
  intros Hall.
  destruct (mapM_Forall2
    (fun j1 =>
       mapM (fun j2 => row <- dict_getitem matrix_data j1 ;; dict_getitem row j2)
            judges)
    (fun j1 row =>
       Forall2 (fun j2 v => matrix_get matrix_data j1 j2 = Some v) judges row)
    judges) as (array & Harr & Hrows).
  { intros j1 H1. apply mapM_Forall2. intros j2 H2.
    destruct (Hall j1 j2 H1 H2) as (v & Hv). exists v. split; [|exact Hv].
    unfold matrix_get in Hv. unfold dict_getitem.
    destruct (dict_get matrix_data j1) as [row|]; [|discriminate Hv].
    cbn [bind]. rewrite Hv. reflexivity. }
  exists array. split; [exact Harr|]. split; [|split].
  - symmetry. exact (Forall2_length Hrows).
  - intros row Hrow.
    destruct (Forall2_member _ _ _ row Hrows Hrow) as (j1 & _ & Hr).
    symmetry. exact (Forall2_length Hr).
  - intros i j j1 j2 Hi Hj. unfold cell.
    destruct (Forall2_nth_error _ _ _ i j1 Hrows Hi) as (row & -> & Hrow).
    destruct (Forall2_nth_error _ _ _ j j2 Hrow Hj) as (v & -> & Hv).
    symmetry. exact Hv.
Qed.

(** [get_agreement_matrix] answers 404 for an unknown question and 400 for
    a question with fewer than two rankings, and lets no other exception
    escape.  Otherwise [judges] lists each judge name once; [matrix] is a
    square array with one row and one column per listed judge, whose cell
    [(i, j)] is the agreement of the last rankings of the [i]-th and [j]-th
    judge; so it is symmetric, with entries in [0,1] and a diagonal of
    ones; and [diversity_score] lies in [0,1]. *)
Theorem get_agreement_matrix_contract (experiment : Experiment) (qid : string) :
  match get_question_by_id (questions experiment) qid with
  | None =>
      get_agreement_matrix experiment qid
      = HTTPException 404 "Question not found"
  | Some q =>
      let rs := question_rankings q in
      let ids := map response_id (responses q) in
      ((List.length rs < 2)%nat ->
       get_agreement_matrix experiment qid
       = HTTPException 400 "Need at least 2 rankings for agreement analysis")
      /\ ((2 <= List.length rs)%nat ->
          exists res,
            get_agreement_matrix experiment qid = Returned res
            /\ NoDup (agreement_judges res)
            /\ (forall j, In j (agreement_judges res) <-> In j (map judge rs))
            /\ List.length (agreement_array res)
               = List.length (agreement_judges res)
            /\ (forall row, In row (agreement_array res) ->
                  List.length row = List.length (agreement_judges res))
            /\ (forall i j j1 j2,
                  nth_error (agreement_judges res) i = Some j1 ->
                  nth_error (agreement_judges res) j = Some j2 ->
                  exists v,
                    cell (agreement_array res) i j = Some v
                    /\ cell (agreement_array res) j i = Some v
                    /\ matrix_entry rs ids j1 j2 = Some v
                    /\ (0 <= v <= 1)%Q
                    /\ (i = j -> v = 1%Q))
            /\ diversity_score rs ids = Ok (agreement_diversity res)
            /\ (0 <= agreement_diversity res <= 1)%Q)
  end.
Proof.
  unfold get_agreement_matrix, ERR_QUESTION_NOT_FOUND.
  destruct (get_question_by_id (questions experiment) qid) as [q|]; [|reflexivity].
  cbv zeta.
  set (rs := question_rankings q). set (ids := map response_id (responses q)).
  destruct (Nat.ltb_spec (List.length rs) 2) as [Hlt|Hge].
  { split; [reflexivity|]. intros H. exfalso. lia. }
  split; [intros H; exfalso; lia|]. intros _.
  destruct (agreement_matrix_spec rs ids) as (matrix_data & -> & Hnd & Hkeys & Hget).
  destruct (diversity_score_bounds rs ids) as (d & Hd & Hrange).
  cbn [bind]. rewrite Hd. cbn [bind].
  assert (Hentry : forall j1 j2, In j1 (keys matrix_data) -> In j2 (keys matrix_data) ->
            exists r1 r2, last_by j1 rs = Some r1 /\ last_by j2 rs = Some r2
              /\ matrix_get matrix_data j1 j2 = Some (entry ids r1 r2)).
  { intros j1 j2 H1 H2. apply Hkeys in H1, H2. rewrite Hget. unfold matrix_entry.
    destruct (last_by j1 rs) as [r1|] eqn:E1;
      [|apply last_by_None in E1; contradiction].
    destruct (last_by j2 rs) as [r2|] eqn:E2;
      [|apply last_by_None in E2; contradiction].
    exists r1, r2. repeat split. }
  destruct (agreement_array_cells matrix_data (keys matrix_data))
    as (array & -> & Hlen & Hrows & Hcell).
  { intros j1 j2 H1 H2. destruct (Hentry j1 j2 H1 H2) as (r1 & r2 & _ & _ & H).
    eexists. exact H. }
  cbn [bind run]. eexists. split; [reflexivity|].
  cbn [agreement_judges agreement_array agreement_diversity].
  split; [exact Hnd|]. split; [exact Hkeys|]. split; [exact Hlen|].
  split; [exact Hrows|]. split; [|split; [reflexivity|exact Hrange]].
  intros i j j1 j2 Hi Hj.
  destruct (Hentry j1 j2 (nth_error_In _ _ Hi) (nth_error_In _ _ Hj))
    as (r1 & r2 & E1 & E2 & Hm).
  exists (entry ids r1 r2).
  rewrite (Hcell i j j1 j2 Hi Hj), (Hcell j i j2 j1 Hj Hi), !Hget.
  unfold matrix_entry. rewrite E1, E2.
  split; [reflexivity|]. split; [rewrite entry_sym; reflexivity|].
  split; [reflexivity|]. split; [apply entry_bounds|].
  intros ->. assert (j1 = j2) by congruence. subst j2.
  assert (r1 = r2) by congruence. subst r2.
  unfold entry. rewrite String.eqb_refl. reflexivity.
Qed.

(** * Convergence of a deliberation round *)

Lemma last_of_snoc (m : string) (pre : list Response) (x : Response) :
  last_of m (pre ++ [x])
  = if String.eqb (model x) m then Some x else last_of m pre.
Proof.
  induction pre as [|r pre IH]; cbn [app last_of].
  - destruct (String.eqb (model x) m); reflexivity.
  - rewrite IH. destruct (String.eqb (model x) m); reflexivity.
Qed.

(** A dict keyed by model holds, for each model, its last response. *)
Lemma by_model_get (rs : list Response) (m : string) :
  dict_get (dict_of model (fun r => r) rs) m = last_of m rs.
Proof.
  unfold dict_of. rewrite <- (rev_involutive rs).
  induction (rev rs) as [|x l IH]; [reflexivity|].
  cbn [rev]. rewrite fold_left_app, last_of_snoc. cbn [fold_left].
  destruct (String.eqb_spec (model x) m) as [<-|N].
  - apply dict_get_setitem_eq.
  - rewrite dict_get_setitem_neq by exact N. exact IH.
Qed.

Lemma similarity_fold (prev : dict Response) (items : list (string * Response))
  (acc : list Q) :
  fold_left (similarity_step prev) items acc
  = acc ++ flat_map (fun item => similarity_step prev [] item) items.
Proof.
  revert acc. induction items as [|[m c] items IH]; intros acc.
  - cbn [fold_left flat_map]. rewrite app_nil_r. reflexivity.
  - cbn [fold_left flat_map]. rewrite IH. unfold similarity_step.
    destruct (dict_get prev m) as [p|].
    + cbn [app]. rewrite <- app_assoc. reflexivity.
    + reflexivity.
Qed.

Lemma isclose_similarity (b : bool) :
  isclose (if b then 1%Q else 0%Q) 1 0 (1 # 1000000000) = b.
Proof. destruct b; reflexivity. Qed.

Lemma truthy_nonempty {A : Type} (l : list A) : truthy l = true <-> l <> [].
Proof. destruct l; simpl; split; congruence. Qed.

(** [check_convergence] returns [True] exactly when some model answered in
    both rounds and, for every such model, the content of its last current
    response equals the content of its last previous response.  Models that
    answered in one round only are ignored, and [threshold] has no effect. *)
Theorem check_convergence_exact (current previous : list Response) (threshold : Q) :
  check_convergence current previous threshold = true
  <-> (exists m c p, last_of m current = Some c /\ last_of m previous = Some p)
      /\ forall m c p, last_of m current = Some c -> last_of m previous = Some p ->
           content c = content p.
Proof.
  unfold check_convergence.
  set (prev := dict_of model (fun r => r) previous).
  set (curr := dict_of model (fun r => r) current).
  assert (Hcurr : forall m c, In (m, c) curr <-> last_of m current = Some c).
  { intros m c. rewrite <- by_model_get. fold curr. split.
    - apply dict_get_of_In. apply dict_of_keys_NoDup.
    - apply dict_get_In_pair. }
  assert (Hprev : forall m, dict_get prev m = last_of m previous)
    by (intros m; apply by_model_get).
  rewrite similarity_fold. cbn [app].
  set (sims := flat_map (fun item => similarity_step prev [] item) curr).
  assert (Hin : forall s, In s sims <->
            exists m c p, In (m, c) curr /\ dict_get prev m = Some p
              /\ s = if String.eqb (content c) (content p) then 1%Q else 0%Q).
  { intros s. unfold sims. rewrite in_flat_map. split.
    - intros ([m c] & Hmc & Hs). unfold similarity_step in Hs.
      destruct (dict_get prev m) as [p|] eqn:Hp; [|destruct Hs].
      destruct Hs as [<-|[]]. exists m, c, p. repeat split; assumption.
    - intros (m & c & p & Hmc & Hp & ->). exists (m, c). split; [exact Hmc|].
      unfold similarity_step. rewrite Hp. left. reflexivity. }
  assert (Hempty : forall m c p, last_of m current = Some c ->
            last_of m previous = Some p -> current <> [] /\ previous <> []).
  { intros m c p Hc Hp. split; intros ->; discriminate. }
  split.
  - intros H.
    destruct (negb (truthy previous) || negb (truthy current)); [discriminate|].
    destruct (truthy sims && forallb _ sims) eqn:E; [|discriminate].
    apply andb_true_iff in E. destruct E as [Hne Hall].
    rewrite forallb_forall in Hall. split.
    + destruct sims as [|s t] eqn:Es; [discriminate|].
      destruct (proj1 (Hin s) (or_introl eq_refl)) as (m & c & p & Hmc & Hp & _).
      exists m, c, p. split; [apply Hcurr, Hmc|rewrite <- Hprev; exact Hp].
    + intros m c p Hc Hp. apply String.eqb_eq.
      rewrite <- (isclose_similarity (String.eqb (content c) (content p))).
      apply Hall, Hin. exists m, c, p.
      split; [apply Hcurr, Hc|]. split; [rewrite Hprev; exact Hp|reflexivity].
  - intros [(m & c & p & Hc & Hp) Hall].
    destruct (Hempty m c p Hc Hp) as [Hcn Hpn].
    apply truthy_nonempty in Hcn, Hpn. rewrite Hcn, Hpn. cbn [negb orb].
    assert (Hs : In 1%Q sims).
    { apply Hin. exists m, c, p. split; [apply Hcurr, Hc|].
      split; [rewrite Hprev; exact Hp|].
      rewrite (Hall m c p Hc Hp), String.eqb_refl. reflexivity. }
    assert (Hne : truthy sims = true).
    { apply truthy_nonempty. intros E. rewrite E in Hs. destruct Hs. }
    rewrite Hne. cbn [andb].
    assert (Hfa : forallb (fun s => isclose s 1 0 (1 # 1000000000)) sims = true).
    { apply forallb_forall. intros s Hs'. apply Hin in Hs'.
      destruct Hs' as (m' & c' & p' & Hmc & Hp' & ->).
      rewrite isclose_similarity. apply String.eqb_eq.
      apply (Hall m' c' p'); [apply Hcurr, Hmc|rewrite <- Hprev; exact Hp']. }
    rewrite Hfa. reflexivity.
Qed.

(** * Ranking tokens and export cells *)

Section RankingLettersFacts.
Variable rank_letter_to_index : string -> option Z.

Lemma letter_step_selects (responses : list Response) (acc : list string)
  (t : string) :
  letter_step rank_letter_to_index responses acc t
  = Ok (acc ++ map response_id
                 (selected (selects rank_letter_to_index responses) [t])).
Proof.
  unfold letter_step, selects. cbn [selected].
  destruct (rank_letter_to_index t) as [idx|]; cbn [selected].
  2:{ cbn [map]. rewrite app_nil_r. reflexivity. }
  destruct (Z.leb_spec 0 idx) as [H0|H0]; cbn [andb].
  - destruct (Z.ltb_spec idx 0) as [Hn|_]; [lia|].
    destruct (Z.ltb_spec idx (Z.of_nat (List.length responses))) as [Hlt|Hge].
    + unfold list_getitem.
      destruct (nth_error responses (Z.to_nat idx)) as [r|] eqn:E.
      * reflexivity.
      * exfalso. apply nth_error_None in E. lia.
    + destruct (nth_error responses (Z.to_nat idx)) as [r|] eqn:E.
      * exfalso. assert (Hs : nth_error responses (Z.to_nat idx) <> None)
          by (rewrite E; discriminate).
        apply nth_error_Some in Hs. lia.
      * cbn [map]. rewrite app_nil_r. reflexivity.
  - destruct (Z.ltb_spec idx 0) as [_|Hn]; [|lia].
    cbn [map]. rewrite app_nil_r. reflexivity.
Qed.

Lemma letter_loop_selects (responses : list Response) (l : list string)
  (acc : list string) :
  foldM (letter_step rank_letter_to_index responses) l acc
  = Ok (acc ++ map response_id
                 (selected (selects rank_letter_to_index responses) l)).
Proof.
  revert acc. induction l as [|t l IH]; intros acc.
  - cbn [foldM selected map]. rewrite app_nil_r. reflexivity.
  - cbn [foldM]. rewrite letter_step_selects. cbn [bind]. rewrite IH.
    cbn [selected].
    destruct (selects rank_letter_to_index responses t);
      cbn [map app]; rewrite <- ?app_assoc, ?app_nil_r; reflexivity.
Qed.

Lemma selects_range (responses : list Response) (t : string) :
  (exists r, selects rank_letter_to_index responses t = Some r)
  <-> exists idx, rank_letter_to_index t = Some idx
                  /\ 0 <= idx < Z.of_nat (List.length responses).
Proof.
  unfold selects. destruct (rank_letter_to_index t) as [idx|].
  2:{ split; intros (x & H); [discriminate H|destruct H; discriminate]. }
  destruct (Z.ltb_spec idx 0) as [Hn|Hp].
  - split; [intros (r & H); discriminate H|].
    intros (i & E & Hi). injection E as <-. lia.
  - split.
    + intros (r & H). exists idx. split; [reflexivity|].
      assert (Hs : nth_error responses (Z.to_nat idx) <> None)
        by (rewrite H; discriminate).
      apply nth_error_Some in Hs. lia.
    + intros (i & E & Hi). injection E as <-.
      destruct (nth_error responses (Z.to_nat idx)) as [r|] eqn:E;
        [exists r; reflexivity|].
      exfalso. apply nth_error_None in E. lia.
Qed.

Lemma selects_In (responses : list Response) (t : string) (r : Response) :
  selects rank_letter_to_index responses t = Some r -> In r responses.
Proof.
  unfold selects. destruct (rank_letter_to_index t) as [idx|]; [|discriminate].
  destruct (idx <? 0); [discriminate|]. apply nth_error_In.
Qed.
End RankingLettersFacts.

Lemma selected_In {A B : Type} (f : A -> option B) (l : list A) (y : B) :
  In y (selected f l) <-> exists x, In x l /\ f x = Some y.
Proof.
  induction l as [|a l IH]; cbn [selected].
  - split; [intros []|intros (x & [] & _)].
  - destruct (f a) as [b|] eqn:E.
    + cbn [In]. rewrite IH. split.
      * intros [<-|(x & Hx & Hf)]; [exists a; split; [left; reflexivity|exact E]|].
        exists x. split; [right; exact Hx|exact Hf].
      * intros (x & [<-|Hx] & Hf); [left; congruence|].
        right. exists x. split; assumption.
    + rewrite IH. split.
      * intros (x & Hx & Hf). exists x. split; [right; exact Hx|exact Hf].
      * intros (x & [<-|Hx] & Hf); [congruence|]. exists x. split; assumption.
Qed.

Lemma selected_length {A B : Type} (f : A -> option B) (l : list A) :
  (List.length (selected f l) <= List.length l)%nat
  /\ (List.length (selected f l) = List.length l
      <-> forall x, In x l -> exists y, f x = Some y).
Proof.
  induction l as [|a l [IH1 IH2]]; cbn [selected List.length].
  - split; [lia|]. split; [intros _ x []|reflexivity].
  - destruct (f a) as [b|] eqn:E; cbn [List.length].
    + split; [lia|]. split.
      * intros H x [<-|Hx]; [exists b; exact E|]. apply IH2; [lia|exact Hx].
      * intros H. f_equal. apply IH2. intros x Hx. apply H. right. exact Hx.
    + split; [lia|]. split; [lia|].
      intros H. destruct (H a (or_introl eq_refl)) as (y & Hy). congruence.
Qed.

(** Whatever index [rank_letter_to_index] gives to a token,
    [ranking_letters_to_response_ids] never raises; it returns, in the order
    of the tokens, the id of the response at each index that is in range, so
    every id it returns is the id of one of the responses; tokens without an
    index or with an index out of range are dropped, and the result is as
    long as the token list exactly when every token has an index in range. *)
Theorem ranking_letters_only_responses (rank_letter_to_index : string -> option Z)
  (ranking_list : list string) (responses : list Response) :
  exists ids,
    ranking_letters_to_response_ids rank_letter_to_index ranking_list responses
    = Ok ids
    /\ ids = map response_id
               (selected (selects rank_letter_to_index responses) ranking_list)
    /\ (forall x, In x ids -> In x (map response_id responses))
    /\ (List.length ids <= List.length ranking_list)%nat
    /\ (List.length ids = List.length ranking_list
        <-> forall t, In t ranking_list ->
              exists idx, rank_letter_to_index t = Some idx
                          /\ 0 <= idx < Z.of_nat (List.length responses)).
Proof.
  unfold ranking_letters_to_response_ids. rewrite letter_loop_selects.
  cbn [app]. eexists. split; [reflexivity|]. split; [reflexivity|].
  rewrite length_map.
  destruct (selected_length (selects rank_letter_to_index responses) ranking_list)
    as [Hle Hiff].
  split; [|split; [exact Hle|]].
  - intros x Hx. apply in_map_iff in Hx. destruct Hx as (r & <- & Hr).
    apply selected_In in Hr. destruct Hr as (t & _ & Ht).
    apply in_map. exact (selects_In _ _ _ _ Ht).
  - rewrite Hiff. split; intros H t Ht; apply selects_range, H, Ht.
Qed.



(** * The order of the rankings *)

Lemma filter_length_perm {A : Type} (p : A -> bool) (l l' : list A) :
  Permutation l l' -> List.length (filter p l) = List.length (filter p l').
Proof.
  intros H. induction H as [|x l l' _ IH|x y l|l l' l'' _ IH1 _ IH2].
  - reflexivity.
  - cbn [filter]. destruct (p x); cbn [List.length]; congruence.
  - cbn [filter]. destruct (p x), (p y); reflexivity.
  - congruence.
Qed.

Lemma tally_perm (rs rs' : list Ranking) (a b : string) :
  Permutation rs rs' -> tally rs a b = tally rs' a b.
Proof. intros H. unfold tally. f_equal. apply filter_length_perm, H. Qed.

Lemma total_perm {A : Type} (f : A -> Q) (l l' : list A) :
  Permutation l l' -> (total f l == total f l')%Q.
Proof.
  intros H. induction H as [|x l l' _ IH|x y l|l l' l'' _ IH1 _ IH2].
  - reflexivity.
  - rewrite !total_cons, IH. reflexivity.
  - rewrite !total_cons. ring.
  - rewrite IH1. exact IH2.
Qed.

Lemma foldM_ext {St A : Type} (body body' : St -> A -> result St)
  (l : list A) (s : St) :
  (forall s0 x, In x l -> body s0 x = body' s0 x) ->
  foldM body l s = foldM body' l s.
Proof.
  revert s. induction l as [|x l IH]; intros s H; [reflexivity|].
  cbn [foldM]. rewrite (H s x (or_introl eq_refl)).
  destruct (body' s x) as [s1|e]; [|reflexivity]. cbn [bind].
  apply IH. intros s0 y Hy. apply H. right. exact Hy.
Qed.

Lemma build_ext {V : Type} (f g : string -> V) (l : list string) (d0 : dict V) :
  (forall c, In c l -> f c = g c) -> build f l d0 = build g l d0.
Proof.
  unfold build. revert d0. induction l as [|x l IH]; intros d0 H; [reflexivity|].
  cbn [fold_left]. rewrite (H x (or_introl eq_refl)).
  apply IH. intros c Hc. apply H. right. exact Hc.
Qed.

Lemma plurality_perm (rs rs' : list Ranking) (candidates : list string) :
  Permutation rs rs' -> plurality rs candidates = plurality rs' candidates.
Proof.
  intros Hp. unfold plurality.
  destruct (first_places_Ok rs) as (fp & Hfp & _).
  destruct (first_places_Ok rs') as (fp' & Hfp' & _).
  rewrite Hfp, Hfp'. cbn [bind]. f_equal. apply build_ext. intros c _.
  rewrite !Counter_count. do 2 f_equal.
  destruct (first_places_count rs c) as (fp0 & H0 & E0).
  destruct (first_places_count rs' c) as (fp1 & H1 & E1).
  assert (fp0 = fp) by congruence. assert (fp1 = fp') by congruence.
  subst fp0 fp1. rewrite E0, E1. apply filter_length_perm, Hp.
Qed.

Lemma copeland_perm (rs rs' : list Ranking) (candidates : list string) :
  Permutation rs rs' ->
  copeland_score rs candidates = copeland_score rs' candidates.
Proof.
  intros Hp. unfold copeland_score.
  apply foldM_ext. intros wins [i c1] _.
  apply foldM_ext. intros wins' c2 _.
  rewrite !count_pairwise_spec.
  rewrite (tally_perm rs rs' c1 c2 Hp), (tally_perm rs rs' c2 c1 Hp).
  reflexivity.
Qed.

Lemma margin_edge_perm (rs rs' : list Ranking) (p : string * string) :
  Permutation rs rs' -> margin_edge rs p = margin_edge rs' p.
Proof.
  intros Hp. unfold margin_edge.
  rewrite (tally_perm rs rs' (fst p) (snd p) Hp),
          (tally_perm rs rs' (snd p) (fst p) Hp).
  reflexivity.
Qed.

Lemma ranked_pairs_perm (rs rs' : list Ranking) (candidates : list string) :
  Permutation rs rs' -> (forall r, In r rs -> NoDup (rankings r)) ->
  ranked_pairs rs candidates = ranked_pairs rs' candidates.
Proof.
  intros Hp Hnd.
  assert (Hnd' : forall r, In r rs' -> NoDup (rankings r)).
  { intros r Hr. apply Hnd. apply (Permutation_in _ (Permutation_sym Hp)), Hr. }
  unfold ranked_pairs, ranked_pairs_locked.
  destruct (build_preference_matrix_tally rs candidates Hnd) as (pref & -> & Hget).
  destruct (build_preference_matrix_tally rs' candidates Hnd') as (pref' & -> & Hget').
  cbn [bind].
  rewrite (calculate_margin_pairs_exact rs candidates pref Hget).
  rewrite (calculate_margin_pairs_exact rs' candidates pref' Hget').
  cbn [bind].
  rewrite (flat_map_ext (margin_edge rs) (margin_edge rs')
             (fun p => margin_edge_perm rs rs' p Hp)).
  reflexivity.
Qed.

Lemma Qgt_bool_ext (a a' b b' : Q) :
  (a == a')%Q -> (b == b')%Q -> Qgt_bool a b = Qgt_bool a' b'.
Proof.
  intros Ha Hb. unfold Qgt_bool. f_equal.
  destruct (Qle_bool a b) eqn:E, (Qle_bool a' b') eqn:E'; try reflexivity.
  - apply Qle_bool_iff in E. rewrite Ha, Hb in E. apply Qle_bool_iff in E.
    congruence.
  - apply Qle_bool_iff in E'. rewrite <- Ha, <- Hb in E'.
    apply Qle_bool_iff in E'. congruence.
Qed.

Lemma max_loop_ext (key key' : string -> result Q) (l : list string)
  (best : string) (bk bk' : Q) :
  (forall x, In x l ->
     exists v v', key x = Ok v /\ key' x = Ok v' /\ (v == v')%Q) ->
  (bk == bk')%Q ->
  max_loop key best bk l = max_loop key' best bk' l.
Proof.
  revert best bk bk'. induction l as [|x l IH]; intros best bk bk' H Hb;
    [reflexivity|].
  cbn [max_loop].
  destruct (H x (or_introl eq_refl)) as (v & v' & -> & -> & Hv). cbn [bind].
  rewrite (Qgt_bool_ext v v' bk bk' Hv Hb).
  destruct (Qgt_bool v' bk'); apply IH; try assumption;
    intros y Hy; apply H; right; exact Hy.
Qed.

(** The winner depends on the keys, their order and the values only. *)
Lemma get_winner_ext (s s' : dict Q) :
  keys s = keys s' -> (forall c, (score s c == score s' c)%Q) ->
  get_winner s = get_winner s'.
Proof.
  intros Hk Hs. destruct s as [|p d], s' as [|p' d']; try discriminate Hk;
    [reflexivity|].
  unfold get_winner. rewrite Hk.
  assert (Hkey : forall x, In x (keys (p' :: d')) ->
            exists v v', dict_getitem (p :: d) x = Ok v
                         /\ dict_getitem (p' :: d') x = Ok v' /\ (v == v')%Q).
  { intros x Hx. exists (score (p :: d) x), (score (p' :: d') x).
    split; [apply dict_getitem_score; rewrite Hk; exact Hx|].
    split; [apply dict_getitem_score; exact Hx|apply Hs]. }
  change (keys (p' :: d')) with (fst p' :: keys d') in *.
  cbn [py_max].
  destruct (Hkey (fst p') (or_introl eq_refl)) as (v & v' & -> & -> & Hv).
  cbn [bind]. apply max_loop_ext; [|exact Hv].
  intros x Hx. apply Hkey. right. exact Hx.
Qed.

Lemma borda_count_perm (rs rs' : list Ranking) (candidates : list string) :
  Permutation rs rs' ->
  exists s s',
    borda_count rs candidates = Ok s /\ borda_count rs' candidates = Ok s'
    /\ keys s = keys s'
    /\ (forall c, (score s c == score s' c)%Q)
    /\ get_winner s = get_winner s'.
Proof.
  intros Hp.
  destruct (borda_count_scores rs candidates) as (s & Hs & Hk & Hsc).
  destruct (borda_count_scores rs' candidates) as (s' & Hs' & Hk' & Hsc').
  exists s, s'. split; [exact Hs|]. split; [exact Hs'|].
  assert (Hkeys : keys s = keys s') by congruence.
  assert (Hscore : forall c, (score s c == score s' c)%Q).
  { intros c. rewrite Hsc, Hsc'. apply total_perm, Hp. }
  split; [exact Hkeys|]. split; [exact Hscore|].
  apply get_winner_ext; assumption.
Qed.

(** The order in which the rankings are given does not matter to
    [plurality], [copeland_score] and, when no ranking repeats a candidate,
    [ranked_pairs]: they return the same score map for a permutation of the
    rankings.  [borda_count] returns the same keys in the same order with
    equal scores, hence the same winner.  (The confidence-weighted sums of
    [weighted_borda] are float sums and are not covered.) *)
Theorem rankings_order_irrelevant (rs rs' : list Ranking)
  (candidates : list string) :
  Permutation rs rs' ->
  plurality rs candidates = plurality rs' candidates
  /\ copeland_score rs candidates = copeland_score rs' candidates
  /\ ((forall r, In r rs -> NoDup (rankings r)) ->
      ranked_pairs rs candidates = ranked_pairs rs' candidates)
  /\ exists s s',
       borda_count rs candidates = Ok s /\ borda_count rs' candidates = Ok s'
       /\ keys s = keys s'
       /\ (forall c, (score s c == score s' c)%Q)
       /\ get_winner s = get_winner s'.
Proof.
  intros Hp. split; [exact (plurality_perm rs rs' candidates Hp)|].
  split; [exact (copeland_perm rs rs' candidates Hp)|].
  split; [exact (ranked_pairs_perm rs rs' candidates Hp)|].
  exact (borda_count_perm rs rs' candidates Hp).
Qed.

(** [rankings_order_irrelevant] on the three rankings of the specification
    with the first two exchanged. *)
Lemma rankings_order_irrelevant_witness :
  Permutation rs_example
    [ mk "j2" ["r2"; "r1"; "r3"]%string;
      mk "j1" ["r1"; "r2"; "r3"]%string;
      mk "j3" ["r1"; "r3"; "r2"]%string ]
  /\ copeland_score rs_example candidates3
     = copeland_score
         [ mk "j2" ["r2"; "r1"; "r3"]%string;
           mk "j1" ["r1"; "r2"; "r3"]%string;
           mk "j3" ["r1"; "r3"; "r2"]%string ] candidates3.
Proof.
  assert (Hp : Permutation rs_example
                 [ mk "j2" ["r2"; "r1"; "r3"]%string;
                   mk "j1" ["r1"; "r2"; "r3"]%string;
                   mk "j3" ["r1"; "r3"; "r2"]%string ])
    by (unfold rs_example; apply perm_swap).
  split; [exact Hp|].
  exact (proj1 (proj2 (rankings_order_irrelevant rs_example _ candidates3 Hp))).
Defined.

(** * The majority criterion *)

Lemma filter_disjoint_length {A : Type} (p q : A -> bool) (l : list A) :
  (forall x, In x l -> p x = true -> q x = false) ->
  (List.length (filter p l) + List.length (filter q l) <= List.length l)%nat.
Proof.
  induction l as [|x l IH]; intros H; [simpl; lia|].
  assert (IH' := IH (fun y Hy => H y (or_intror Hy))).
  cbn [filter]. pose proof (H x (or_introl eq_refl)) as Hx.
  destruct (p x); [rewrite (Hx eq_refl)|destruct (q x)]; cbn [List.length]; lia.
Qed.

Lemma filter_subset_length {A : Type} (p q : A -> bool) (l : list A) :
  (forall x, In x l -> p x = true -> q x = true) ->
  (List.length (filter p l) <= List.length (filter q l))%nat.
Proof.
  induction l as [|x l IH]; intros H; [simpl; lia|].
  assert (IH' := IH (fun y Hy => H y (or_intror Hy))).
  cbn [filter]. pose proof (H x (or_introl eq_refl)) as Hx.
  destruct (p x); [rewrite (Hx eq_refl)|destruct (q x)]; cbn [List.length]; lia.
Qed.

Lemma first_choice_exclusive (c d : string) (r : Ranking) :
  d <> c -> first_choice_is c r = true -> first_choice_is d r = false.
Proof.
  unfold first_choice_is. destruct (rankings r) as [|x order]; [discriminate|].
  intros Hne Hc. apply String.eqb_eq in Hc. subst x.
  apply String.eqb_neq. congruence.
Qed.

Lemma first_choice_prefers (c d : string) (r : Ranking) :
  d <> c -> In d (rankings r) -> first_choice_is c r = true ->
  prefers c d r = true.
Proof.
  unfold first_choice_is, prefers.
  destruct (rankings r) as [|x order]; [discriminate|].
  intros Hne Hd Hc. apply String.eqb_eq in Hc. subst x.
  rewrite (proj2 (contains_In (c :: order) c) (or_introl eq_refl)).
  rewrite (proj2 (contains_In (c :: order) d) Hd).
  cbn [andb pos]. rewrite String.eqb_refl.
  destruct (String.eqb_spec c d) as [E|_]; [congruence|reflexivity].
Qed.

Lemma plurality_majority (rs : list Ranking) (candidates : list string)
  (c : string) :
  In c candidates ->
  (List.length rs < 2 * List.length (filter (first_choice_is c) rs))%nat ->
  exists s, plurality rs candidates = Ok s /\ get_winner s = Ok c.
Proof.
  intros Hc Hmaj.
  destruct (plurality_counts_spec rs candidates) as (s & Hs & Hget & _).
  destruct (plurality_complete rs candidates) as (s' & Hs' & Hcomp & _).
  assert (s' = s) by congruence. subst s'.
  exists s. split; [exact Hs|].
  assert (Hscore : forall k, In k candidates ->
            score s k = count (first_choice_is k) rs).
  { intros k Hk. unfold score, dict_get_default. rewrite (Hget k Hk). reflexivity. }
  apply get_winner_unique.
  - apply Hcomp, Hc.
  - intros k Hk Hne. apply Hcomp in Hk.
    rewrite (Hscore k Hk), (Hscore c Hc). unfold count.
    rewrite <- Zlt_Qlt.
    pose proof (filter_disjoint_length (first_choice_is c) (first_choice_is k) rs
                  (fun r _ => first_choice_exclusive c k r Hne)).
    lia.
Qed.

Lemma majority_condorcet (rs : list Ranking) (candidates : list string)
  (c : string) :
  In c candidates ->
  (List.length rs < 2 * List.length (filter (first_choice_is c) rs))%nat ->
  (forall r d, In r rs -> In d candidates -> In d (rankings r)) ->
  condorcet_winner rs candidates c.
Proof.
  intros Hc Hmaj Hfull. split; [exact Hc|].
  intros d Hd Hne. unfold majority.
  pose proof (filter_subset_length (first_choice_is c) (prefers c d) rs
                (fun r Hr => first_choice_prefers c d r Hne (Hfull r d Hr Hd))).
  lia.
Qed.

(** A candidate that more than half of the rankings put first wins under
    [plurality]; when every ranking lists all the candidates it also wins
    under [copeland_score] and, when moreover no ranking repeats a
    candidate, under [ranked_pairs]. *)
Theorem majority_criterion (rs : list Ranking) (candidates : list string)
  (c : string) :
  NoDup candidates -> In c candidates ->
  (List.length rs < 2 * List.length (filter (first_choice_is c) rs))%nat ->
  (exists s, plurality rs candidates = Ok s /\ get_winner s = Ok c)
  /\ ((forall r d, In r rs -> In d candidates -> In d (rankings r)) ->
      (exists s, copeland_score rs candidates = Ok s /\ get_winner s = Ok c)
      /\ ((forall r, In r rs -> NoDup (rankings r)) ->
          exists s, ranked_pairs rs candidates = Ok s /\ get_winner s = Ok c)).
Proof.
  intros Hnd Hc Hmaj. split; [exact (plurality_majority rs candidates c Hc Hmaj)|].
  intros Hfull.
  pose proof (majority_condorcet rs candidates c Hc Hmaj Hfull) as Hcw.
  split; [exact (copeland_condorcet rs candidates c Hnd Hcw)|].
  intros Hord. exact (ranked_pairs_condorcet rs candidates c Hnd Hord Hcw).
Qed.

(** [majority_criterion] on the three rankings of the specification: two
    of the three put [r1] first. *)
Lemma majority_criterion_witness :
  NoDup candidates3 /\ In "r1"%string candidates3
  /\ (List.length rs_example
      < 2 * List.length (filter (first_choice_is "r1") rs_example))%nat
  /\ exists s, plurality rs_example candidates3 = Ok s
               /\ get_winner s = Ok "r1"%string.
Proof.
  assert (Hin : In "r1"%string candidates3) by (left; reflexivity).
  assert (Hmaj : (List.length rs_example
                  < 2 * List.length (filter (first_choice_is "r1") rs_example))%nat)
    by (simpl; lia).
  split; [exact candidates3_NoDup|]. split; [exact Hin|]. split; [exact Hmaj|].
  exact (proj1 (majority_criterion rs_example candidates3 "r1"%string
                  candidates3_NoDup Hin Hmaj)).
Defined.

(** [borda_count] does not have this property: with three rankings
    A > B > C and two rankings B > C > A, A is the first choice of a
    majority and B has the higher Borda score. *)
Example borda_majority_failure :
  let rs := [ mk "j1" ["A"; "B"; "C"]; mk "j2" ["A"; "B"; "C"];
              mk "j3" ["A"; "B"; "C"]; mk "j4" ["B"; "C"; "A"];
              mk "j5" ["B"; "C"; "A"] ]%string in
  (List.length rs < 2 * List.length (filter (first_choice_is "A") rs))%nat
  /\ (s <- borda_count rs ["A"; "B"; "C"]%string ;; get_winner s)
     = Ok "B"%string.
Proof. split; [simpl; lia|reflexivity]. Qed.

(** * Two judges: agreement and opposite orders *)

Lemma pos_lt_length (l : list string) (x : string) :
  In x l -> (pos l x < List.length l)%nat.
Proof.
  induction l as [|a l IH]; intros H; [destruct H|]. cbn [pos List.length].
  destruct (String.eqb_spec a x) as [_|N]; [lia|].
  destruct H as [E|H]; [congruence|]. specialize (IH H). lia.
Qed.

Lemma pos_app (l1 l2 : list string) (x : string) :
  pos (l1 ++ l2) x
  = if contains l1 x then pos l1 x else (List.length l1 + pos l2 x)%nat.
Proof.
  induction l1 as [|a l1 IH]; [reflexivity|].
  cbn [app pos List.length]. unfold contains. cbn [existsb].
  rewrite (String.eqb_sym x a).
  destruct (String.eqb a x); [reflexivity|]. cbn [orb].
  fold (contains l1 x). rewrite IH. destruct (contains l1 x); reflexivity.
Qed.

Lemma pos_rev (l : list string) (x : string) :
  NoDup l -> In x l ->
  pos (rev l) x = (List.length l - 1 - pos l x)%nat.
Proof.
  induction l as [|a l IH]; intros Hnd Hx; [destruct Hx|].
  inversion Hnd as [|? ? Hout Hnd']. subst.
  cbn [rev]. rewrite pos_app. cbn [pos List.length].
  destruct (String.eqb_spec a x) as [->|N].
  - assert (Hc : contains (rev l) x = false).
    { apply contains_not_In. intros H. apply Hout, in_rev, H. }
    rewrite Hc, length_rev. lia.
  - destruct Hx as [E|Hx]; [congruence|].
    assert (Hc : contains (rev l) x = true) by (apply contains_In, in_rev; rewrite rev_involutive; exact Hx).
    rewrite Hc, (IH Hnd' Hx). pose proof (pos_lt_length l x Hx). lia.
Qed.

Lemma pos_inj (l : list string) (x y : string) :
  In x l -> In y l -> pos l x = pos l y -> x = y.
Proof.
  induction l as [|a l IH]; intros Hx Hy; [destruct Hx|]. cbn [pos].
  destruct (String.eqb_spec a x) as [<-|Nx], (String.eqb_spec a y) as [<-|Ny];
    try reflexivity; try discriminate.
  intros E. injection E as E.
  destruct Hx as [?|Hx]; [congruence|]. destruct Hy as [?|Hy]; [congruence|].
  exact (IH Hx Hy E).
Qed.

(** Opposite orders disagree on every pair of distinct entries. *)
Lemma agree_rev (r1 r2 : Ranking) (a b : string) :
  NoDup (rankings r1) -> rankings r2 = rev (rankings r1) -> a <> b ->
  In a (rankings r1) -> In b (rankings r1) ->
  agree r1 r2 (a, b) = false.
Proof.
  intros Hnd Hrev Hne Ha Hb. unfold agree. cbn [fst snd].
  rewrite Hrev, (pos_rev _ a Hnd Ha), (pos_rev _ b Hnd Hb).
  pose proof (pos_lt_length _ a Ha) as La.
  pose proof (pos_lt_length _ b Hb) as Lb.
  assert (Hd : pos (rankings r1) a <> pos (rankings r1) b).
  { intros E. apply Hne. exact (pos_inj _ a b Ha Hb E). }
  destruct (Nat.ltb_spec (pos (rankings r1) a) (pos (rankings r1) b)) as [H1|H1];
    destruct (Nat.ltb_spec (List.length (rankings r1) - 1 - pos (rankings r1) a)
                (List.length (rankings r1) - 1 - pos (rankings r1) b)) as [H2|H2];
    try reflexivity; exfalso; lia.
Qed.

Lemma agreements_rev (r1 r2 : Ranking) (candidates : list string) :
  NoDup candidates -> NoDup (rankings r1) -> rankings r2 = rev (rankings r1) ->
  agreements r1 r2 candidates = 0.
Proof.
  intros Hc Hnd Hrev. unfold agreements.
  rewrite (filter_none (fun p => comparable r1 r2 p && agree r1 r2 p)
             (all_pairs candidates)); [reflexivity|].
  intros [a b] Hin. destruct (comparable r1 r2 (a, b)) eqn:E; [|reflexivity].
  cbn [andb]. unfold comparable in E. cbn [fst snd] in E.
  rewrite !andb_true_iff, !contains_In in E. destruct E as [[[Ha Hb] _] _].
  apply agree_rev; try assumption.
  exact (all_pairs_NoDup candidates a b Hc Hin).
Qed.

Lemma diversity_two (r1 r2 : Ranking) (candidates : list string) :
  judge r1 <> judge r2 -> id r1 <> id r2 ->
  exists v, diversity_score [r1; r2] candidates = Ok v
            /\ (v == 1 - agreement r1 r2 candidates)%Q.
Proof.
  intros Hj Hid. unfold diversity_score. cbn [List.length Nat.ltb Nat.leb].
  destruct (agreement_matrix_spec [r1; r2] candidates)
    as (matrix & -> & Hnd & Hkeys & Hget).
  cbn [bind].
  destruct (diversity_loop [r1; r2] candidates matrix (fun j => proj1 (Hkeys j)) Hget)
    as (t & -> & Ht).
  cbn [bind].
  assert (Hperm : Permutation (keys matrix) [judge r1; judge r2]).
  { apply NoDup_Permutation; [exact Hnd| |exact Hkeys].
    constructor; [intros [E|[]]; congruence|]. constructor; [intros []|constructor]. }
  pose proof (Permutation_length Hperm) as Hlen.
  destruct (keys matrix) as [|a [|b [|c ks]]]; try discriminate Hlen.
  cbn [all_pairs map app List.length] in *.
  change (Z.of_nat 1 =? 0) with false. cbv iota.
  rewrite truediv_nonzero by (apply inject_Z_nonzero; discriminate).
  cbn [bind]. eexists. split; [reflexivity|].
  assert (He : (t == agreement r1 r2 candidates)%Q).
  { rewrite Ht, total_cons, total_nil. cbn [fst snd].
    assert (L1 : last_by (judge r1) [r1; r2] = Some r1).
    { cbn [last_by]. destruct (String.eqb_spec (judge r2) (judge r1)) as [E|_];
        [congruence|]. rewrite String.eqb_refl. reflexivity. }
    assert (L2 : last_by (judge r2) [r1; r2] = Some r2).
    { cbn [last_by]. rewrite String.eqb_refl. reflexivity. }
    assert (E12 : entry candidates r1 r2 = agreement r1 r2 candidates).
    { unfold entry. destruct (String.eqb_spec (id r1) (id r2)); [congruence|reflexivity]. }
    unfold matrix_entry.
    destruct (Permutation_length_2 Hperm) as [[-> ->]|[-> ->]].
    - rewrite L1, L2, E12. ring.
    - rewrite L1, L2, entry_sym, E12. ring. }
  rewrite He. change (inject_Z (Z.of_nat 1)) with 1%Q. field.
Qed.

Lemma agreement_zero (r1 r2 : Ranking) (candidates : list string) :
  agreements r1 r2 candidates = 0 -> (agreement r1 r2 candidates == 0)%Q.
Proof.
  intros H. unfold agreement. rewrite H.
  destruct (comparisons r1 r2 candidates >? 0) eqn:E; [|reflexivity].
  change (inject_Z 0) with 0%Q. unfold Qdiv. ring.
Qed.

(** For two rankings with different judges and ids, the diversity score
    is one minus their agreement; it is 1, the maximum, when the second
    ranking is the first one reversed (rankings and candidates without
    repetition). *)
Theorem diversity_two_judges (r1 r2 : Ranking) (candidates : list string) :
  judge r1 <> judge r2 -> id r1 <> id r2 ->
  exists v, diversity_score [r1; r2] candidates = Ok v
            /\ (v == 1 - agreement r1 r2 candidates)%Q
            /\ (NoDup candidates -> NoDup (rankings r1) ->
                rankings r2 = rev (rankings r1) -> (v == 1)%Q).
Proof.
  intros Hj Hid.
  destruct (diversity_two r1 r2 candidates Hj Hid) as (v & Hv & Hagree).
  exists v. split; [exact Hv|]. split; [exact Hagree|].
  intros Hc Hnd Hrev. rewrite Hagree.
  rewrite (agreement_zero r1 r2 candidates
             (agreements_rev r1 r2 candidates Hc Hnd Hrev)).
  ring.
Qed.

(** [diversity_two_judges] on A > B > C against C > B > A. *)
Lemma diversity_two_judges_witness :
  "j1"%string <> "j2"%string
  /\ exists v, diversity_score rs_opposite ["A"; "B"; "C"]%string = Ok v
               /\ (v == 1)%Q.
Proof.
  assert (Hne : "j1"%string <> "j2"%string) by discriminate.
  split; [exact Hne|].
  destruct (diversity_two_judges (mk "j1" ["A"; "B"; "C"]%string)
              (mk "j2" ["C"; "B"; "A"]%string) ["A"; "B"; "C"]%string Hne Hne)
    as (v & Hv & _ & Hone).
  exists v. split; [exact Hv|].
  apply Hone; [exact rs_unanimous_order|exact rs_unanimous_order|reflexivity].
Defined.

(** * Confidence zero *)

Lemma weighted_borda_keys (rs : list Ranking) (candidates : list string) :
  exists scores, weighted_borda rs candidates = Ok scores
    /\ keys scores = keys (fromkeys candidates 0%Q)
    /\ forall c, (score scores c
                  == total (fun r => (confidence r * borda_points candidates r c)%Q) rs)%Q.
Proof.
  destruct (weighted_borda_scores rs candidates) as (scores & Hs & _ & Hsc).
  exists scores. split; [exact Hs|]. split; [|exact Hsc].
  revert Hs. unfold weighted_borda.
  set (n := Z.of_nat (List.length candidates)).
  destruct (positional_rankings
              (fun r => weighted_borda_step n (confidence r))
              (fun r p => (inject_Z (n - 1 - Z.of_nat p) * confidence r)%Q)
              candidates
              ltac:(reflexivity) rs _ (complete_fromkeys candidates 0%Q))
    as (scores' & Hs' & Hk & _).
  intros Hs. congruence.
Qed.

(** A ranking with confidence 0 has no influence on [weighted_borda]: with
    or without it the score map has the same keys in the same order and
    equal scores, hence the same winner. *)
Theorem weighted_borda_zero_confidence (rs1 rs2 : list Ranking) (r : Ranking)
  (candidates : list string) :
  (confidence r == 0)%Q ->
  exists s s',
    weighted_borda (rs1 ++ r :: rs2) candidates = Ok s
    /\ weighted_borda (rs1 ++ rs2) candidates = Ok s'
    /\ keys s = keys s'
    /\ (forall c, (score s c == score s' c)%Q)
    /\ get_winner s = get_winner s'.
Proof.
  intros Hzero.
  destruct (weighted_borda_keys (rs1 ++ r :: rs2) candidates) as (s & Hs & Hk & Hsc).
  destruct (weighted_borda_keys (rs1 ++ rs2) candidates) as (s' & Hs' & Hk' & Hsc').
  exists s, s'. split; [exact Hs|]. split; [exact Hs'|].
  assert (Hkeys : keys s = keys s') by congruence.
  assert (Hscore : forall c, (score s c == score s' c)%Q).
  { intros c. rewrite Hsc, Hsc', !total_app, total_cons, Hzero. ring. }
  split; [exact Hkeys|]. split; [exact Hscore|].
  apply get_winner_ext; assumption.
Qed.

(** [weighted_borda_zero_confidence] on the rankings of the specification
    followed by a ranking of confidence 0. *)
Lemma weighted_borda_zero_confidence_witness :
  (0 == 0)%Q
  /\ exists s s',
       weighted_borda (rs_example ++ [mkRanking "id4" "j4" ["r3"; "r2"; "r1"]%string 0%Q])
                      candidates3 = Ok s
       /\ weighted_borda (rs_example ++ []) candidates3 = Ok s'
       /\ get_winner s = get_winner s'.
Proof.
  split; [reflexivity|].
  destruct (weighted_borda_zero_confidence rs_example []
              (mkRanking "id4" "j4" ["r3"; "r2"; "r1"]%string 0%Q) candidates3
              (Qeq_refl 0%Q))
    as (s & s' & Hs & Hs' & _ & _ & Hw).
  exists s, s'. split; [exact Hs|]. split; [exact Hs'|exact Hw].
Defined.

(** * Ranked pairs: the reported winner

    [get_winner] of the [ranked_pairs] scores is a candidate with the most
    locked victories.  On the cycle A > B > C, B > C > A, C > A > B the edges
    A -> B and C -> A are locked: A and C have one victory each, A is
    reported, and the locked edge C -> A enters it. *)
Example ranked_pairs_winner_defeated :
  ranked_pairs_locked rs_cycle ["A"; "B"; "C"]%string
  = Ok [("A", "B"); ("C", "A")]%string
  /\ (s <- ranked_pairs rs_cycle ["A"; "B"; "C"]%string ;; get_winner s)
     = Ok "A"%string.
Proof. split; reflexivity. Qed.
